(** * screen: styles, colours and control properties

    A shallow embedding of the value types of [screen.drawing]
    ([Style] in style.py, [Color] in color.py) and of the control
    declarations of [screen.controls] ([Stack] in stack.py, [Popup] in
    popup.py), with the properties the specification states about them.

    Python integers are unbounded and are modelled by [Z]; Python strings
    by [string]; a Python [set] of integers by [gset Z]; Python floats by
    the IEEE 754 binary64 values of [SpecFloat], with its correctly rounded
    operations.  A call either returns a value or raises, which is the
    [result] type below.  The colour code calls [colorsys] of the Python
    standard library; its four conversions are transcribed from
    Lib/colorsys.py, and the properties that do not depend on them are
    stated for any module in its place.

    The file has the definitions first (styles, numbers and colours,
    controls, [colorsys]) and then the properties: of styles (C3, C4, C9), of binary64
    rounding, of colours (C5) and of controls (C1, C2, C8, C10); then
    further properties of the same code, X1 to X20: of styles, of the
    colour accessors and constructors, of the random constructors, of the
    hue and channel conversions, and of the bullet predicate; and last the
    properties of interpolation (C6, C7). *)

From Stdlib Require Import ZArith QArith Qabs String Ascii List Lia DecimalString.
From Stdlib Require Import SpecFloat.
From Stdlib Require DecimalFacts DecimalZ.
From stdpp Require Import gmap strings list sorting.

Local Open Scope Z_scope.

(** ** Python outcomes *)

Inductive exn : Type :=
  | ArithmeticError
  | NotImplementedError
  | OverflowError
  | TypeConstraintError
  | TypeError
  | ValueError
  | ZeroDivisionError.

Inductive result (A : Type) : Type :=
  | Ok (a : A)
  | Raise (e : exn).

Arguments Ok {A} a.
Arguments Raise {A} e.

#[global] Instance result_ret : MRet result := @Ok.

#[global] Instance result_bind : MBind result :=
  fun A B (k : A -> result B) (r : result A) =>
    match r with
    | Ok a => k a
    | Raise e => Raise e
    end.

(** What a binary special method such as [__or__] hands back to the
    interpreter: a value, the [NotImplemented] singleton, or an exception. *)
Inductive method_result (A : Type) : Type :=
  | Returned (a : A)
  | NotImplemented
  | Raised (e : exn).

Arguments Returned {A} a.
Arguments NotImplemented {A}.
Arguments Raised {A} e.

(** [str(v)] for an integer: the decimal numeral, with a leading minus sign
    for negative numbers. *)
Definition str (v : Z) : string := NilZero.string_of_int (Z.to_int v).

(** [sorted(xs)] on integers: ascending order. *)
Definition sorted (xs : list Z) : list Z := merge_sort Z.le xs.

(** ** screen/drawing/style.py *)

(** [__slots__ = ("values",)]: a style holds one slot, a set of integers. *)
Record Style : Type := mkStyle { values : gset Z }.

#[global] Instance Style_eq_dec : EqDecision Style.
Proof. solve_decision. Defined.

(** [Style.__init__], variadic: [self.values = set(values)]. *)
Definition Style_init (vals : list Z) : Style := mkStyle (list_to_set vals).

(** A class attribute as written in the class body: an integer
    ([reset = 0]) or a tuple of integers ([reset_color = (39, 49)]). *)
Inductive class_attr : Type :=
  | AttrInt (v : Z)
  | AttrTuple (vs : list Z).

(** [StyleMeta.__new__] replaces every public attribute by a style: the
    class called on the unpacked value, and when unpacking raises
    [TypeError] (an integer is not iterable), [cls(value)]. *)
Definition StyleMeta_new (a : class_attr) : Style :=
  match a with
  | AttrTuple vs => Style_init vs
  | AttrInt v => Style_init [v]
  end.

Definition Style_reset : Style := StyleMeta_new (AttrInt 0).
Definition Style_reset_foreground_color : Style := StyleMeta_new (AttrInt 39).
Definition Style_reset_background_color : Style := StyleMeta_new (AttrInt 49).
Definition Style_reset_color : Style := StyleMeta_new (AttrTuple [39; 49]).

(** The right operand of [==] and [|] is any Python object; only whether it
    is a [Style] matters to the code. *)
Inductive operand : Type :=
  | OStyle (s : Style)
  | OInt (v : Z)
  | ONone.

(** [Style.__eq__]:
    [isinstance(other, self.__class__) and self.values == other.values]. *)
Definition Style_eq (self : Style) (other : operand) : bool :=
  match other with
  | OStyle o => bool_decide (values self = values o)
  | _ => false
  end.

(** [Style.__or__]. *)
Definition Style_or (self : Style) (other : operand) : method_result Style :=
  match other with
  | OStyle o =>
      if Style_eq self (OStyle Style_reset) || Style_eq o (OStyle Style_reset)
      then Raised ArithmeticError
      else Returned (Style_init (elements (values self) ++ elements (values o)))
  | _ => NotImplemented
  end.

(** The expression [x | y] with [x] a style: [NotImplemented] from [__or__]
    becomes a [TypeError], since no other operand type here reflects [|]
    for a style. *)
Definition bitor (x : Style) (y : operand) : result Style :=
  match Style_or x y with
  | Returned s => Ok s
  | NotImplemented => Raise TypeError
  | Raised e => Raise e
  end.

Definition ESC : ascii := ascii_of_nat 27.

(** [Style.build]:
    [value = ";".join([str(v) for v in sorted(self.values)])] and the
    result is [f"\x1B[{value}m"]. *)
Definition Style_build (s : Style) : string :=
  let value := String.concat ";" (map str (sorted (elements (values s)))) in
  String ESC ("[" ++ value ++ "m")%string.

(** *** Styles as objects

    Two names may denote the same style object, and [values] is an
    ordinary (assignable) slot.  To speak about mutation, objects live in a
    store indexed by identity; [x | y] reads its operands from the store and
    allocates the result. *)

Definition Style_alloc (s : Style) (st : gmap nat Style) : nat * gmap nat Style :=
  let l := fresh (dom st) in (l, <[l := s]> st).

Definition Style_or_obj (self other : nat) (st : gmap nat Style)
  : option (result nat * gmap nat Style) :=
  x ← st !! self;
  y ← st !! other;
  Some (match bitor x (OStyle y) with
        | Ok s => let '(l, st') := Style_alloc s st in (Ok l, st')
        | Raise e => (Raise e, st)
        end).

(** ** Python numbers

    A Python number here is an [int] or a [float].  Floats are IEEE 754
    binary64 values, [spec_float] with a 53-bit significand, and their
    operations are the correctly rounded ones of [SpecFloat]. *)

Definition float : Type := spec_float.

Definition fprec : Z := 53.
Definition femax : Z := 1024.

Inductive num : Type :=
  | NInt (z : Z)
  | NFloat (f : float).

(** Conversion of an [int] operand in mixed arithmetic; too large an
    integer raises [OverflowError]. *)
Definition float_of_int (z : Z) : result float :=
  match binary_normalize fprec femax z 0 false with
  | S754_infinity _ => Raise OverflowError
  | f => Ok f
  end.

Definition num_float (n : num) : result float :=
  match n with
  | NInt z => float_of_int z
  | NFloat f => Ok f
  end.

(** [a * b]. *)
Definition num_mul (a b : num) : result num :=
  match a, b with
  | NInt x, NInt y => Ok (NInt (x * y))
  | _, _ =>
      x ← num_float a;
      y ← num_float b;
      Ok (NFloat (SFmul fprec femax x y))
  end.

(** [a + b] and [a - b]. *)
Definition num_add (a b : num) : result num :=
  match a, b with
  | NInt x, NInt y => Ok (NInt (x + y))
  | _, _ =>
      x ← num_float a;
      y ← num_float b;
      Ok (NFloat (SFadd fprec femax x y))
  end.

Definition num_sub (a b : num) : result num :=
  match a, b with
  | NInt x, NInt y => Ok (NInt (x - y))
  | _, _ =>
      x ← num_float a;
      y ← num_float b;
      Ok (NFloat (SFsub fprec femax x y))
  end.

(** True division of two integers: the exact quotient, rounded once. *)
Definition int_truediv (x y : Z) : result float :=
  match x, y with
  | _, Z0 => Raise ZeroDivisionError
  | Z0, Zpos _ => Ok (S754_zero false)
  | Z0, Zneg _ => Ok (S754_zero true)
  | Zpos p, Zpos q | Zneg p, Zneg q =>
      match SFdiv fprec femax (S754_finite false p 0) (S754_finite false q 0) with
      | S754_infinity _ => Raise OverflowError
      | f => Ok f
      end
  | Zpos p, Zneg q | Zneg p, Zpos q =>
      match SFdiv fprec femax (S754_finite true p 0) (S754_finite false q 0) with
      | S754_infinity _ => Raise OverflowError
      | f => Ok f
      end
  end.

Definition float_is_zero (f : float) : bool :=
  match f with
  | S754_zero _ => true
  | _ => false
  end.

(** [a / b]. *)
Definition num_truediv (a b : num) : result num :=
  match a, b with
  | NInt x, NInt y => f ← int_truediv x y; Ok (NFloat f)
  | _, _ =>
      x ← num_float a;
      y ← num_float b;
      if float_is_zero y then Raise ZeroDivisionError
      else Ok (NFloat (SFdiv fprec femax x y))
  end.

(** [int(x)]: truncation toward zero; infinities and NaN raise. *)
Definition int_of_float (f : float) : result Z :=
  match f with
  | S754_zero _ => Ok 0
  | S754_finite s m e =>
      Ok (cond_Zopp s (if 0 <=? e then Zpos m * 2 ^ e else Zpos m / 2 ^ (- e)))
  | S754_infinity _ => Raise OverflowError
  | S754_nan => Raise ValueError
  end.

Definition int_ (n : num) : result Z :=
  match n with
  | NInt z => Ok z
  | NFloat f => int_of_float f
  end.

(** Nearest integer to a non-negative dyadic [m / 2^k], ties to even. *)
Definition nearest_even (m : Z) (k : Z) : Z :=
  let q := m / 2 ^ k in
  let r := m mod 2 ^ k in
  match 2 * r ?= 2 ^ k with
  | Lt => q
  | Gt => q + 1
  | Eq => if Z.even q then q else q + 1
  end.

(** [round(x, 0)]: an [int] stays as it is; a float is rounded to the
    nearest integral float, ties to even, keeping its sign. *)
Definition round0 (n : num) : num :=
  match n with
  | NInt z => NInt z
  | NFloat (S754_finite s m e) =>
      if 0 <=? e then n
      else NFloat (binary_normalize fprec femax
                     (cond_Zopp s (nearest_even (Zpos m) (- e))) 0 s)
  | NFloat f => NFloat f
  end.

(** ** screen/drawing/color.py *)

Inductive ColorInterpolationMethod : Type :=
  | hsl
  | hsv
  | rgb.

(** [__slots__ = ("value",)]: the packed integer. *)
Record Color : Type := mkColor { value : Z }.

#[global] Instance Color_eq_dec : EqDecision Color.
Proof. solve_decision. Defined.

(** [Color.__eq__] against another colour. *)
Definition Color_eq (self other : Color) : bool :=
  bool_decide (value self = value other).

(** [Color.from_argb]:
    [a = int(a * 255)] then
    [cls((a << 24) + (r << 16) + (g << 8) + b)]. *)
Definition Color_from_argb (a : num) (r g b : Z) : result Color :=
  a255 ← num_mul a (NInt 255);
  a' ← int_ a255;
  Ok (mkColor ((a' ≪ 24) + (r ≪ 16) + (g ≪ 8) + b)).

(** [Color.from_rgb]: [from_argb] with an alpha level of [1]. *)
Definition Color_from_rgb (r g b : Z) : result Color :=
  Color_from_argb (NInt 1) r g b.

(** The accessors.  In Python [>>] binds tighter than [&]. *)
Definition Color_a (self : Color) : result float :=
  let a := Z.land (value self ≫ 24) 255 in
  int_truediv a 255.

Definition Color_r (self : Color) : Z := Z.land (value self ≫ 16) 255.
Definition Color_g (self : Color) : Z := Z.land (value self ≫ 8) 255.
Definition Color_b (self : Color) : Z := Z.land (value self) 255.

(** The four conversions of the standard [colorsys] module that the colour
    code calls.  They are library code outside these sources, so the
    colour functions are written over any implementation of them. *)
Record colorsys_module : Type := {
  rgb_to_hls : num -> num -> num -> result (num * num * num);
  hls_to_rgb : num -> num -> num -> result (num * num * num);
  rgb_to_hsv : num -> num -> num -> result (num * num * num);
  hsv_to_rgb : num -> num -> num -> result (num * num * num)
}.

Section interpolation.
(** [screen.utils.interpolate] is imported by the colour code but is not
    part of these sources. *)
Variable interpolate : num -> num -> num -> result num.
Variable colorsys : colorsys_module.

(** [int(round(x * 255, 0))]. *)
Definition scale_channel (x : num) : result Z :=
  x255 ← num_mul x (NInt 255);
  int_ (round0 x255).

(** [Color._hsl_to_rgb]. *)
Definition Color__hsl_to_rgb (h s l : num) : result (Z * Z * Z) :=
  h ← num_truediv h (NInt 360);
  '(r, g, b) ← hls_to_rgb colorsys h l s;
  r ← scale_channel r;
  g ← scale_channel g;
  b ← scale_channel b;
  Ok (r, g, b).

(** [Color._rgb_to_hsl]; it returns [(h, s, l)]. *)
Definition Color__rgb_to_hsl (r g b : Z) : result (Z * num * num) :=
  r ← num_truediv (NInt r) (NInt 255);
  g ← num_truediv (NInt g) (NInt 255);
  b ← num_truediv (NInt b) (NInt 255);
  '(h, l, s) ← rgb_to_hls colorsys r g b;
  h360 ← num_mul h (NInt 360);
  h ← int_ h360;
  Ok (h, s, l).

(** [Color._hsv_to_rgb]. *)
Definition Color__hsv_to_rgb (h s v : num) : result (Z * Z * Z) :=
  h ← num_truediv h (NInt 360);
  '(r, g, b) ← hsv_to_rgb colorsys h s v;
  r ← scale_channel r;
  g ← scale_channel g;
  b ← scale_channel b;
  Ok (r, g, b).

(** [Color._rgb_to_hsv]. *)
Definition Color__rgb_to_hsv (r g b : Z) : result (Z * num * num) :=
  r ← num_truediv (NInt r) (NInt 255);
  g ← num_truediv (NInt g) (NInt 255);
  b ← num_truediv (NInt b) (NInt 255);
  '(h, s, v) ← rgb_to_hsv colorsys r g b;
  h360 ← num_mul h (NInt 360);
  h ← int_ h360;
  Ok (h, s, v).

(** [Color.from_ahsl], [Color.from_hsl], [Color.from_ahsv],
    [Color.from_hsv]. *)
Definition Color_from_ahsl (a h s l : num) : result Color :=
  '(r, g, b) ← Color__hsl_to_rgb h s l;
  Color_from_argb a r g b.

Definition Color_from_hsl (h s l : num) : result Color :=
  Color_from_ahsl (NInt 1) h s l.

Definition Color_from_ahsv (a h s v : num) : result Color :=
  '(r, g, b) ← Color__hsv_to_rgb h s v;
  Color_from_argb a r g b.

Definition Color_from_hsv (h s v : num) : result Color :=
  Color_from_ahsv (NInt 1) h s v.

(** [int(utils.interpolate(x, y, p))]. *)
Definition interpolate_int (x y p : num) : result Z :=
  v ← interpolate x y p;
  int_ v.

(** [Color._interpolate_hsl]. *)
Definition Color__interpolate_hsl (c1 c2 : Color) (p : num) : result Color :=
  '(h1, s1, l1) ← Color__rgb_to_hsl (Color_r c1) (Color_g c1) (Color_b c1);
  '(h2, s2, l2) ← Color__rgb_to_hsl (Color_r c2) (Color_g c2) (Color_b c2);
  h ← interpolate_int (NInt h1) (NInt h2) p;
  s ← interpolate s1 s2 p;
  l ← interpolate l1 l2 p;
  Color_from_hsl (NInt h) s l.

(** [Color._interpolate_hsv]. *)
Definition Color__interpolate_hsv (c1 c2 : Color) (p : num) : result Color :=
  '(h1, s1, v1) ← Color__rgb_to_hsv (Color_r c1) (Color_g c1) (Color_b c1);
  '(h2, s2, v2) ← Color__rgb_to_hsv (Color_r c2) (Color_g c2) (Color_b c2);
  h ← interpolate_int (NInt h1) (NInt h2) p;
  s ← interpolate s1 s2 p;
  v ← interpolate v1 v2 p;
  Color_from_hsv (NInt h) s v.

(** [Color._interpolate_rgb]. *)
Definition Color__interpolate_rgb (c1 c2 : Color) (p : num) : result Color :=
  r ← interpolate_int (NInt (Color_r c1)) (NInt (Color_r c2)) p;
  g ← interpolate_int (NInt (Color_g c1)) (NInt (Color_g c2)) p;
  b ← interpolate_int (NInt (Color_b c1)) (NInt (Color_b c2)) p;
  Color_from_rgb r g b.

(** [Color._interpolation_method_map]. *)
Definition Color__interpolation_method_map (m : ColorInterpolationMethod)
  : Color -> Color -> num -> result Color :=
  match m with
  | hsl => Color__interpolate_hsl
  | hsv => Color__interpolate_hsv
  | rgb => Color__interpolate_rgb
  end.

(** [Color.interpolate(c1, c2, p, *, method=None)]:
    [method = method or ColorInterpolationMethod.rgb]; every member of
    the enumeration is a non-zero integer, hence true. *)
Definition Color_interpolate (c1 c2 : Color) (p : num)
    (method : option ColorInterpolationMethod) : result Color :=
  let method := default rgb method in
  let meth := Color__interpolation_method_map method in
  meth c1 c2 p.
End interpolation.

(** Modelled from the spec: [screen.utils.interpolate], which the sources
    import but do not contain.  The specification calls the interpolation
    linear, so [interpolate(a, b, p)] is taken to be [a + (b - a) * p]. *)
Definition utils_interpolate (a b p : num) : result num :=
  d ← num_sub b a;
  dp ← num_mul d p;
  num_add a dp.


(** The exact value of a number, when it is finite. *)
Definition float_value (f : float) : option Q :=
  match f with
  | S754_zero _ => Some (0 # 1)
  | S754_finite s m e =>
      Some (if 0 <=? e then cond_Zopp s (Zpos m * 2 ^ e) # 1
            else cond_Zopp s (Zpos m) # Z.to_pos (2 ^ (- e)))
  | _ => None
  end.

Definition num_value (n : num) : option Q :=
  match n with
  | NInt z => Some (z # 1)
  | NFloat f => float_value f
  end.

(** Truncation of a rational toward zero. *)
Definition truncate (q : Q) : Z := Z.quot (Qnum q) (Zpos (Qden q)).

(** A [colorsys] for running the RGB method, which calls none of the four
    conversions: here each of them raises. *)
Definition colorsys_unused : colorsys_module :=
  {| rgb_to_hls := fun _ _ _ => Raise NotImplementedError;
     hls_to_rgb := fun _ _ _ => Raise NotImplementedError;
     rgb_to_hsv := fun _ _ _ => Raise NotImplementedError;
     hsv_to_rgb := fun _ _ _ => Raise NotImplementedError |}.

(** The float 255.0, which is what the integer 255 converts to. *)
Definition float_255 : float := S754_finite false 8972014882652160 (-45).

(** The float 0.5, that is [2^52 * 2^-53]. *)
Definition one_half : float := S754_finite false 4503599627370496 (-53).

(** The float 0.75, that is [3 * 2^51 * 2^-53]. *)
Definition three_quarters : float := S754_finite false 6755399441055744 (-53).

(** The check behind the alpha round trip, for one alpha byte [A]: the
    quotient [A / 255] is a positive float [m * 2^e] with [e < 0], and
    [255 * m * 2^e] differs from [A] by less than [2^(log2 A - 53)], half
    the spacing of the floats around [A]. *)
Definition alpha_row_ok (A : Z) : bool :=
  match int_truediv A 255 with
  | Ok (S754_finite false m e) =>
      (e <? 0)
      && (Z.abs (A * 2 ^ (- e) - 255 * Zpos m) * 2 ^ (53 - Z.log2 A)
          <? 2 ^ (- e))
  | _ => false
  end.

(** ** screen/controls *)

(** The Python values that control properties hold: [None], integers,
    strings, members of an enumeration class (such as [Bullet.none],
    [Orientation.horizontal] or [Placement.cursor]) and lists of controls,
    the latter by identity. *)
Inductive pyvalue : Type :=
  | VNone
  | VInt (z : Z)
  | VStr (s : string)
  | VEnum (cls member : string)
  | VControls (ids : list nat).

Inductive pytype : Type :=
  | TInt
  | TStr
  | TEnum (cls : string)
  | TListControl.

(** [isinstance(v, t)]. *)
Definition isinstance (v : pyvalue) (t : pytype) : bool :=
  match v, t with
  | VInt _, TInt => true
  | VStr _, TStr => true
  | VEnum c _, TEnum c' => bool_decide (c = c')
  | VControls _, TListControl => true
  | _, _ => false
  end.

(** An invalidation rule as written in a property declaration: a constant
    [True] or [False], or a callable over the old and the new value. *)
Inductive rule : Type :=
  | RConst (b : bool)
  | RCallable (f : pyvalue -> pyvalue -> bool).

(** Modelled from the spec: the [property] descriptor of [screen.controls],
    which the control classes import but these sources do not contain.  A
    descriptor is defined by a type or a closed union of types (here the
    list of its members), a default value, a nullability flag, a
    measure-invalidation rule and a paint-invalidation rule, in this
    order. *)
Record property : Type := mkProperty {
  prop_types : list pytype;
  prop_default : pyvalue;
  prop_nullable : bool;
  prop_measure : rule;
  prop_paint : rule
}.

(** [Union[...]] in a declaration; a single type is a union of one. *)
Definition Union (ts : list pytype) : list pytype := ts.

(** *** screen/controls/stack.py *)

Section stack.
(** [screen.utils.len], imported in place of the built-in [len], is not
    part of these sources. *)
Variable len : string -> Z.

(** [_bullet_invalidate_measure]:
    [not (isinstance(before, str) and isinstance(after, str)
          and len(before) == len(after))].
    The lengths are only taken once both operands are known to be
    strings. *)
Definition _bullet_invalidate_measure (before after : pyvalue) : bool :=
  negb (isinstance before TStr && isinstance after TStr
        && match before, after with
           | VStr b, VStr a => len b =? len a
           | _, _ => false
           end).

(** The declarations of [class Stack(Control)]. *)
Definition Stack_bullet : property :=
  mkProperty (Union [TEnum "Bullet"; TStr]) (VEnum "Bullet" "none") true
             (RCallable _bullet_invalidate_measure) (RConst true).

Definition Stack_children : property :=
  mkProperty [TListControl] VNone false (RConst true) (RConst true).

Definition Stack_orientation : property :=
  mkProperty [TEnum "Orientation"] (VEnum "Orientation" "horizontal") true
             (RConst true) (RConst true).

Definition Stack_spacing : property :=
  mkProperty [TInt] (VInt 0) true (RConst true) (RConst true).
End stack.

(** Modelled from the spec: [screen.utils.len], which the bullet predicate
    calls but these sources do not contain.  The specification speaks of
    the length of the string, one for ["*"] and two for ["**"]. *)
Definition utils_len (s : string) : Z := Z.of_nat (String.length s).

(** *** screen/controls/popup.py *)

(** The declarations of [class Popup(Control)]. *)
Definition Popup_horizontal_offset : property :=
  mkProperty [TInt] (VInt 0) true (RConst false) (RConst false).

Definition Popup_placement : property :=
  mkProperty [TEnum "Placement"] (VEnum "Placement" "cursor") true
             (RConst false) (RConst false).

Definition Popup_vertical_offset : property :=
  mkProperty [TInt] (VInt 0) true (RConst false) (RConst false).

(** The properties a class declares, by attribute name.  [ClsOther] stands
    for control classes outside these sources. *)
Inductive control_class : Type :=
  | ClsStack
  | ClsPopup
  | ClsOther (name : string).

Definition declared (len : string -> Z) (cls : control_class)
  : list (string * property) :=
  match cls with
  | ClsStack =>
      [ ("bullet", Stack_bullet len); ("children", Stack_children);
        ("orientation", Stack_orientation); ("spacing", Stack_spacing) ]%string
  | ClsPopup =>
      [ ("horizontal_offset", Popup_horizontal_offset);
        ("placement", Popup_placement);
        ("vertical_offset", Popup_vertical_offset) ]%string
  | ClsOther _ => []
  end.

(** *** Controls and assignment *)

(** Modelled from the spec: a control of the abstract [Control] base, which
    these sources do not contain.  It owns a mapping from property name to
    current value, a measure-dirty flag, a paint-dirty flag, a cached
    measure result and a non-owning reference to its parent. *)
Record control : Type := mkControl {
  ctl_class : control_class;
  ctl_props : gmap string pyvalue;
  ctl_measure_dirty : bool;
  ctl_paint_dirty : bool;
  ctl_measured : option (Z * Z);
  ctl_parent : option nat
}.

(** Modelled from the spec: a rule that is a constant is used directly, a
    callable rule is invoked with the old and the new value. *)
Definition eval_rule (r : rule) (old new : pyvalue) : bool :=
  match r with
  | RConst b => b
  | RCallable f => f old new
  end.

(** Modelled from the spec: a value is accepted when it is of the declared
    type or of a member of the declared union, and [None] is accepted
    exactly when the property is nullable. *)
Definition accepts (d : property) (v : pyvalue) : bool :=
  match v with
  | VNone => prop_nullable d
  | _ => existsb (isinstance v) (prop_types d)
  end.

(** Modelled from the spec: measure dirt climbs from a control to its
    ancestors and stops at the first one that is already measure-dirty.
    The walk is bounded by [fuel], at most the number of controls. *)
Fixpoint propagate_measure_dirty (fuel : nat) (c : nat)
    (tree : gmap nat control) : gmap nat control :=
  match fuel with
  | O => tree
  | S fuel' =>
      match tree !! c with
      | None => tree
      | Some ctl =>
          if ctl_measure_dirty ctl then tree
          else
            let ctl' := mkControl (ctl_class ctl) (ctl_props ctl) true
                          (ctl_paint_dirty ctl) (ctl_measured ctl)
                          (ctl_parent ctl) in
            let tree' := <[c := ctl']> tree in
            match ctl_parent ctl with
            | None => tree'
            | Some p => propagate_measure_dirty fuel' p tree'
            end
      end
  end.

(** Modelled from the spec: marking a control measure-dirty sets its flag
    and signals its parent. *)
Definition mark_measure_dirty (c : nat) (tree : gmap nat control)
  : gmap nat control :=
  match tree !! c with
  | None => tree
  | Some ctl =>
      let ctl' := mkControl (ctl_class ctl) (ctl_props ctl) true
                    (ctl_paint_dirty ctl) (ctl_measured ctl)
                    (ctl_parent ctl) in
      let tree' := <[c := ctl']> tree in
      match ctl_parent ctl with
      | None => tree'
      | Some p => propagate_measure_dirty (size tree) p tree'
      end
  end.

(** Modelled from the spec: paint dirt stays on the control and does not
    climb to its ancestors. *)
Definition mark_paint_dirty (c : nat) (tree : gmap nat control)
  : gmap nat control :=
  match tree !! c with
  | None => tree
  | Some ctl =>
      <[c := mkControl (ctl_class ctl) (ctl_props ctl)
               (ctl_measure_dirty ctl) true (ctl_measured ctl)
               (ctl_parent ctl)]> tree
  end.

(** Modelled from the spec: the backing store of a control, updated at
    one property name. *)
Definition store_value (c : nat) (name : string) (v : pyvalue)
    (tree : gmap nat control) : gmap nat control :=
  match tree !! c with
  | None => tree
  | Some ctl =>
      <[c := mkControl (ctl_class ctl) (<[name := v]> (ctl_props ctl))
               (ctl_measure_dirty ctl) (ctl_paint_dirty ctl)
               (ctl_measured ctl) (ctl_parent ctl)]> tree
  end.

(** Modelled from the spec: assignment through a descriptor.  A value the
    descriptor does not accept fails with [TypeConstraintError].
    Otherwise the descriptor takes the old value (the stored one, or the
    default), evaluates both rules on the old and the new value, stores
    the new value, and then marks the control measure-dirty and
    paint-dirty as the rules say.  The result is the outcome together with
    the control tree after the statement; [None] when [c] names no
    control. *)
Definition assign (d : property) (name : string) (c : nat) (v : pyvalue)
    (tree : gmap nat control) : option (result unit * gmap nat control) :=
  ctl ← tree !! c;
  Some (if accepts d v then
          let old := default (prop_default d) (ctl_props ctl !! name) in
          let dirty_measure := eval_rule (prop_measure d) old v in
          let dirty_paint := eval_rule (prop_paint d) old v in
          let tree1 := store_value c name v tree in
          let tree2 := if dirty_measure then mark_measure_dirty c tree1
                       else tree1 in
          let tree3 := if dirty_paint then mark_paint_dirty c tree2
                       else tree2 in
          (Ok tt, tree3)
        else (Raise TypeConstraintError, tree)).

(** Modelled from the spec: [control.name = v] goes through the descriptor
    that the control's class declares under [name]; an undeclared name is
    outside the model. *)
Definition setattr (len : string -> Z) (c : nat) (name : string) (v : pyvalue)
    (tree : gmap nat control) : option (result unit * gmap nat control) :=
  ctl ← tree !! c;
  d ← (list_to_map (declared len (ctl_class ctl)) : gmap string property) !! name;
  assign d name c v tree.

(** [Stack.measure_core] and [Stack.render_core]. *)
Definition Stack_measure_core (tree : gmap nat control) (self : nat) (h w : Z)
  : result (Z * Z) :=
  Raise NotImplementedError.

Definition Stack_render_core (tree : gmap nat control) (self : nat) (h w : Z)
  : result unit :=
  Raise NotImplementedError.

(** The size the specification gives for a horizontal stack: as width the
    sum of the children's widths plus [spacing * (child_count - 1)] plus
    the bullet reservations, as height the largest child height clamped
    to the available height.  Sizes are [(height, width)] pairs. *)
Definition spec_horizontal_measure (sizes : list (Z * Z))
    (spacing bullets : Z) (h w : Z) : Z * Z :=
  (Z.min h (foldr Z.max 0 (map fst sizes)),
   foldr Z.add 0 (map snd sizes)
   + spacing * (Z.of_nat (length sizes) - 1) + bullets).

(** The natural sizes of the children of a stack, as cached on them. *)
Definition child_sizes (tree : gmap nat control) (self : nat)
  : list (Z * Z) :=
  match tree !! self with
  | Some ctl =>
      match ctl_props ctl !! "children"%string with
      | Some (VControls ids) =>
          omap (fun i => ctl ← tree !! i; ctl_measured ctl) ids
      | _ => []
      end
  | None => []
  end.

(** Modelled from the spec: a control as constructed has every property
    at its declared default and both flags set. *)
Definition new_control (len : string -> Z) (cls : control_class)
    (parent : option nat) : control :=
  mkControl cls (prop_default <$> list_to_map (declared len cls))
            true true None parent.

(** Modelled from the spec: measuring and painting a control caches its
    size and clears both flags. *)
Definition clean (ctl : control) (size : Z * Z) : control :=
  mkControl (ctl_class ctl) (ctl_props ctl) false false (Some size)
            (ctl_parent ctl).

(** A horizontal stack, control 0, with spacing 2 and three children of
    fixed sizes 1x3, 2x4 and 1x5 (height x width), all measured. *)
Definition example_stack_tree : gmap nat control :=
  let stack := new_control utils_len ClsStack None in
  let stack :=
    mkControl ClsStack
      (<["spacing"%string := VInt 2]>
         (<["children"%string := VControls [1; 2; 3]%nat]> (ctl_props stack)))
      true true None None in
  let child := new_control utils_len (ClsOther "Text") (Some 0%nat) in
  <[0%nat := stack]>
    (<[1%nat := clean child (1, 3)]>
       (<[2%nat := clean child (2, 4)]>
          (<[3%nat := clean child (1, 5)]> ∅))).

(** A popup, control 1, inside a clean root, control 0; both measured and
    painted. *)
Definition example_popup_tree : gmap nat control :=
  <[0%nat := clean (new_control utils_len (ClsOther "Root") None) (24, 80)]>
    (<[1%nat := clean (new_control utils_len ClsPopup (Some 0%nat)) (3, 10)]> ∅).

(** ** Further methods of [Style] and [Color] *)

(** [s[1:]]: the string without its first character. *)
Definition string_tail (s : string) : string :=
  match s with
  | EmptyString => EmptyString
  | String _ rest => rest
  end.

(** [Style.__str__]: [self.build()]. *)
Definition Style_str (s : Style) : string := Style_build s.

(** [Style.__repr__]:
    [value = self.build()] and the result is the class name in angle
    brackets, then a backslash and the letters ESC, then [value[1:]], then
    a real escape character followed by [[0m], the reset sequence. *)
Definition Style_repr (s : Style) : string :=
  let value := Style_build s in
  ("<Style \ESC" ++ string_tail value ++ String ESC "[0m>")%string.

(** The class body of [Style], lines 53 to 108: the public attributes in
    the order written, each an integer or a tuple of integers. *)
Definition Style_attrs : list (string * class_attr) :=
  [ ("reset", AttrInt 0);
    ("intensity_increased", AttrInt 1);
    ("intensity_decreased", AttrInt 2);
    ("italic_on", AttrInt 3);
    ("underline_on", AttrInt 4);
    ("blink_slow_on", AttrInt 5);
    ("blink_fast_on", AttrInt 6);
    ("invert_on", AttrInt 7);
    ("conceal_on", AttrInt 8);
    ("strikethrough_on", AttrInt 9);
    ("underline_double_on", AttrInt 21);
    ("intensity_normal", AttrInt 22);
    ("italic_off", AttrInt 23);
    ("underline_off", AttrInt 24);
    ("blink_off", AttrInt 25);
    ("invert_off", AttrInt 27);
    ("conceal_off", AttrInt 28);
    ("strikethrough_off", AttrInt 29);
    ("reset_foreground_color", AttrInt 39);
    ("reset_background_color", AttrInt 49);
    ("overline_on", AttrInt 53);
    ("overline_off", AttrInt 55);
    ("reset_color", AttrTuple [39; 49]) ]%string.

(** The loop of [StyleMeta.__new__] over [attrs.items()]: every public
    attribute is replaced by the style made from its value. *)
Definition Style_constants : list (string * Style) :=
  map (fun '(name, value) => (name, StyleMeta_new value)) Style_attrs.

(** For two named styles: [==] holds exactly for equal names, and [|]
    raises [ArithmeticError] exactly when a name is [reset]. *)
Definition constants_pair_ok (p q : string * Style) : bool :=
  bool_decide (Style_eq p.2 (OStyle q.2) = (String.eqb p.1 q.1))
  && match bitor p.2 (OStyle q.2) with
     | Ok _ => negb (String.eqb p.1 "reset") && negb (String.eqb q.1 "reset")
     | Raise ArithmeticError => String.eqb p.1 "reset" || String.eqb q.1 "reset"
     | Raise _ => false
     end.

(** Number of occurrences of a character in a string. *)
Fixpoint count_char (c : ascii) (s : string) : nat :=
  match s with
  | EmptyString => 0%nat
  | String a rest =>
      ((if Ascii.eqb a c then 1 else 0) + count_char c rest)%nat
  end.

(** Every character of the string is one of [cs]. *)
Fixpoint chars_in (cs : list ascii) (s : string) : Prop :=
  match s with
  | EmptyString => True
  | String a rest => In a cs /\ chars_in cs rest
  end.

Definition digit_chars : list ascii :=
  list_ascii_of_string "0123456789".

(** What follows a code in a joined string: nothing, or the separator. *)
Definition starts_with_or_empty (c : ascii) (r : string) : Prop :=
  match r with
  | EmptyString => True
  | String a _ => a = c
  end.

Definition code_chars : list ascii := ";"%char :: "-"%char :: digit_chars.

(** [Color.__repr__]: [f"<Color r={self.r} g={self.g} b={self.b}>"]. *)
Definition Color_repr (c : Color) : string :=
  ("<Color r=" ++ str (Color_r c) ++ " g=" ++ str (Color_g c)
   ++ " b=" ++ str (Color_b c) ++ ">")%string.

(** *** The random constructors

    [random.random()] returns the next float of the generator.  The
    generator is a stream of floats, [draws], and the state threaded
    through the constructors is the number of draws made so far. *)

(** Truth value of a number: zero of either kind is false. *)
Definition truthy (n : num) : bool :=
  match n with
  | NInt 0 => false
  | NFloat (S754_zero _) => false
  | _ => true
  end.

Section random.
Variable draws : nat -> float.

(** [random.random()]. *)
Definition random_random (i : nat) : float * nat := (draws i, S i).

(** [int(random.random() * c)]. *)
Definition random_scaled (c : Z) (i : nat) : result (Z * nat) :=
  let '(x, i) := random_random i in
  v ← num_mul (NFloat x) (NInt c);
  n ← int_ v;
  Ok (n, i).

(** [a or random.random()], with [None] for an argument left out. *)
Definition or_random (a : option num) (i : nat) : num * nat :=
  match a with
  | Some x =>
      if truthy x then (x, i)
      else let '(y, i) := random_random i in (NFloat y, i)
  | None => let '(y, i) := random_random i in (NFloat y, i)
  end.

(** [r or int(random.random() * c)] for an integer argument. *)
Definition or_random_scaled (c : Z) (r : option Z) (i : nat)
  : result (Z * nat) :=
  match r with
  | Some x => if x =? 0 then random_scaled c i else Ok (x, i)
  | None => random_scaled c i
  end.

(** [Color.from_random]: [cls(int(random.random() * 0xFFFFFFFF))]. *)
Definition Color_from_random (i : nat) : result (Color * nat) :=
  '(n, i) ← random_scaled 0xFFFFFFFF i;
  Ok (mkColor n, i).

(** [Color.from_random_argb]; the arguments are evaluated from left to
    right. *)
Definition Color_from_random_argb (a : option num) (r g b : option Z)
    (i : nat) : result (Color * nat) :=
  let '(a, i) := or_random a i in
  '(r, i) ← or_random_scaled 255 r i;
  '(g, i) ← or_random_scaled 255 g i;
  '(b, i) ← or_random_scaled 255 b i;
  c ← Color_from_argb a r g b;
  Ok (c, i).

(** [Color.from_random_rgb]: [from_random_argb] with an alpha level of
    [1]. *)
Definition Color_from_random_rgb (r g b : option Z) (i : nat)
  : result (Color * nat) :=
  Color_from_random_argb (Some (NInt 1)) r g b i.

Variable colorsys : colorsys_module.

(** [Color.from_random_ahsl] and [Color.from_random_hsl]. *)
Definition Color_from_random_ahsl (a : option num) (h : option Z)
    (s l : option num) (i : nat) : result (Color * nat) :=
  let '(a, i) := or_random a i in
  '(h, i) ← or_random_scaled 360 h i;
  let '(s, i) := or_random s i in
  let '(l, i) := or_random l i in
  c ← Color_from_ahsl colorsys a (NInt h) s l;
  Ok (c, i).

Definition Color_from_random_hsl (h : option Z) (s l : option num) (i : nat)
  : result (Color * nat) :=
  Color_from_random_ahsl (Some (NInt 1)) h s l i.

(** [Color.from_random_ahsv] and [Color.from_random_hsv]. *)
Definition Color_from_random_ahsv (a : option num) (h : option Z)
    (s v : option num) (i : nat) : result (Color * nat) :=
  let '(a, i) := or_random a i in
  '(h, i) ← or_random_scaled 360 h i;
  let '(s, i) := or_random s i in
  let '(v, i) := or_random v i in
  c ← Color_from_ahsv colorsys a (NInt h) s v;
  Ok (c, i).

Definition Color_from_random_hsv (h : option Z) (s v : option num) (i : nat)
  : result (Color * nat) :=
  Color_from_random_ahsv (Some (NInt 1)) h s v i.
End random.

(** The floats 1.0, 360.0 and 4294967295.0. *)
Definition float_one : float := S754_finite false 4503599627370496 (-52).
Definition float_360 : float := S754_finite false 6333186975989760 (-44).
Definition float_0xFFFFFFFF : float :=
  S754_finite false 9007199252643840 (-21).

(** A generator for examples: it returns 0.5, 0.75, 0.5, 0.75, ... *)
Definition example_draws (i : nat) : float :=
  if Nat.even i then one_half else three_quarters.

(** What [random.random()] promises of each float it returns: a finite
    binary64 value [x] with [0 <= x < 1]. *)
Definition unit_draw (f : float) : Prop :=
  valid_binary fprec femax f = true
  /\ exists q, float_value f = Some q /\ (0 <= q)%Q /\ (q < 1)%Q.

(** A finite binary64 value [x] with [0 <= x <= 1]. *)
Definition unit_float (f : float) : Prop :=
  valid_binary fprec femax f = true
  /\ exists q, float_value f = Some q /\ (0 <= q)%Q /\ (q <= 1)%Q.

(** [x or y] takes [y] when the integer argument [x] was left out or is
    zero. *)
Definition falsy_int (r : option Z) : bool :=
  match r with
  | Some x => x =? 0
  | None => true
  end.

(** The check behind decoding and re-encoding one alpha byte [A]: the
    quotient [A / 255] is a valid float in [0, 1], it is 1 only for
    [A = 255], and [int((A / 255) * 255)] is [A] again. *)
Definition alpha_decode_ok (A : Z) : bool :=
  match int_truediv A 255 with
  | Ok (S754_zero false) => A =? 0
  | Ok (S754_finite false m e) =>
      valid_binary fprec femax (S754_finite false m e)
      && (e <? 0) && (Zpos m <=? 2 ^ (- e))
      && Bool.eqb (Zpos m =? 2 ^ (- e)) (A =? 255)
      && match int_of_float
                 (SFmul fprec femax (S754_finite false m e) float_255) with
         | Ok A' => A' =? A
         | Raise _ => false
         end
  | _ => false
  end.

(** [x or y] takes [y] when the number [x] was left out or is a zero. *)
Definition falsy_num (a : option num) : bool :=
  match a with
  | Some x => negb (truthy x)
  | None => true
  end.

(** A [colorsys] for examples: each of the four conversions returns the
    triple (0.5, 0.5, 0.5). *)
Definition colorsys_example : colorsys_module :=
  let grey := fun _ _ _ : num =>
    Ok (NFloat one_half, NFloat one_half, NFloat one_half) in
  {| rgb_to_hls := grey; hls_to_rgb := grey;
     rgb_to_hsv := grey; hsv_to_rgb := grey |}.

(** The check behind [int(round(x, 0))] for one integer [K]: the float
    made from [K] converts back to [K]. *)
Definition normalize_row_ok (K : Z) : bool :=
  match int_of_float (binary_normalize fprec femax K 0 false) with
  | Ok K' => K' =? K
  | Raise _ => false
  end.

(** The check behind [h /= 360] for one integer hue [h]: the quotient is a
    valid float in [0, 1]. *)
Definition hue_row_ok (h : Z) : bool :=
  match int_truediv h 360 with
  | Ok (S754_zero false) => h =? 0
  | Ok (S754_finite false m e) =>
      valid_binary fprec femax (S754_finite false m e)
      && (e <? 0) && (Zpos m <=? 2 ^ (- e))
  | _ => false
  end.

(** ** The [colorsys] module of the standard library

    color.py imports [colorsys] from the Python standard library.  The four
    conversions it calls are transcribed here from Lib/colorsys.py of
    CPython 3.11, over the same numbers as above, so that the colour code
    can be run through the library it is written against. *)

(** Comparison of a float with an integer, on their exact values; [None]
    when the float is a NaN. *)
Definition float_compare_int (f : float) (z : Z) : option comparison :=
  match f with
  | S754_nan => None
  | S754_infinity s => Some (if s then Lt else Gt)
  | S754_zero _ => Some (0 ?= z)
  | S754_finite s m e =>
      Some (if 0 <=? e then cond_Zopp s (Zpos m * 2 ^ e) ?= z
            else cond_Zopp s (Zpos m) ?= z * 2 ^ (- e))
  end.

(** Comparison of two numbers; an [int] and a [float] compare by value. *)
Definition num_compare (a b : num) : option comparison :=
  match a, b with
  | NInt x, NInt y => Some (x ?= y)
  | NFloat x, NFloat y => SFcompare x y
  | NFloat x, NInt y => float_compare_int x y
  | NInt x, NFloat y => option_map CompOpp (float_compare_int y x)
  end.

(** [a == b], [a < b], [a <= b] and [a > b]. *)
Definition num_eqb (a b : num) : bool :=
  match num_compare a b with
  | Some Eq => true
  | _ => false
  end.

Definition num_ltb (a b : num) : bool :=
  match num_compare a b with
  | Some Lt => true
  | _ => false
  end.

Definition num_leb (a b : num) : bool :=
  match num_compare a b with
  | Some Lt | Some Eq => true
  | _ => false
  end.

Definition num_gtb (a b : num) : bool :=
  match num_compare a b with
  | Some Gt => true
  | _ => false
  end.

(** The built-ins [max(r, g, b)] and [min(r, g, b)]: the first argument is
    kept until a later one is greater, or smaller. *)
Definition max3 (r g b : num) : num :=
  let m := r in
  let m := if num_gtb g m then g else m in
  if num_gtb b m then b else m.

Definition min3 (r g b : num) : num :=
  let m := r in
  let m := if num_ltb g m then g else m in
  if num_ltb b m then b else m.

(** The float literals of colorsys.py. *)
Definition float_zero : float := S754_zero false.
Definition float_two : float := binary_normalize fprec femax 2 0 false.
Definition float_three : float := binary_normalize fprec femax 3 0 false.
Definition float_four : float := binary_normalize fprec femax 4 0 false.
Definition float_six : float := binary_normalize fprec femax 6 0 false.

(** [x % 1.0] on a float: the C function [fmod(x, 1.0)], which is exact
    and has the sign of [x]; a negative remainder is moved up by [1.0], a
    zero remainder is [+0.0], and an infinity or a NaN gives a NaN. *)
Definition float_mod_one (f : float) : float :=
  match f with
  | S754_nan | S754_infinity _ => S754_nan
  | S754_zero _ => S754_zero false
  | S754_finite s m e =>
      if 0 <=? e then S754_zero false
      else
        let frac := Zpos m mod 2 ^ (- e) in
        if frac =? 0 then S754_zero false
        else
          let r := binary_normalize fprec femax (cond_Zopp s frac) e false in
          if s then SFadd fprec femax r float_one else r
  end.

(** [x % 1.0] on a number. *)
Definition num_mod_one (x : num) : result num :=
  f ← num_float x;
  Ok (NFloat (float_mod_one f)).

Module colorsys_py.

(** [ONE_THIRD = 1.0/3.0], [ONE_SIXTH = 1.0/6.0], [TWO_THIRD = 2.0/3.0]. *)
Definition ONE_THIRD : float := SFdiv fprec femax float_one float_three.
Definition ONE_SIXTH : float := SFdiv fprec femax float_one float_six.
Definition TWO_THIRD : float := SFdiv fprec femax float_two float_three.

(** [colorsys.rgb_to_hls]. *)
Definition rgb_to_hls (r g b : num) : result (num * num * num) :=
  let maxc := max3 r g b in
  let minc := min3 r g b in
  sumc ← num_add maxc minc;
  rangec ← num_sub maxc minc;
  l ← num_truediv sumc (NFloat float_two);
  if num_eqb minc maxc then Ok (NFloat float_zero, l, NFloat float_zero)
  else
    s ← (if num_leb l (NFloat one_half) then num_truediv rangec sumc
         else d ← num_sub (NFloat float_two) sumc; num_truediv rangec d);
    rc ← (x ← num_sub maxc r; num_truediv x rangec);
    gc ← (x ← num_sub maxc g; num_truediv x rangec);
    bc ← (x ← num_sub maxc b; num_truediv x rangec);
    h ← (if num_eqb r maxc then num_sub bc gc
         else if num_eqb g maxc then
           x ← num_add (NFloat float_two) rc; num_sub x bc
         else
           x ← num_add (NFloat float_four) gc; num_sub x rc);
    h ← (x ← num_truediv h (NFloat float_six); num_mod_one x);
    Ok (h, l, s).

(** [colorsys._v]. *)
Definition _v (m1 m2 hue : num) : result num :=
  hue ← num_mod_one hue;
  if num_ltb hue (NFloat ONE_SIXTH) then
    d ← num_sub m2 m1;
    x ← num_mul d hue;
    y ← num_mul x (NFloat float_six);
    num_add m1 y
  else if num_ltb hue (NFloat one_half) then Ok m2
  else if num_ltb hue (NFloat TWO_THIRD) then
    d ← num_sub m2 m1;
    k ← num_sub (NFloat TWO_THIRD) hue;
    x ← num_mul d k;
    y ← num_mul x (NFloat float_six);
    num_add m1 y
  else Ok m1.

(** [colorsys.hls_to_rgb]. *)
Definition hls_to_rgb (h l s : num) : result (num * num * num) :=
  if num_eqb s (NFloat float_zero) then Ok (l, l, l)
  else
    m2 ← (if num_leb l (NFloat one_half) then
            x ← num_add (NFloat float_one) s; num_mul l x
          else
            x ← num_add l s; y ← num_mul l s; num_sub x y);
    m1 ← (x ← num_mul (NFloat float_two) l; num_sub x m2);
    r ← (x ← num_add h (NFloat ONE_THIRD); _v m1 m2 x);
    g ← _v m1 m2 h;
    b ← (x ← num_sub h (NFloat ONE_THIRD); _v m1 m2 x);
    Ok (r, g, b).

(** [colorsys.rgb_to_hsv]. *)
Definition rgb_to_hsv (r g b : num) : result (num * num * num) :=
  let maxc := max3 r g b in
  let minc := min3 r g b in
  rangec ← num_sub maxc minc;
  let v := maxc in
  if num_eqb minc maxc then Ok (NFloat float_zero, NFloat float_zero, v)
  else
    s ← num_truediv rangec maxc;
    rc ← (x ← num_sub maxc r; num_truediv x rangec);
    gc ← (x ← num_sub maxc g; num_truediv x rangec);
    bc ← (x ← num_sub maxc b; num_truediv x rangec);
    h ← (if num_eqb r maxc then num_sub bc gc
         else if num_eqb g maxc then
           x ← num_add (NFloat float_two) rc; num_sub x bc
         else
           x ← num_add (NFloat float_four) gc; num_sub x rc);
    h ← (x ← num_truediv h (NFloat float_six); num_mod_one x);
    Ok (h, s, v).

(** [colorsys.hsv_to_rgb].  The function has no [return] after the six
    cases; falling through would hand [None] to the caller, whose
    unpacking raises [TypeError]. *)
Definition hsv_to_rgb (h s v : num) : result (num * num * num) :=
  if num_eqb s (NFloat float_zero) then Ok (v, v, v)
  else
    h6 ← num_mul h (NFloat float_six);
    i ← int_ h6;
    f ← num_sub h6 (NInt i);
    p ← (x ← num_sub (NFloat float_one) s; num_mul v x);
    q ← (x ← num_mul s f; y ← num_sub (NFloat float_one) x; num_mul v y);
    t ← (x ← num_sub (NFloat float_one) f; y ← num_mul s x;
         z ← num_sub (NFloat float_one) y; num_mul v z);
    let i := i mod 6 in
    if i =? 0 then Ok (v, t, p)
    else if i =? 1 then Ok (q, v, p)
    else if i =? 2 then Ok (p, v, t)
    else if i =? 3 then Ok (p, q, v)
    else if i =? 4 then Ok (t, p, v)
    else if i =? 5 then Ok (v, p, q)
    else Raise TypeError.

End colorsys_py.

(** The library as the colour code sees it. *)
Definition colorsys_stdlib : colorsys_module :=
  {| rgb_to_hls := colorsys_py.rgb_to_hls;
     hls_to_rgb := colorsys_py.hls_to_rgb;
     rgb_to_hsv := colorsys_py.rgb_to_hsv;
     hsv_to_rgb := colorsys_py.hsv_to_rgb |}.

(** [n] is what [int(round(x * 255, 0))] makes of the float [x], it lies in
    [0, 255], and it is the float product [x * 255] rounded to the nearest
    integer: at most one half away from it. *)
Definition rounded_channel (x : float) (n : Z) : Prop :=
  scale_channel (NFloat x) = Ok n
  /\ 0 <= n <= 255
  /\ exists (p : float) (q : Q),
       num_mul (NFloat x) (NInt 255) = Ok (NFloat p)
       /\ float_value p = Some q
       /\ (Qabs (inject_Z n - q) <= 1 # 2)%Q.
(** ** Properties of styles *)

Section style_facts.
Implicit Types x y z : Style.

Lemma Style_ext x y : values x = values y -> x = y.
Proof. destruct x, y; simpl; congruence. Qed.

Lemma values_reset : values Style_reset = {[0]}.
Proof. unfold Style_reset; simpl. set_solver. Qed.

Lemma Style_eq_true x y : Style_eq x (OStyle y) = true <-> x = y.
Proof.
  simpl. rewrite bool_decide_eq_true. split.
  - apply Style_ext.
  - congruence.
Qed.

Lemma Style_eq_reset x :
  Style_eq x (OStyle Style_reset) = true <-> values x = {[0]}.
Proof. unfold Style_eq. rewrite bool_decide_eq_true, values_reset. tauto. Qed.

Lemma values_init_elements (X Y : gset Z) :
  values (Style_init (elements X ++ elements Y)) = X ∪ Y.
Proof.
  simpl. apply set_eq; intros v.
  rewrite elem_of_list_to_set, elem_of_app, !elem_of_elements.
  set_solver.
Qed.

Lemma bitor_ok x y :
  values x <> {[0]} -> values y <> {[0]} ->
  bitor x (OStyle y) = Ok (mkStyle (values x ∪ values y)).
Proof.
  intros Hx Hy. unfold bitor, Style_or.
  destruct (Style_eq x (OStyle Style_reset)) eqn:Ex.
  { apply Style_eq_reset in Ex. contradiction. }
  destruct (Style_eq y (OStyle Style_reset)) eqn:Ey.
  { apply Style_eq_reset in Ey. contradiction. }
  simpl. f_equal. apply Style_ext. apply values_init_elements.
Qed.

Lemma bitor_raise x y :
  values x = {[0]} \/ values y = {[0]} ->
  bitor x (OStyle y) = Raise ArithmeticError.
Proof.
  intros H. unfold bitor, Style_or.
  destruct H as [H | H]; apply Style_eq_reset in H; rewrite H;
    [ | rewrite orb_true_r ]; reflexivity.
Qed.

Lemma bitor_cases x y :
  (values x = {[0]} \/ values y = {[0]}) /\
    bitor x (OStyle y) = Raise ArithmeticError
  \/ (values x <> {[0]} /\ values y <> {[0]}) /\
    bitor x (OStyle y) = Ok (mkStyle (values x ∪ values y)).
Proof.
  destruct (decide (values x = {[0]})) as [Hx | Hx].
  { left. split; [ | apply bitor_raise ]; auto. }
  destruct (decide (values y = {[0]})) as [Hy | Hy].
  { left. split; [ | apply bitor_raise ]; auto. }
  right. split; [ | apply bitor_ok ]; auto.
Qed.

(** A union is the singleton [{0}] only if one side already is. *)
Lemma union_not_reset (X Y : gset Z) :
  X <> {[0]} -> Y <> {[0]} -> X ∪ Y <> {[0]}.
Proof.
  intros HX HY HU.
  assert (forall v, v ∈ X ∪ Y <-> v = 0) as HU'.
  { intros v. rewrite HU. apply elem_of_singleton. }
  destruct (decide (0 ∈ X)) as [H0 | H0].
  - apply HX. apply set_eq. intros v. rewrite elem_of_singleton. split.
    + intros Hv. apply HU'. apply elem_of_union. auto.
    + intros ->. exact H0.
  - apply HY. apply set_eq. intros v. rewrite elem_of_singleton. split.
    + intros Hv. apply HU'. apply elem_of_union. auto.
    + intros ->. pose proof (proj2 (HU' 0) eq_refl) as H.
      apply elem_of_union in H. destruct H as [H | H];
        [ contradiction | exact H ].
Qed.
End style_facts.

Lemma StronglySorted_le_lt (l : list Z) :
  StronglySorted Z.le l -> NoDup l -> StronglySorted Z.lt l.
Proof.
  induction 1 as [ | a l Hs IH Hall ]; intros Hnd; constructor.
  - apply IH. apply NoDup_cons in Hnd. apply Hnd.
  - apply NoDup_cons in Hnd as [Hnotin _].
    rewrite Forall_forall in *. intros v Hv.
    specialize (Hall v Hv).
    assert (a <> v) by (intros ->; apply Hnotin; exact Hv).
    lia.
Qed.

(** [sorted] on a duplicate-free list: strictly ascending, same elements. *)
Lemma sorted_strict (xs : list Z) :
  NoDup xs -> StronglySorted Z.lt (sorted xs) /\ sorted xs ≡ₚ xs.
Proof.
  intros Hnd. unfold sorted.
  pose proof (merge_sort_Permutation Z.le xs) as Hp.
  split; [ | exact Hp ].
  apply StronglySorted_le_lt.
  - apply StronglySorted_merge_sort; apply _.
  - rewrite Hp. exact Hnd.
Qed.

Example str_examples :
  str 0 = "0"%string /\ str 14 = "14"%string /\ str (-5) = "-5"%string.
Proof. repeat split; reflexivity. Qed.

Example build_reset_color :
  Style_build Style_reset_color = String ESC "[39;49m".
Proof. vm_compute. reflexivity. Qed.


(** *** Raising on [reset] *)

(** C3.  For all styles [x] and [y], [x | y] raises [ArithmeticError]
    exactly when [x] or [y] equals [Style.reset], the style whose values
    are [{0}].  Evaluated on style objects in a store, [x | y] leaves both
    operands as they were, and when it raises the store is unchanged
    altogether. *)
Theorem Style_or_raises_iff_reset (x y : Style) :
  values Style_reset = {[0]}
  /\ (bitor x (OStyle y) = Raise ArithmeticError
      <-> Style_eq x (OStyle Style_reset) = true
          \/ Style_eq y (OStyle Style_reset) = true)
  /\ (forall e, bitor x (OStyle y) = Raise e -> e = ArithmeticError)
  /\ forall (st : gmap nat Style) (lx ly : nat),
       st !! lx = Some x -> st !! ly = Some y ->
       exists r st',
         Style_or_obj lx ly st = Some (r, st')
         /\ st' !! lx = Some x /\ st' !! ly = Some y
         /\ (forall e, r = Raise e -> st' = st).
Proof.
  split; [ apply values_reset | ].
  rewrite !Style_eq_reset.
  destruct (bitor_cases x y) as [[Hr Hb] | [[Hx Hy] Hb]].
  - split; [ tauto | ]. split.
    { intros e He. congruence. }
    intros st lx ly Hlx Hly. unfold Style_or_obj.
    rewrite Hlx, Hly. simpl. rewrite Hb.
    exists (Raise ArithmeticError), st. auto.
  - split.
    { split; [ rewrite Hb; discriminate | tauto ]. }
    split.
    { intros e He. congruence. }
    intros st lx ly Hlx Hly. unfold Style_or_obj.
    rewrite Hlx, Hly. simpl. rewrite Hb. unfold Style_alloc.
    set (l := fresh (dom st)).
    assert (st !! l = None) as Hl.
    { apply not_elem_of_dom. apply is_fresh. }
    exists (Ok l), (<[l := mkStyle (values x ∪ values y)]> st).
    split; [ reflexivity | ].
    split; [ | split ].
    + rewrite lookup_insert_ne; [ exact Hlx | congruence ].
    + rewrite lookup_insert_ne; [ exact Hly | congruence ].
    + discriminate.
Qed.

Lemma Style_or_raises_iff_reset_witness :
  exists r st',
    Style_or_obj 0%nat 1%nat (<[0%nat := Style_init [1]]> (<[1%nat := Style_reset]> ∅))
      = Some (r, st')
    /\ st' !! 0%nat = Some (Style_init [1])
    /\ st' !! 1%nat = Some Style_reset
    /\ (forall e, r = Raise e ->
        st' = <[0%nat := Style_init [1]]> (<[1%nat := Style_reset]> ∅)).
Proof.
  apply (proj2 (proj2 (proj2
           (Style_or_raises_iff_reset (Style_init [1]) Style_reset)))).
  - reflexivity.
  - reflexivity.
Defined.

(** *** Building the escape sequence *)

Lemma Style_build_codes (s : Style) :
  exists codes : list Z,
    Style_build s
      = String ESC ("[" ++ String.concat ";" (map str codes) ++ "m")%string
    /\ StronglySorted Z.lt codes
    /\ forall v, v ∈ codes <-> v ∈ values s.
Proof.
  exists (sorted (elements (values s))).
  destruct (sorted_strict (elements (values s))) as [Hs Hp].
  { apply NoDup_elements. }
  split; [ reflexivity | ]. split; [ exact Hs | ].
  intros v. rewrite Hp. apply elem_of_elements.
Qed.

(** C4.  [s.build()] is ESC, an opening bracket, the codes and [m], where
    the codes are the integer values of [s] in strictly ascending order,
    written in decimal and joined by semicolons.  For non-reset [x] and [y]
    the values of [x | y] are the union of the values of [x] and of [y].
    [Style(1) | Style(4)] has values [{1, 4}] and builds ESC[1;4m;
    [Style(1) == Style(1)] holds and [Style(1) == Style(2)] does not. *)
Theorem Style_build_union_examples :
  (forall s : Style, exists codes : list Z,
      Style_build s
        = String ESC ("[" ++ String.concat ";" (map str codes) ++ "m")%string
      /\ StronglySorted Z.lt codes
      /\ forall v, v ∈ codes <-> v ∈ values s)
  /\ (forall x y : Style,
        Style_eq x (OStyle Style_reset) = false ->
        Style_eq y (OStyle Style_reset) = false ->
        exists z, bitor x (OStyle y) = Ok z
                  /\ values z = values x ∪ values y)
  /\ (exists z, bitor (Style_init [1]) (OStyle (Style_init [4])) = Ok z
                /\ values z = {[1; 4]}
                /\ Style_build z = String ESC "[1;4m")
  /\ Style_eq (Style_init [1]) (OStyle (Style_init [1])) = true
  /\ Style_eq (Style_init [1]) (OStyle (Style_init [2])) = false.
Proof.
  split; [ exact Style_build_codes | ].
  split.
  { intros x y Hx Hy.
    exists (mkStyle (values x ∪ values y)). split; [ | reflexivity ].
    apply bitor_ok.
    - intros H. apply Style_eq_reset in H. congruence.
    - intros H. apply Style_eq_reset in H. congruence. }
  split.
  { exists (mkStyle ({[1]} ∪ {[4]})). split; [ | split ].
    - vm_compute. reflexivity.
    - reflexivity.
    - vm_compute. reflexivity. }
  split.
  - apply Style_eq_true. reflexivity.
  - vm_compute. reflexivity.
Qed.

Lemma Style_build_union_examples_witness :
  exists z, bitor (Style_init [1; 22]) (OStyle (Style_init [4])) = Ok z
            /\ values z = values (Style_init [1; 22]) ∪ values (Style_init [4]).
Proof.
  apply (proj1 (proj2 Style_build_union_examples)).
  - vm_compute. reflexivity.
  - vm_compute. reflexivity.
Defined.

(** *** Algebra of [|] *)

(** C9.  On styles whose values are not [{0}], [|] is commutative,
    idempotent and associative up to [==]; and the constructor collapses
    duplicates, [Style(1, 1) == Style(1)]. *)
Theorem Style_or_algebra (x y z : Style)
  (Hx : Style_eq x (OStyle Style_reset) = false)
  (Hy : Style_eq y (OStyle Style_reset) = false)
  (Hz : Style_eq z (OStyle Style_reset) = false) :
  (exists a b, bitor x (OStyle y) = Ok a /\ bitor y (OStyle x) = Ok b
               /\ Style_eq a (OStyle b) = true)
  /\ (exists a, bitor x (OStyle x) = Ok a /\ Style_eq a (OStyle x) = true)
  /\ (exists a b,
        (xy ← bitor x (OStyle y); bitor xy (OStyle z)) = Ok a
        /\ (yz ← bitor y (OStyle z); bitor x (OStyle yz)) = Ok b
        /\ Style_eq a (OStyle b) = true)
  /\ Style_eq (Style_init [1; 1]) (OStyle (Style_init [1])) = true.
Proof.
  assert (forall s, Style_eq s (OStyle Style_reset) = false ->
                    values s <> {[0]}) as Hne.
  { intros s Hs H. apply Style_eq_reset in H. congruence. }
  apply Hne in Hx, Hy, Hz.
  split; [ | split; [ | split ] ].
  - exists (mkStyle (values x ∪ values y)), (mkStyle (values y ∪ values x)).
    rewrite !bitor_ok by assumption.
    split; [ reflexivity | ]. split; [ reflexivity | ].
    apply Style_eq_true. apply Style_ext. apply (union_comm_L (C := gset Z)).
  - exists (mkStyle (values x ∪ values x)).
    rewrite bitor_ok by assumption.
    split; [ reflexivity | ].
    apply Style_eq_true. apply Style_ext. apply (union_idemp_L (C := gset Z)).
  - exists (mkStyle ((values x ∪ values y) ∪ values z)),
           (mkStyle (values x ∪ (values y ∪ values z))).
    rewrite (bitor_ok x y), (bitor_ok y z) by assumption.
    unfold mbind, result_bind.
    rewrite (bitor_ok (mkStyle (values x ∪ values y)) z)
      by (try apply union_not_reset; assumption).
    rewrite (bitor_ok x (mkStyle (values y ∪ values z)))
      by (try apply union_not_reset; assumption).
    split; [ reflexivity | ]. split; [ reflexivity | ].
    apply Style_eq_true. apply Style_ext. symmetry.
    apply (union_assoc_L (C := gset Z)).
  - vm_compute. reflexivity.
Qed.

Lemma Style_or_algebra_witness :
  exists a b,
    (xy ← bitor (Style_init [1]) (OStyle (Style_init [4]));
     bitor xy (OStyle Style_reset_color)) = Ok a
    /\ (yz ← bitor (Style_init [4]) (OStyle Style_reset_color);
        bitor (Style_init [1]) (OStyle yz)) = Ok b
    /\ Style_eq a (OStyle b) = true.
Proof.
  apply (proj1 (proj2 (proj2
           (Style_or_algebra (Style_init [1]) (Style_init [4]) Style_reset_color
              eq_refl eq_refl eq_refl)))).
Defined.

(** ** Rounding in binary64

    What [SpecFloat] computes when it rounds an exact positive quantity
    [M * 2^E] to 53 bits: the shift, the round-to-nearest-even step and the
    renormalisation, in terms of integer division. *)

(** [iter_pos] iterates [Pos.to_nat p] times. *)
Lemma iter_pos_nat {A : Type} (f : A -> A) (p : positive) (x : A) :
  SpecFloat.iter_pos f p x = Nat.iter (Pos.to_nat p) f x.
Proof.
  revert x. induction p as [p IH | p IH | ]; intros x; cbn [SpecFloat.iter_pos].
  - rewrite !IH. rewrite Pos2Nat.inj_xI.
    replace (S (2 * Pos.to_nat p))%nat
      with (Pos.to_nat p + (Pos.to_nat p + 1))%nat by lia.
    rewrite !Nat.iter_add. reflexivity.
  - rewrite !IH. rewrite Pos2Nat.inj_xO.
    replace (2 * Pos.to_nat p)%nat
      with (Pos.to_nat p + Pos.to_nat p)%nat by lia.
    rewrite Nat.iter_add. reflexivity.
  - reflexivity.
Qed.

(** One shift step halves the significand, remembers the bit shifted out
    and accumulates the sticky bit. *)
Lemma shr_1_nonneg (m : Z) (r s : bool) :
  0 <= m ->
  shr_1 (Build_shr_record m r s) = Build_shr_record (m / 2) (Z.odd m) (r || s).
Proof.
  intros Hm. destruct m as [ | p | p ]; [ reflexivity | | lia ].
  destruct p as [p | p | ]; simpl.
  - f_equal. rewrite Pos2Z.inj_xI. Z.div_mod_to_equations. lia.
  - f_equal. rewrite Pos2Z.inj_xO. Z.div_mod_to_equations. lia.
  - reflexivity.
Qed.

(** After [k + 1] steps: the quotient by [2^(k+1)], the last bit shifted
    out, and whether anything below it was set. *)
Lemma iter_shr_1 (M : Z) (k : nat) :
  0 <= M ->
  Nat.iter (S k) shr_1 (Build_shr_record M false false)
  = Build_shr_record (M / 2 ^ Z.of_nat (S k))
      (Z.odd (M / 2 ^ Z.of_nat k))
      (negb (M mod 2 ^ Z.of_nat k =? 0)).
Proof.
  intros HM. induction k as [ | k IH ].
  - cbn [Nat.iter nat_rect]. rewrite shr_1_nonneg by exact HM.
    change (2 ^ Z.of_nat 0) with 1. change (2 ^ Z.of_nat 1) with 2.
    rewrite Z.div_1_r, Z.mod_1_r. reflexivity.
  - rewrite Nat.iter_succ, IH.
    assert (0 < 2 ^ Z.of_nat k) as Hk by (apply Z.pow_pos_nonneg; lia).
    assert (2 ^ Z.of_nat (S k) = 2 * 2 ^ Z.of_nat k) as E1.
    { rewrite Nat2Z.inj_succ, Z.pow_succ_r by lia. reflexivity. }
    assert (2 ^ Z.of_nat (S (S k)) = 2 ^ Z.of_nat (S k) * 2) as E2.
    { rewrite (Nat2Z.inj_succ (S k)), Z.pow_succ_r by lia. lia. }
    rewrite shr_1_nonneg by (apply Z.div_pos; lia).
    rewrite E2, <- Z.div_div by lia.
    f_equal.
    rewrite E1. set (w := 2 ^ Z.of_nat k) in *.
    rewrite (Z.mul_comm 2 w), Z.rem_mul_r by lia.
    pose proof (Z.mod_pos_bound M w Hk) as Hb.
    rewrite Zmod_odd.
    destruct (Z.odd (M / w)); simpl.
    + symmetry. apply negb_true_iff, Z.eqb_neq. lia.
    + rewrite Z.mul_0_r, Z.add_0_r. reflexivity.
Qed.

Lemma shr_exact (M e : Z) (p : positive) :
  0 <= M ->
  shr (shr_record_of_loc M loc_Exact) e (Zpos p)
  = (Build_shr_record (M / 2 ^ Zpos p) (Z.odd (M / 2 ^ (Zpos p - 1)))
       (negb (M mod 2 ^ (Zpos p - 1) =? 0)),
     e + Zpos p).
Proof.
  intros HM. unfold shr, shr_record_of_loc. rewrite iter_pos_nat.
  destruct (Pos2Nat.is_succ p) as [k Hk]. rewrite Hk.
  rewrite iter_shr_1 by exact HM.
  assert (Zpos p = Z.of_nat (S k)) as -> by lia.
  replace (Z.of_nat (S k) - 1) with (Z.of_nat k) by lia.
  reflexivity.
Qed.

(** Rounding the shifted significand to nearest, ties to even, is off by
    at most half a unit of the last place kept. *)
Lemma round_nearest_even_shifted (M n : Z) :
  0 <= M -> 1 <= n ->
  let q := M / 2 ^ n in
  let N := round_nearest_even q
             (loc_of_shr_record
                (Build_shr_record q (Z.odd (M / 2 ^ (n - 1)))
                   (negb (M mod 2 ^ (n - 1) =? 0)))) in
  q <= N <= q + 1 /\ - 2 ^ n <= 2 * (N * 2 ^ n - M) <= 2 ^ n.
Proof.
  intros HM Hn q N. subst N q.
  assert (0 < 2 ^ (n - 1)) as Hw by (apply Z.pow_pos_nonneg; lia).
  assert (2 ^ n = 2 ^ (n - 1) * 2) as E.
  { replace n with (Z.succ (n - 1)) at 1 by lia.
    rewrite Z.pow_succ_r by lia. lia. }
  rewrite E. set (w := 2 ^ (n - 1)) in *.
  pose proof (Z.rem_mul_r M w 2 ltac:(lia) ltac:(lia)) as Hmod.
  pose proof (Z.div_mod M (w * 2) ltac:(lia)) as Hdm.
  pose proof (Z.mod_pos_bound M w Hw) as Hb.
  rewrite Zmod_odd in Hmod.
  destruct (Z.odd (M / w)); destruct (M mod w =? 0) eqn:Em;
    [ apply Z.eqb_eq in Em | apply Z.eqb_neq in Em
    | apply Z.eqb_eq in Em | apply Z.eqb_neq in Em ];
    cbn [round_nearest_even loc_of_shr_record negb];
    try destruct (Z.even (M / (w * 2))); nia.
Qed.

(** [digits2_pos] is the bit length. *)
Lemma digits2_pos_bounds (p : positive) :
  2 ^ (Zpos (digits2_pos p) - 1) <= Zpos p < 2 ^ Zpos (digits2_pos p).
Proof.
  induction p as [p IH | p IH | ]; cbn [digits2_pos].
  - rewrite Pos2Z.inj_succ. change (Zpos p~1) with (2 * Zpos p + 1).
    replace (Z.succ (Zpos (digits2_pos p)) - 1)
      with (Z.succ (Zpos (digits2_pos p) - 1)) by lia.
    rewrite !Z.pow_succ_r by lia.
    set (lo := 2 ^ (Zpos (digits2_pos p) - 1)) in *.
    set (hi := 2 ^ Zpos (digits2_pos p)) in *. clearbody lo hi. lia.
  - rewrite Pos2Z.inj_succ. change (Zpos p~0) with (2 * Zpos p).
    replace (Z.succ (Zpos (digits2_pos p)) - 1)
      with (Z.succ (Zpos (digits2_pos p) - 1)) by lia.
    rewrite !Z.pow_succ_r by lia.
    set (lo := 2 ^ (Zpos (digits2_pos p) - 1)) in *.
    set (hi := 2 ^ Zpos (digits2_pos p)) in *. clearbody lo hi. lia.
  - simpl. lia.
Qed.

Lemma Zdigits2_bounds (M : Z) :
  0 < M -> 0 < Zdigits2 M /\ 2 ^ (Zdigits2 M - 1) <= M < 2 ^ Zdigits2 M.
Proof.
  destruct M as [ | p | p ]; try lia. intros _. simpl Zdigits2.
  split; [ lia | apply digits2_pos_bounds ].
Qed.

(** The exponent of the binary64 format for a number of [x] digits. *)
Lemma fexp_eq (x : Z) : fexp 53 1024 x = Z.max (x - 53) (-1074).
Proof. reflexivity. Qed.

Lemma shr_nonpos (mrs : shr_record) (e n : Z) :
  n <= 0 -> shr mrs e n = (mrs, e).
Proof. destruct n; [ reflexivity | lia | reflexivity ]. Qed.

(** Rounding [M * 2^E] when at least one bit is shifted out: the result
    is [N * 2^E1] with [N] the nearest integer to [M / 2^(E1 - E)], written
    as a zero, or renormalised when [N] reaches [2^53]. *)
Lemma binary_round_aux_exact (M E : Z) :
  0 < M ->
  let E1 := fexp 53 1024 (Zdigits2 M + E) in
  1 <= E1 - E -> E1 < 971 ->
  exists N,
    M / 2 ^ (E1 - E) <= N <= M / 2 ^ (E1 - E) + 1
    /\ - 2 ^ (E1 - E) <= 2 * (N * 2 ^ (E1 - E) - M) <= 2 ^ (E1 - E)
    /\ N <= 2 ^ 53
    /\ binary_round_aux 53 1024 false M E loc_Exact
       = if N =? 0 then S754_zero false
         else if N =? 2 ^ 53
              then S754_finite false (Z.to_pos (2 ^ 52)) (E1 + 1)
         else S754_finite false (Z.to_pos N) E1.
Proof.
  intros HM E1 Hn HE1.
  destruct (Zdigits2_bounds M HM) as (Hd & Hlo & Hhi).
  assert (-1074 <= E1 /\ Zdigits2 M + E - 53 <= E1) as [HE1lo HE1d].
  { unfold E1. rewrite fexp_eq. lia. }
  unfold binary_round_aux, shr_fexp. fold E1.
  destruct (E1 - E) as [ | p | p ] eqn:En; try lia.
  rewrite shr_exact by lia. cbn [shr_m].
  destruct (round_nearest_even_shifted M (Zpos p) ltac:(lia) ltac:(lia))
    as [HN Herr].
  set (N := round_nearest_even _ _) in *. clearbody N.
  (* the quotient has at most 53 digits *)
  assert (M / 2 ^ Zpos p < 2 ^ 53) as Hq.
  { apply Z.div_lt_upper_bound; [ apply Z.pow_pos_nonneg; lia | ].
    rewrite <- Z.pow_add_r by lia.
    eapply Z.lt_le_trans; [ exact Hhi | ].
    apply Z.pow_le_mono_r; lia. }
  assert (0 <= M / 2 ^ Zpos p) as Hq0.
  { apply Z.div_pos; [ lia | apply Z.pow_pos_nonneg; lia ]. }
  exists N. split; [ exact HN | ]. split; [ exact Herr | ].
  split; [ lia | ].
  replace (E + Zpos p) with E1 by lia.
  destruct (N =? 0) eqn:E0.
  { apply Z.eqb_eq in E0. subst N. cbn [Zdigits2 shr_record_of_loc].
    rewrite shr_nonpos by (rewrite fexp_eq; lia). reflexivity. }
  apply Z.eqb_neq in E0.
  destruct (N =? 2 ^ 53) eqn:E53.
  { apply Z.eqb_eq in E53. subst N.
    change (Zdigits2 (2 ^ 53)) with 54.
    assert (fexp 53 1024 (54 + E1) - E1 = 1) as -> by (rewrite fexp_eq; lia).
    cbn [shr shr_record_of_loc SpecFloat.iter_pos].
    change (shr_1 {| shr_m := 2 ^ 53; shr_r := false; shr_s := false |})
      with {| shr_m := 2 ^ 52; shr_r := false; shr_s := false |}.
    cbn [shr_m].
    change (2 ^ 52) with (Zpos (Z.to_pos (2 ^ 52))).
    cbv beta iota.
    destruct (Z.leb_spec (E1 + 1) (1024 - 53)); [ reflexivity | lia ]. }
  apply Z.eqb_neq in E53.
  assert (0 < N < 2 ^ 53) as HNr by lia.
  destruct (Zdigits2_bounds N ltac:(lia)) as (HdN & HloN & HhiN).
  assert (Zdigits2 N <= 53) as HdN53.
  { destruct (Z.le_gt_cases (Zdigits2 N) 53) as [ | Hgt ]; [ assumption | ].
    assert (2 ^ 53 <= 2 ^ (Zdigits2 N - 1)) by (apply Z.pow_le_mono_r; lia).
    lia. }
  rewrite shr_nonpos by (rewrite fexp_eq; lia).
  cbn [shr_record_of_loc shr_m].
  destruct N as [ | pN | pN ]; try lia.
  destruct (Z.leb_spec E1 (1024 - 53)); [ reflexivity | lia ].
Qed.

(** A valid float is normal, with 53 digits, or subnormal, with the least
    exponent. *)
Lemma canonical_cases (m : positive) (e : Z) :
  bounded 53 1024 m e = true ->
  (Zpos (digits2_pos m) = 53 /\ -1074 <= e)
  \/ (e = -1074 /\ Zpos (digits2_pos m) <= 53).
Proof.
  unfold bounded, canonical_mantissa. rewrite andb_true_iff, Z.eqb_eq, fexp_eq.
  intros [Hc _]. lia.
Qed.

Lemma pow2_split (a b : Z) : 0 <= a -> 0 <= b -> 2 ^ (a + b) = 2 ^ a * 2 ^ b.
Proof. intros. apply Z.pow_add_r; assumption. Qed.

(** The product of a float in [0, 1] with 255, truncated. *)
Lemma mul255_truncated (m : positive) (e : Z) :
  bounded 53 1024 m e = true -> e < 0 -> Zpos m <= 2 ^ (- e) ->
  exists A N E1 h,
    int_of_float (SFmul fprec femax (S754_finite false m e) float_255) = Ok A
    /\ E1 <= -45 /\ 0 < h /\ 0 <= N <= 2 ^ 53
    /\ 2 ^ (45 - e) = 2 * h * 2 ^ (- E1)
    /\ A = N / 2 ^ (- E1)
    /\ - h <= N * (2 * h) - Zpos m * 8972014882652160 <= h
    /\ (N = 2 ^ 53 -> Zpos m * 8972014882652160 < N * (2 * h)).
Proof.
  intros Hb He Hle.
  set (M := Zpos m * 8972014882652160).
  set (E := e + -45).
  assert (0 < M) as HM by (unfold M; lia).
  destruct (Zdigits2_bounds M HM) as (HdM & HloM & HhiM).
  destruct (digits2_pos_bounds m) as [Hlom Hhim].
  set (dm := Zpos (digits2_pos m)) in *.
  assert (0 < 2 ^ (- e)) as Hpe by (apply Z.pow_pos_nonneg; lia).
  (* digits of the product *)
  assert (dm + 52 <= Zdigits2 M) as Hd1.
  { assert (2 ^ (dm - 1 + 52) <= M) as Hx.
    { rewrite pow2_split by lia. unfold M.
      change (2 ^ 52) with 4503599627370496.
      set (x := 2 ^ (dm - 1)) in *. clearbody x. clear - Hlom. lia. }
    destruct (Z.le_gt_cases (dm + 52) (Zdigits2 M)) as [ | Hgt ];
      [ assumption | ].
    assert (2 ^ Zdigits2 M <= 2 ^ (dm - 1 + 52))
      by (apply Z.pow_le_mono_r; lia).
    lia. }
  assert (Zdigits2 M <= 53 - e) as Hd2.
  { assert (M < 2 ^ (53 - e)) as Hx.
    { replace (53 - e) with (- e + 53) by lia. rewrite pow2_split by lia.
      unfold M. change (2 ^ 53) with 9007199254740992.
      set (x := 2 ^ (- e)) in *. clearbody x. clear - Hle Hpe. lia. }
    destruct (Z.le_gt_cases (Zdigits2 M) (53 - e)) as [ | Hgt ];
      [ assumption | ].
    assert (2 ^ (53 - e) <= 2 ^ (Zdigits2 M - 1))
      by (apply Z.pow_le_mono_r; lia).
    lia. }
  set (E1 := fexp 53 1024 (Zdigits2 M + E)).
  assert (-1074 <= E1 /\ Zdigits2 M + E - 53 <= E1
          /\ (E1 = -1074 \/ E1 = Zdigits2 M + E - 53)) as (HE1a & HE1b & HE1c).
  { unfold E1. rewrite fexp_eq. lia. }
  assert (E1 <= -45) as HE1 by (unfold E in *; lia).
  assert (45 <= E1 - E) as Hn.
  { destruct (canonical_cases m e Hb) as [[Hdm He'] | [He' Hdm]];
      fold dm in Hdm; unfold E in *; lia. }
  destruct (binary_round_aux_exact M E HM
              ltac:(fold E1; lia) ltac:(fold E1; lia))
    as (N & HN & Herr & HN53 & Hres).
  fold E1 in HN, Herr, Hres.
  set (n := E1 - E) in *.
  assert (0 < 2 ^ (n - 1)) as Hh by (apply Z.pow_pos_nonneg; lia).
  assert (2 ^ n = 2 * 2 ^ (n - 1)) as E2n.
  { replace n with (Z.succ (n - 1)) at 1 by lia.
    apply Z.pow_succ_r. lia. }
  assert (0 <= M / 2 ^ n) as Hq0.
  { apply Z.div_pos; [ lia | apply Z.pow_pos_nonneg; lia ]. }
  exists (N / 2 ^ (- E1)), N, E1, (2 ^ (n - 1)).
  split.
  { unfold fprec, femax. cbn [SFmul float_255 xorb]. fold M. fold E.
    change (Z.pos (m * 8972014882652160)) with M.
    rewrite Hres.
    destruct (N =? 0) eqn:E0.
    { apply Z.eqb_eq in E0. subst N. rewrite Z.div_0_l by lia. reflexivity. }
    destruct (N =? 2 ^ 53) eqn:E53.
    { apply Z.eqb_eq in E53. subst N. cbn [int_of_float cond_Zopp].
      destruct (Z.leb_spec 0 (E1 + 1)); [ lia | ].
      f_equal. change (Zpos (Z.to_pos (2 ^ 52))) with (2 ^ 52).
      replace (- E1) with (Z.succ (- (E1 + 1))) by lia.
      rewrite Z.pow_succ_r by lia.
      change (2 ^ 53) with (2 * 2 ^ 52).
      rewrite Z.div_mul_cancel_l; [ reflexivity | | lia ].
      apply Z.pow_nonzero; lia. }
    cbn [int_of_float cond_Zopp].
    destruct (Z.leb_spec 0 E1); [ lia | ].
    rewrite Z2Pos.id; [ reflexivity | ].
    apply Z.eqb_neq in E0. lia. }
  split; [ exact HE1 | ]. split; [ exact Hh | ].
  split; [ lia | ].
  split.
  { rewrite <- E2n. rewrite <- Z.pow_add_r by lia. f_equal. unfold n, E. lia. }
  split; [ reflexivity | ].
  split.
  { rewrite <- E2n. fold M. lia. }
  intros HN2. rewrite <- E2n. fold M.
  assert (M / 2 ^ n < 2 ^ 53) as Hq.
  { apply Z.div_lt_upper_bound; [ apply Z.pow_pos_nonneg; lia | ].
    rewrite <- Z.pow_add_r by lia.
    eapply Z.lt_le_trans; [ exact HhiM | ].
    apply Z.pow_le_mono_r; unfold n, E in *; lia. }
  assert (N = M / 2 ^ n + 1) as -> by lia.
  pose proof (Z.div_mod M (2 ^ n) ltac:(lia)) as Hdm'.
  pose proof (Z.mod_pos_bound M (2 ^ n) ltac:(lia)) as Hmb.
  lia.
Qed.

(** ** Properties of colours *)

Section color_facts.
Implicit Types a r g b v : Z.

Lemma land_255 v : Z.land v 255 = v mod 256.
Proof. apply (Z.land_ones v 8). lia. Qed.

(** The packed value as a sum of scaled channels. *)
Lemma pack_sum a r g b :
  (a ≪ 24) + (r ≪ 16) + (g ≪ 8) + b
  = a * 16777216 + r * 65536 + g * 256 + b.
Proof. rewrite !Z.shiftl_mul_pow2 by lia. reflexivity. Qed.

Lemma Color_from_rgb_value r g b :
  Color_from_rgb r g b
  = Ok (mkColor (255 * 16777216 + r * 65536 + g * 256 + b)).
Proof.
  unfold Color_from_rgb, Color_from_argb. simpl.
  rewrite <- pack_sum. reflexivity.
Qed.

Lemma channels_of_sum a r g b :
  0 <= r <= 255 -> 0 <= g <= 255 -> 0 <= b <= 255 ->
  let c := mkColor (a * 16777216 + r * 65536 + g * 256 + b) in
  Color_r c = r /\ Color_g c = g /\ Color_b c = b
  /\ Z.land (value c ≫ 24) 255 = a mod 256.
Proof.
  intros Hr Hg Hb c. unfold Color_r, Color_g, Color_b, c. simpl.
  rewrite !land_255, !Z.shiftr_div_pow2 by lia.
  change (2 ^ 16) with 65536. change (2 ^ 8) with 256.
  change (2 ^ 24) with 16777216.
  repeat split; Z.div_mod_to_equations; lia.
Qed.

Lemma channel_range v :
  0 <= Color_r (mkColor v) <= 255
  /\ 0 <= Color_g (mkColor v) <= 255
  /\ 0 <= Color_b (mkColor v) <= 255.
Proof.
  unfold Color_r, Color_g, Color_b. simpl. rewrite !land_255.
  repeat split; Z.div_mod_to_equations; lia.
Qed.

(** An opaque 32-bit colour is rebuilt from its three channels. *)
Lemma opaque_repack (c : Color) :
  value c ≫ 24 = 255 ->
  255 * 16777216 + Color_r c * 65536 + Color_g c * 256 + Color_b c
  = value c.
Proof.
  unfold Color_r, Color_g, Color_b.
  rewrite !land_255, !Z.shiftr_div_pow2 by lia.
  change (2 ^ 16) with 65536. change (2 ^ 8) with 256.
  change (2 ^ 24) with 16777216.
  intros H. Z.div_mod_to_equations. lia.
Qed.

(** What the RGB method packs always has alpha byte 255. *)
Lemma repack_alpha r g b :
  0 <= r <= 255 -> 0 <= g <= 255 -> 0 <= b <= 255 ->
  (255 * 16777216 + r * 65536 + g * 256 + b) ≫ 24 = 255.
Proof.
  intros Hr Hg Hb. rewrite Z.shiftr_div_pow2 by lia.
  change (2 ^ 24) with 16777216. Z.div_mod_to_equations. lia.
Qed.
End color_facts.

Section interpolate_rgb_facts.
Variable interpolate : num -> num -> num -> result num.
Variable colorsys : colorsys_module.

Lemma Color_interpolate_default c1 c2 p :
  Color_interpolate interpolate colorsys c1 c2 p None
  = Color_interpolate interpolate colorsys c1 c2 p (Some rgb).
Proof. reflexivity. Qed.

Lemma Color_interpolate_rgb_value c1 c2 p r g b :
  interpolate_int interpolate (NInt (Color_r c1)) (NInt (Color_r c2)) p = Ok r ->
  interpolate_int interpolate (NInt (Color_g c1)) (NInt (Color_g c2)) p = Ok g ->
  interpolate_int interpolate (NInt (Color_b c1)) (NInt (Color_b c2)) p = Ok b ->
  Color_interpolate interpolate colorsys c1 c2 p (Some rgb)
  = Ok (mkColor (255 * 16777216 + r * 65536 + g * 256 + b)).
Proof.
  intros Hr Hg Hb. unfold Color_interpolate. simpl.
  unfold Color__interpolate_rgb. rewrite Hr, Hg, Hb. simpl.
  apply Color_from_rgb_value.
Qed.
End interpolate_rgb_facts.

(** *** [int] truncates *)

Lemma int_truncates (n : num) (q : Q) :
  num_value n = Some q -> int_ n = Ok (truncate q).
Proof.
  destruct n as [z | [s | s | | s m e]]; simpl; intros H;
    try discriminate; injection H as <-; unfold truncate; simpl.
  - rewrite Z.quot_1_r. reflexivity.
  - reflexivity.
  - destruct (0 <=? e) eqn:He; simpl.
    + rewrite Z.quot_1_r. reflexivity.
    + apply Z.leb_gt in He.
      assert (0 < 2 ^ (- e)) as Hpos by (apply Z.pow_pos_nonneg; lia).
      rewrite Z2Pos.id by exact Hpos.
      destruct s; simpl.
      * change (- Z.pos m) with (- (Z.pos m)).
        rewrite Z.quot_opp_l by lia.
        rewrite Z.quot_div_nonneg by lia. reflexivity.
      * rewrite Z.quot_div_nonneg by lia. reflexivity.
Qed.

(** On a non-negative rational, [truncate] is the integer part. *)
Lemma truncate_nonneg (q : Q) :
  (0 <= q)%Q ->
  (inject_Z (truncate q) <= q)%Q /\ (q < inject_Z (truncate q) + 1)%Q.
Proof.
  destruct q as [a b]. unfold Qle, Qlt, truncate, inject_Z, Qplus. simpl.
  intros Ha. rewrite Z.mul_1_r in *.
  rewrite Z.quot_div_nonneg by lia.
  pose proof (Z.div_mod a (Zpos b) ltac:(lia)) as Hdm.
  pose proof (Z.mod_pos_bound a (Zpos b) ltac:(lia)) as Hm.
  nia.
Qed.

Lemma truncate_byte (q : Q) :
  (0 <= q)%Q -> (q < 256)%Q -> 0 <= truncate q <= 255.
Proof.
  intros H0 H256. destruct (truncate_nonneg q H0) as [Hlo Hhi].
  assert (inject_Z (truncate q) < 256)%Q as Hlt
    by (eapply Qle_lt_trans; eassumption).
  assert (0 < inject_Z (truncate q) + 1)%Q as Hgt
    by (eapply Qle_lt_trans; eassumption).
  unfold Qlt, inject_Z, Qplus in Hlt, Hgt. simpl in Hlt, Hgt. lia.
Qed.

(** ** The alpha channel *)

(** The integer inequality behind the round trip.  [m / De] is the float
    [a], [N * 2 * h / (2 * h * P)] its rounded product with 255, [A] the
    truncation of that, and [mT / DT] the float [A / 255]. *)
Lemma alpha_core (m mT A N De DT h P L : Z) :
  0 < m -> 0 < mT -> 1 <= A -> 0 < De -> 0 < DT -> 0 < h -> 0 < P -> 2 <= L ->
  35184372088832 * De = 2 * h * P ->
  A * P <= N < (A + 1) * P ->
  - h <= N * (2 * h) - m * 8972014882652160 <= h ->
  (N = 2 ^ 53 -> m * 8972014882652160 < A * P * (2 * h)) ->
  (N <> 2 ^ 53 -> 2 * P <= L) ->
  Z.abs (A * DT - 255 * mT) * L < DT ->
  Z.abs (mT * De - m * DT) * 255 < DT * De.
Proof.
  intros Hm HmT HA HDe HDT Hh HP HL HD HAN Herr H53 Hn53 Htab.
  remember (A * DT - 255 * mT) as g eqn:Eg.
  remember (m * 8972014882652160) as M eqn:EM.
  remember (Z.abs g) as a eqn:Ea.
  assert (0 <= a /\ g <= a /\ - g <= a) as (Ha0 & Hga & Hga') by lia.
  clear Ea.
  (* products used below *)
  assert (a * 2 <= a * L) as Ha2 by (apply Z.mul_le_mono_nonneg_l; lia).
  assert (A * P * (2 * h) <= N * (2 * h)) as HlowN
    by (apply Z.mul_le_mono_nonneg_r; lia).
  assert (N * (2 * h) <= ((A + 1) * P - 1) * (2 * h)) as HupN
    by (apply Z.mul_le_mono_nonneg_r; lia).
  assert (g * (2 * h * P) <= a * (2 * h * P)) as HgD
    by (apply Z.mul_le_mono_nonneg_r; lia).
  assert (- g * (2 * h * P) <= a * (2 * h * P)) as HgD'
    by (apply Z.mul_le_mono_nonneg_r; lia).
  assert (a * 2 * (h * P) <= (DT - 1) * (h * P)) as HaD
    by (apply Z.mul_le_mono_nonneg_r; lia).
  (* both sides, scaled by 2^45 *)
  assert (M * DT - 255 * mT * (2 * h * P) < DT * (2 * h * P)) as Hupper.
  { destruct (Z.eq_dec N (2 ^ 53)) as [HN | Hne].
    - specialize (H53 HN).
      assert (M * DT <= (A * P * (2 * h) - 1) * DT)
        by (apply Z.mul_le_mono_nonneg_r; lia).
      subst g. lia.
    - specialize (Hn53 Hne).
      assert (a * (2 * P) <= a * L) by (apply Z.mul_le_mono_nonneg_l; lia).
      assert (a * (2 * P) * h <= (DT - 1) * h)
        by (apply Z.mul_le_mono_nonneg_r; lia).
      assert (M * DT <= ((A + 1) * P * (2 * h) - h) * DT)
        by (apply Z.mul_le_mono_nonneg_r; lia).
      subst g. lia. }
  assert (255 * mT * (2 * h * P) - M * DT < DT * (2 * h * P)) as Hlower.
  { assert ((A * P * (2 * h) - h) * DT <= M * DT)
      by (apply Z.mul_le_mono_nonneg_r; lia).
    assert (h * DT <= h * P * DT).
    { apply Z.mul_le_mono_nonneg_r; [ lia | ].
      rewrite <- (Z.mul_1_r h) at 1. apply Z.mul_le_mono_nonneg_l; lia. }
    subst g. lia. }
  assert (255 * (mT * De - m * DT) * 35184372088832
          = 255 * mT * (2 * h * P) - M * DT) as Hscale.
  { rewrite <- HD. subst M. ring. }
  assert (DT * De * 35184372088832 = DT * (2 * h * P)) as Hscale'.
  { rewrite <- HD. ring. }
  destruct (Z.abs_spec (mT * De - m * DT)) as [[Hs ->] | [Hs ->]]; lia.
Qed.

Lemma alpha_table (A : Z) : 1 <= A <= 255 -> alpha_row_ok A = true.
Proof.
  intros HA.
  assert (forallb alpha_row_ok (map Z.of_nat (seq 1 255)) = true) as Hall
    by (vm_compute; reflexivity).
  rewrite forallb_forall in Hall. apply Hall.
  apply in_map_iff. exists (Z.to_nat A). split; [ lia | ].
  apply in_seq. lia.
Qed.

Lemma Qabs_diff_lt (a b c d : Z) :
  0 < b -> 0 < d ->
  Z.abs (a * d - c * b) * 255 < b * d ->
  (Qabs ((a # Z.to_pos b) - (c # Z.to_pos d)) < 1 # 255)%Q.
Proof.
  intros Hb Hd H. unfold Qminus, Qplus, Qopp, Qabs, Qlt. simpl.
  rewrite Pos2Z.inj_mul, !Z2Pos.id by assumption.
  replace (a * d + - c * b) with (a * d - c * b) by ring. lia.
Qed.

(** A float in [0, 1], times 255, truncated, divided by 255 again. *)
Lemma alpha_roundtrip_finite (m : positive) (e : Z) :
  bounded 53 1024 m e = true -> e < 0 -> Zpos m <= 2 ^ (- e) ->
  exists A fa qa,
    int_of_float (SFmul fprec femax (S754_finite false m e) float_255) = Ok A
    /\ 0 <= A <= 255
    /\ (A - 1) * 2 ^ (- e) < 255 * Zpos m < (A + 1) * 2 ^ (- e)
    /\ int_truediv A 255 = Ok fa /\ float_value fa = Some qa
    /\ (Qabs (qa - (Zpos m # Z.to_pos (2 ^ (- e)))) < 1 # 255)%Q.
Proof.
  intros Hb He Hle.
  destruct (mul255_truncated m e Hb He Hle)
    as (A & N & E1 & h & Hint & HE1 & Hh & HN & HD & HA & Herr & H53).
  assert (0 < 2 ^ (- e)) as HDe by (apply Z.pow_pos_nonneg; lia).
  assert (0 < 2 ^ (- E1)) as HP by (apply Z.pow_pos_nonneg; lia).
  replace (45 - e) with (45 + - e) in HD by lia.
  rewrite Z.pow_add_r in HD by lia. change (2 ^ 45) with 35184372088832 in HD.
  assert (A * 2 ^ (- E1) <= N < (A + 1) * 2 ^ (- E1)) as HAN.
  { pose proof (Z.div_mod N (2 ^ (- E1)) ltac:(lia)) as Hdm.
    pose proof (Z.mod_pos_bound N (2 ^ (- E1)) HP) as Hmb.
    rewrite <- HA in Hdm. lia. }
  assert (0 <= A) as HA0 by (rewrite HA; apply Z.div_pos; lia).
  set (De := 2 ^ (- e)) in *. set (P := 2 ^ (- E1)) in *.
  set (M := Zpos m * 8972014882652160) in *.
  assert (M <= 255 * (2 * h * P)) as HM255 by (unfold M; lia).
  assert (A * P * (2 * h) <= N * (2 * h)) as HlowN
    by (apply Z.mul_le_mono_nonneg_r; lia).
  assert (N * (2 * h) <= ((A + 1) * P - 1) * (2 * h)) as HupN
    by (apply Z.mul_le_mono_nonneg_r; lia).
  assert (h <= h * P) as HhP.
  { rewrite <- (Z.mul_1_r h) at 1. apply Z.mul_le_mono_nonneg_l; lia. }
  assert (A <= 255) as HA255.
  { destruct (Z.le_gt_cases A 255) as [ | Hgt ]; [ assumption | ].
    assert (256 * (2 * h * P) <= A * (2 * h * P))
      by (apply Z.mul_le_mono_nonneg_r; lia).
    lia. }
  assert ((A - 1) * De < 255 * Zpos m < (A + 1) * De) as Hscaled
    by (unfold M in *; lia).
  destruct (Z.eq_dec A 0) as [HAz | HAnz].
  { (* the alpha byte is zero *)
    exists A, (S754_zero false), (0 # 1).
    split; [ exact Hint | ]. split; [ lia | ]. split; [ exact Hscaled | ].
    rewrite HAz in Hscaled |- *.
    split; [ reflexivity | ]. split; [ reflexivity | ].
    change (0 # 1) with (0 # Z.to_pos 1).
    apply Qabs_diff_lt; lia. }
  pose proof (alpha_table A ltac:(lia)) as Htab. unfold alpha_row_ok in Htab.
  destruct (int_truediv A 255) as [[ | | | [ | ] mT eT] | ] eqn:Hdiv;
    try discriminate.
  apply andb_true_iff in Htab. destruct Htab as [HeT Htab].
  apply Z.ltb_lt in HeT, Htab.
  assert (0 < 2 ^ (- eT)) as HDT by (apply Z.pow_pos_nonneg; lia).
  exists A, (S754_finite false mT eT), (Zpos mT # Z.to_pos (2 ^ (- eT))).
  split; [ exact Hint | ]. split; [ lia | ]. split; [ exact Hscaled | ].
  split; [ exact Hdiv | ].
  split.
  { cbn [float_value cond_Zopp].
    destruct (Z.leb_spec 0 eT); [ lia | reflexivity ]. }
  apply Qabs_diff_lt; [ exact HDT | exact HDe | ].
  destruct (Z.log2_spec A ltac:(lia)) as [Hl2 Hl2'].
  assert (0 <= Z.log2 A) as Hl0 by apply Z.log2_nonneg.
  assert (Z.log2 A < 8) as Hl8.
  { apply Z.log2_lt_pow2; [ lia | ]. change (2 ^ 8) with 256. lia. }
  apply (alpha_core (Zpos m) (Zpos mT) A N De (2 ^ (- eT)) h P
           (2 ^ (53 - Z.log2 A))); try lia.
  - change 2 with (2 ^ 1) at 1. apply Z.pow_le_mono_r; lia.
  - (* the product was rounded up to a power of two *)
    intros HN53.
    destruct (Z.le_gt_cases (- E1) 53) as [Hsmall | Hbig].
    + assert (2 ^ 53 = 2 ^ (53 + E1) * P) as Hsplit.
      { unfold P. rewrite <- Z.pow_add_r by lia. f_equal. lia. }
      assert (A = 2 ^ (53 + E1)) as HA'.
      { rewrite HA, HN53, Hsplit. apply Z.div_mul. lia. }
      rewrite HA', <- Hsplit, <- HN53. apply H53. exact HN53.
    + assert (2 ^ 53 < P) by (apply Z.pow_lt_mono_r; lia).
      rewrite HA, HN53, Z.div_small in HAnz by lia. contradiction.
  - (* otherwise the product has 53 digits *)
    intros HN53.
    assert (2 ^ Z.log2 A * P <= A * P) as Hx
      by (apply Z.mul_le_mono_nonneg_r; lia).
    assert (2 ^ (Z.log2 A + - E1) < 2 ^ 53) as Hy.
    { rewrite Z.pow_add_r by lia. fold P. lia. }
    apply Z.pow_lt_mono_r_iff in Hy; [ | lia | lia ].
    replace (2 * P) with (2 ^ (- E1 + 1)).
    + apply Z.pow_le_mono_r; lia.
    + rewrite Z.pow_add_r by lia. fold P. lia.
Qed.

Lemma num_mul_255 (f : float) :
  num_mul (NFloat f) (NInt 255) = Ok (NFloat (SFmul fprec femax f float_255)).
Proof. reflexivity. Qed.

(** [int(a * 255) / 255] for every float [a] in [0, 1]. *)
Lemma alpha_roundtrip (f : float) (q : Q) :
  valid_binary fprec femax f = true -> float_value f = Some q ->
  (0 <= q)%Q -> (q <= 1)%Q ->
  exists A fa qa,
    int_of_float (SFmul fprec femax f float_255) = Ok A
    /\ 0 <= A <= 255
    /\ (inject_Z A - 1 < 255 * q)%Q /\ (255 * q < inject_Z A + 1)%Q
    /\ int_truediv A 255 = Ok fa /\ float_value fa = Some qa
    /\ (Qabs (qa - q) < 1 # 255)%Q.
Proof.
  intros Hvalid Hq Hq0 Hq1.
  destruct f as [s | s | | s m e]; try discriminate.
  - (* a zero *)
    injection Hq as <-.
    exists 0, (S754_zero false), (0 # 1).
    split; [ destruct s; reflexivity | ].
    repeat split; try reflexivity; lia.
  - cbn [float_value] in Hq. injection Hq as <-.
    destruct s.
    { (* negative *)
      exfalso. unfold Qle in Hq0.
      destruct (Z.leb_spec 0 e); cbn [Qnum Qden cond_Zopp] in Hq0.
      - assert (0 < 2 ^ e) by (apply Z.pow_pos_nonneg; lia). nia.
      - lia. }
    cbn [valid_binary] in Hvalid. unfold fprec, femax in Hvalid.
    destruct (Z.leb_spec 0 e) as [He | He].
    { (* an integer of at most one: not a canonical float *)
      exfalso.
      pose proof (Z.pow_pos_nonneg 2 e ltac:(lia) He) as Hpos.
      unfold Qle in Hq1. cbn [Qnum Qden cond_Zopp] in Hq1.
      assert (Zpos m = 1) as Hm1 by nia.
      injection Hm1 as ->.
      destruct (canonical_cases 1 e Hvalid) as [[Hd _] | [He' _]];
        [ discriminate | lia ]. }
    assert (0 < 2 ^ (- e)) as HDe by (apply Z.pow_pos_nonneg; lia).
    assert (Zpos m <= 2 ^ (- e)) as Hle.
    { unfold Qle in Hq1. simpl in Hq1. rewrite Z2Pos.id in Hq1 by exact HDe.
      lia. }
    destruct (alpha_roundtrip_finite m e Hvalid He Hle)
      as (A & fa & qa & Hint & HA & Hscaled & Hdiv & Hqa & Hclose).
    exists A, fa, qa.
    split; [ exact Hint | ]. split; [ exact HA | ].
    cbn [cond_Zopp].
    split; [ | split; [ | auto ] ].
    + unfold Qlt, Qminus, Qplus, Qopp, Qmult, inject_Z.
      cbn [Qnum Qden]. rewrite !Pos2Z.inj_mul, Z2Pos.id by exact HDe. lia.
    + unfold Qlt, Qplus, Qmult, inject_Z.
      cbn [Qnum Qden]. rewrite !Pos2Z.inj_mul, Z2Pos.id by exact HDe. lia.
Qed.

(** Adding below a multiple of [2^k] is a bitwise or. *)
Lemma add_low_lor (x y k : Z) :
  0 <= k -> 0 <= y < 2 ^ k -> x * 2 ^ k + y = Z.lor (x * 2 ^ k) y.
Proof.
  intros Hk Hy.
  assert (Z.land (x * 2 ^ k) y = 0) as Hdisjoint.
  { apply Z.bits_inj'. intros n Hn.
    rewrite Z.land_spec, Z.bits_0, <- Z.shiftl_mul_pow2 by exact Hk.
    destruct (Z.lt_ge_cases n k) as [Hlt | Hge].
    - rewrite Z.shiftl_spec_low by exact Hlt. reflexivity.
    - rewrite <- (Z.mod_small y (2 ^ k)) by exact Hy.
      rewrite Z.mod_pow2_bits_high by lia. apply andb_false_r. }
  rewrite Z.add_nocarry_lxor by exact Hdisjoint.
  apply Z.lxor_lor. exact Hdisjoint.
Qed.

Lemma pack_lor (a r g b : Z) :
  0 <= r <= 255 -> 0 <= g <= 255 -> 0 <= b <= 255 ->
  (a ≪ 24) + (r ≪ 16) + (g ≪ 8) + b
  = Z.lor (Z.lor (Z.lor (a ≪ 24) (r ≪ 16)) (g ≪ 8)) b.
Proof.
  intros Hr Hg Hb. rewrite !Z.shiftl_mul_pow2 by lia.
  pose proof (add_low_lor a (r * 2 ^ 16) 24 ltac:(lia)
                ltac:(change (2 ^ 24) with 16777216;
                      change (2 ^ 16) with 65536; lia)) as H1.
  pose proof (add_low_lor (a * 2 ^ 8 + r) (g * 2 ^ 8) 16 ltac:(lia)
                ltac:(change (2 ^ 16) with 65536;
                      change (2 ^ 8) with 256; lia)) as H2.
  pose proof (add_low_lor (a * 2 ^ 16 + r * 2 ^ 8 + g) b 8 ltac:(lia)
                ltac:(change (2 ^ 8) with 256; lia)) as H3.
  replace ((a * 2 ^ 8 + r) * 2 ^ 16) with (a * 2 ^ 24 + r * 2 ^ 16) in H2
    by ring.
  replace ((a * 2 ^ 16 + r * 2 ^ 8 + g) * 2 ^ 8)
    with (a * 2 ^ 24 + r * 2 ^ 16 + g * 2 ^ 8) in H3 by ring.
  rewrite <- H1, <- H2, <- H3. reflexivity.
Qed.

(** C5.  For integers [r], [g], [b] in [0, 255] and every binary64 float
    [a] with [0 <= a <= 1], [Color.from_argb(a, r, g, b)] returns a colour
    whose value is [(A << 24) | (r << 16) | (g << 8) | b], where the alpha
    byte [A = int(a * 255)] lies in [0, 255] and within 1 of [255 * a].
    The accessors give back [r], [g] and [b], the alpha byte is read back
    by shift and mask, and [.a] is a float within [1/255] of [a]. *)
Theorem Color_from_argb_roundtrip (f : float) (q : Q) (r g b : Z)
    (Hfloat : valid_binary fprec femax f = true)
    (Hq : float_value f = Some q)
    (Ha : (0 <= q)%Q /\ (q <= 1)%Q)
    (Hr : 0 <= r <= 255) (Hg : 0 <= g <= 255) (Hb : 0 <= b <= 255) :
  exists (A : Z) (c : Color) (fa : float) (qa : Q),
    (a255 ← num_mul (NFloat f) (NInt 255); int_ a255) = Ok A
    /\ 0 <= A <= 255
    /\ (inject_Z A - 1 < 255 * q)%Q /\ (255 * q < inject_Z A + 1)%Q
    /\ Color_from_argb (NFloat f) r g b = Ok c
    /\ value c = Z.lor (Z.lor (Z.lor (A ≪ 24) (r ≪ 16)) (g ≪ 8)) b
    /\ Z.land (value c ≫ 24) 255 = A
    /\ Color_r c = r /\ Color_g c = g /\ Color_b c = b
    /\ Color_a c = Ok fa /\ float_value fa = Some qa
    /\ (Qabs (qa - q) < 1 # 255)%Q.
Proof.
  destruct Ha as [Hq0 Hq1].
  destruct (alpha_roundtrip f q Hfloat Hq Hq0 Hq1)
    as (A & fa & qa & Hint & HA & Hlo & Hhi & Hdiv & Hqa & Hclose).
  exists A, (mkColor ((A ≪ 24) + (r ≪ 16) + (g ≪ 8) + b)), fa, qa.
  assert ((a255 ← num_mul (NFloat f) (NInt 255); int_ a255) = Ok A) as Hbyte.
  { rewrite num_mul_255. exact Hint. }
  destruct (channels_of_sum A r g b Hr Hg Hb) as (Er & Eg & Eb & Ea).
  rewrite <- pack_sum in Er, Eg, Eb, Ea.
  rewrite Z.mod_small in Ea by lia.
  split; [ exact Hbyte | ]. split; [ exact HA | ].
  split; [ exact Hlo | ]. split; [ exact Hhi | ].
  split.
  { unfold Color_from_argb. rewrite num_mul_255.
    change (mbind ?k (Ok ?x)) with (k x). cbn [int_].
    rewrite Hint. reflexivity. }
  split; [ apply pack_lor; assumption | ].
  split; [ exact Ea | ].
  split; [ exact Er | ]. split; [ exact Eg | ]. split; [ exact Eb | ].
  split; [ | split; [ exact Hqa | exact Hclose ] ].
  unfold Color_a. rewrite Ea. exact Hdiv.
Qed.

Lemma Color_from_argb_roundtrip_witness :
  exists (A : Z) (c : Color) (fa : float) (qa : Q),
    (a255 ← num_mul (NFloat one_half) (NInt 255); int_ a255) = Ok A
    /\ 0 <= A <= 255
    /\ (inject_Z A - 1 < 255 * (4503599627370496 # 9007199254740992))%Q
    /\ (255 * (4503599627370496 # 9007199254740992) < inject_Z A + 1)%Q
    /\ Color_from_argb (NFloat one_half) 10 20 30 = Ok c
    /\ value c = Z.lor (Z.lor (Z.lor (A ≪ 24) (10 ≪ 16)) (20 ≪ 8)) 30
    /\ Z.land (value c ≫ 24) 255 = A
    /\ Color_r c = 10 /\ Color_g c = 20 /\ Color_b c = 30
    /\ Color_a c = Ok fa /\ float_value fa = Some qa
    /\ (Qabs (qa - (4503599627370496 # 9007199254740992)) < 1 # 255)%Q.
Proof.
  apply (Color_from_argb_roundtrip one_half
           (4503599627370496 # 9007199254740992) 10 20 30).
  - reflexivity.
  - reflexivity.
  - split; discriminate.
  - lia.
  - lia.
  - lia.
Defined.

Example Color_from_argb_one_half :
  Color_from_argb (NFloat one_half) 10 20 30 = Ok (mkColor 0x7F0A141E)
  /\ Color_a (mkColor 0x7F0A141E)
     = Ok (S754_finite false 8971876904722400 (-54)).
Proof. split; vm_compute; reflexivity. Qed.

(** ** Properties of controls *)

(** *** The stack does not lay out *)

(** C1, as the code has it.  For every stack, whatever its children, its
    spacing and its bullet, and for every available size,
    [Stack.measure_core] raises [NotImplementedError] and returns no size;
    so does [Stack.render_core]. *)
Theorem Stack_measure_core_raises (tree : gmap nat control) (self : nat)
    (h w : Z) :
  Stack_measure_core tree self h w = Raise NotImplementedError
  /\ Stack_render_core tree self h w = Raise NotImplementedError.
Proof. split; reflexivity. Qed.

(** C1 as stated fails.  The horizontal stack of three fixed-size children
    with spacing 2 should measure to width 3 + 4 + 5 + 2 * 2 = 16 and
    height 2; [Stack.measure_core] raises instead. *)
Lemma Stack_measure_core_counterexample :
  child_sizes example_stack_tree 0%nat = [(1, 3); (2, 4); (1, 5)]
  /\ (ctl ← example_stack_tree !! 0%nat; ctl_props ctl !! "spacing"%string)
     = Some (VInt 2)
  /\ (ctl ← example_stack_tree !! 0%nat; ctl_props ctl !! "orientation"%string)
     = Some (VEnum "Orientation" "horizontal")
  /\ spec_horizontal_measure (child_sizes example_stack_tree 0%nat) 2 0 24 80
     = (2, 16)
  /\ Stack_measure_core example_stack_tree 0%nat 24 80
     <> Ok (spec_horizontal_measure (child_sizes example_stack_tree 0%nat)
              2 0 24 80).
Proof.
  split; [ vm_compute; reflexivity | ].
  split; [ vm_compute; reflexivity | ].
  split; [ vm_compute; reflexivity | ].
  split; [ vm_compute; reflexivity | ].
  discriminate.
Qed.

(** *** The bullet rules *)

Lemma bullet_invalidate_measure_false (len : string -> Z)
    (before after : pyvalue) :
  _bullet_invalidate_measure len before after = false
  <-> exists b a, before = VStr b /\ after = VStr a /\ len b = len a.
Proof.
  unfold _bullet_invalidate_measure. rewrite negb_false_iff. split.
  - intros H.
    destruct before as [ | | b | | ], after as [ | | a | | ];
      simpl in H; try discriminate.
    exists b, a. apply Z.eqb_eq in H. auto.
  - intros (b & a & -> & -> & H). simpl. apply Z.eqb_eq. exact H.
Qed.

(** C2.  The bullet measure predicate is [False] exactly when the old and
    the new value are both strings of equal length, and [True] otherwise:
    for strings of different lengths and whenever an operand is not a
    string.  Assigning ["#"] over ["*"] leaves the measure clean, assigning
    ["**"] over ["*"] dirties it.  The measure rule of [Stack.bullet] is
    this predicate and its paint rule is the constant [True], which fires
    on every assignment. *)
Theorem bullet_rules :
  (forall (len : string -> Z) (before after : pyvalue),
      (_bullet_invalidate_measure len before after = false
       <-> exists b a, before = VStr b /\ after = VStr a /\ len b = len a)
      /\ (_bullet_invalidate_measure len before after = true
          <-> (forall b, before <> VStr b) \/ (forall a, after <> VStr a)
              \/ exists b a, before = VStr b /\ after = VStr a
                             /\ len b <> len a))
  /\ _bullet_invalidate_measure utils_len (VStr "*") (VStr "#") = false
  /\ _bullet_invalidate_measure utils_len (VStr "*") (VStr "**") = true
  /\ (forall len : string -> Z,
        prop_measure (Stack_bullet len)
        = RCallable (_bullet_invalidate_measure len)
        /\ prop_paint (Stack_bullet len) = RConst true)
  /\ (forall (len : string -> Z) (old new : pyvalue),
        eval_rule (prop_paint (Stack_bullet len)) old new = true).
Proof.
  split.
  { intros len before after.
    split; [ apply bullet_invalidate_measure_false | ].
    rewrite <- not_false_iff_true, bullet_invalidate_measure_false.
    split.
    - intros Hn.
      destruct before as [ | | b | | ];
        try (left; intros b'; discriminate).
      destruct after as [ | | a | | ];
        try (right; left; intros a'; discriminate).
      right. right. exists b, a. split; [ reflexivity | ].
      split; [ reflexivity | ].
      intros Hlen. apply Hn. exists b, a. auto.
    - intros [Hb | [Ha | (b & a & -> & -> & Hlen)]] (b' & a' & Eb & Ea & E).
      + exact (Hb b' Eb).
      + exact (Ha a' Ea).
      + injection Eb as <-. injection Ea as <-. contradiction. }
  split; [ reflexivity | ].
  split; [ reflexivity | ].
  split; [ intros len; split; reflexivity | ].
  intros len old new. reflexivity.
Qed.

(** *** Assignment through a descriptor *)

Lemma assign_rejected (d : property) (name : string) (c : nat) (v : pyvalue)
    (tree : gmap nat control) (ctl : control) :
  tree !! c = Some ctl -> accepts d v = false ->
  assign d name c v tree = Some (Raise TypeConstraintError, tree).
Proof.
  intros Hc Hacc. unfold assign. rewrite Hc. simpl. rewrite Hacc. reflexivity.
Qed.

Lemma accepts_false (d : property) (v : pyvalue) :
  (v = VNone /\ prop_nullable d = false)
  \/ (v <> VNone /\ Forall (fun t => isinstance v t = false) (prop_types d)) ->
  accepts d v = false.
Proof.
  intros [[-> Hn] | [Hv Hall]].
  - exact Hn.
  - assert (existsb (isinstance v) (prop_types d) = false) as Hex.
    { induction Hall as [ | t ts Ht _ IH ]; simpl; [ reflexivity | ].
      rewrite Ht, IH. reflexivity. }
    destruct v; simpl; try exact Hex. contradiction.
Qed.

(** C8.  Assigning to a declared property a value that is of none of the
    declared types, or [None] when the property is not nullable, raises
    [TypeConstraintError] at the assignment, and the control tree after the
    statement is the tree before it: the stored value is the old one, and
    nothing was coerced or marked. *)
Theorem setattr_type_constraint (len : string -> Z) (tree : gmap nat control)
    (c : nat) (ctl : control) (name : string) (d : property) (v : pyvalue)
    (Hc : tree !! c = Some ctl)
    (Hd : (list_to_map (declared len (ctl_class ctl)) : gmap string property)
            !! name = Some d)
    (Hv : (v = VNone /\ prop_nullable d = false)
          \/ (v <> VNone
              /\ Forall (fun t => isinstance v t = false) (prop_types d))) :
  setattr len c name v tree = Some (Raise TypeConstraintError, tree)
  /\ assign d name c v tree = Some (Raise TypeConstraintError, tree).
Proof.
  assert (assign d name c v tree = Some (Raise TypeConstraintError, tree))
    as Ha by (eapply assign_rejected; eauto using accepts_false).
  split; [ | exact Ha ].
  unfold setattr. rewrite Hc. simpl. rewrite Hd. simpl. exact Ha.
Qed.

Lemma setattr_type_constraint_witness :
  (setattr utils_len 1%nat "horizontal_offset" (VStr "left") example_popup_tree
   = Some (Raise TypeConstraintError, example_popup_tree)
   /\ assign Popup_horizontal_offset "horizontal_offset" 1%nat (VStr "left")
        example_popup_tree
      = Some (Raise TypeConstraintError, example_popup_tree))
  /\ (setattr utils_len 0%nat "children" VNone example_stack_tree
      = Some (Raise TypeConstraintError, example_stack_tree)
      /\ assign Stack_children "children" 0%nat VNone example_stack_tree
         = Some (Raise TypeConstraintError, example_stack_tree)).
Proof.
  split.
  - apply (setattr_type_constraint utils_len example_popup_tree 1%nat
             (clean (new_control utils_len ClsPopup (Some 0%nat)) (3, 10))).
    + reflexivity.
    + reflexivity.
    + right. split; [ discriminate | ].
      repeat constructor.
  - eapply (setattr_type_constraint utils_len example_stack_tree 0%nat).
    + reflexivity.
    + reflexivity.
    + left. split; reflexivity.
Defined.

(** *** Popup properties never invalidate *)

Lemma Popup_declared (len : string -> Z) (name : string) (d : property) :
  (list_to_map (declared len ClsPopup) : gmap string property) !! name = Some d ->
  (name = "horizontal_offset"%string \/ name = "placement"%string
   \/ name = "vertical_offset"%string)
  /\ prop_measure d = RConst false /\ prop_paint d = RConst false.
Proof.
  simpl. intros Hl. rewrite !lookup_insert in Hl.
  repeat case_decide; subst; rewrite ?lookup_empty in Hl;
    try discriminate; injection Hl as <-; auto.
Qed.

Lemma assign_no_rules (d : property) (name : string) (c : nat) (v : pyvalue)
    (tree : gmap nat control) (ctl : control) :
  tree !! c = Some ctl -> accepts d v = true ->
  prop_measure d = RConst false -> prop_paint d = RConst false ->
  assign d name c v tree
  = Some (Ok tt,
          <[c := mkControl (ctl_class ctl) (<[name := v]> (ctl_props ctl))
                   (ctl_measure_dirty ctl) (ctl_paint_dirty ctl)
                   (ctl_measured ctl) (ctl_parent ctl)]> tree).
Proof.
  intros Hc Hacc Hm Hp. unfold assign. rewrite Hc. simpl.
  rewrite Hacc, Hm, Hp. simpl. unfold store_value. rewrite Hc. reflexivity.
Qed.

(** C10.  The three properties of [Popup] declare the constant [False] as
    measure rule and as paint rule.  Whatever is assigned to one of them,
    the measure-dirty and paint-dirty flags of the popup and every other
    control of the tree stay as they were; an accepted value is stored,
    the other properties keeping theirs, and a rejected value raises and
    leaves the tree as it was. *)
Theorem Popup_assignment_never_invalidates (len : string -> Z)
    (tree : gmap nat control) (c : nat) (ctl : control)
    (name : string) (d : property) (v : pyvalue)
    (Hc : tree !! c = Some ctl)
    (Hcls : ctl_class ctl = ClsPopup)
    (Hd : (list_to_map (declared len ClsPopup) : gmap string property)
            !! name = Some d) :
  (name = "horizontal_offset"%string \/ name = "placement"%string
   \/ name = "vertical_offset"%string)
  /\ prop_measure d = RConst false /\ prop_paint d = RConst false
  /\ exists r tree' ctl',
       setattr len c name v tree = Some (r, tree')
       /\ tree' !! c = Some ctl'
       /\ ctl_measure_dirty ctl' = ctl_measure_dirty ctl
       /\ ctl_paint_dirty ctl' = ctl_paint_dirty ctl
       /\ (forall c', c' <> c -> tree' !! c' = tree !! c')
       /\ (accepts d v = true ->
           r = Ok tt
           /\ ctl_props ctl' !! name = Some v
           /\ forall other, other <> name ->
                ctl_props ctl' !! other = ctl_props ctl !! other)
       /\ (accepts d v = false ->
           r = Raise TypeConstraintError /\ tree' = tree).
Proof.
  destruct (Popup_declared len name d Hd) as (Hname & Hm & Hp).
  split; [ exact Hname | ]. split; [ exact Hm | ]. split; [ exact Hp | ].
  assert (setattr len c name v tree = assign d name c v tree) as ->.
  { unfold setattr. rewrite Hc. simpl. rewrite Hcls, Hd. reflexivity. }
  destruct (accepts d v) eqn:Hacc.
  - rewrite (assign_no_rules d name c v tree ctl Hc Hacc Hm Hp).
    eexists _, _, _. split; [ reflexivity | ].
    split; [ apply lookup_insert_eq | ]. simpl.
    split; [ reflexivity | ]. split; [ reflexivity | ].
    split; [ intros c' Hne; apply lookup_insert_ne; congruence | ].
    split; [ | discriminate ].
    intros _. split; [ reflexivity | ].
    split; [ apply lookup_insert_eq | ].
    intros other Hne. apply lookup_insert_ne. congruence.
  - rewrite (assign_rejected d name c v tree ctl Hc Hacc).
    exists (Raise TypeConstraintError), tree, ctl.
    split; [ reflexivity | ]. split; [ exact Hc | ].
    split; [ reflexivity | ]. split; [ reflexivity | ].
    split; [ reflexivity | ].
    split; [ discriminate | ]. intros _. split; reflexivity.
Qed.

Lemma Popup_assignment_never_invalidates_witness :
  ("vertical_offset"%string = "horizontal_offset"%string
   \/ "vertical_offset"%string = "placement"%string
   \/ "vertical_offset"%string = "vertical_offset"%string)
  /\ prop_measure Popup_vertical_offset = RConst false
  /\ prop_paint Popup_vertical_offset = RConst false
  /\ exists r tree' ctl',
       setattr utils_len 1%nat "vertical_offset" (VInt (-2)) example_popup_tree
       = Some (r, tree')
       /\ tree' !! 1%nat = Some ctl'
       /\ ctl_measure_dirty ctl' = false
       /\ ctl_paint_dirty ctl' = false
       /\ (forall c', c' <> 1%nat ->
             tree' !! c' = example_popup_tree !! c')
       /\ (accepts Popup_vertical_offset (VInt (-2)) = true ->
           r = Ok tt
           /\ ctl_props ctl' !! "vertical_offset"%string = Some (VInt (-2))
           /\ forall other, other <> "vertical_offset"%string ->
                ctl_props ctl' !! other
                = ctl_props (clean (new_control utils_len ClsPopup
                                      (Some 0%nat)) (3, 10)) !! other)
       /\ (accepts Popup_vertical_offset (VInt (-2)) = false ->
           r = Raise TypeConstraintError /\ tree' = example_popup_tree).
Proof.
  apply (Popup_assignment_never_invalidates utils_len example_popup_tree 1%nat
           (clean (new_control utils_len ClsPopup (Some 0%nat)) (3, 10))
           "vertical_offset" Popup_vertical_offset (VInt (-2))).
  - reflexivity.
  - reflexivity.
  - reflexivity.
Defined.

(** The two bullet assignments of the specification, on a measured and
    painted stack whose bullet is ["*"]: the first leaves the measure flag
    clear, the second sets it, and both set the paint flag. *)
Example bullet_assignments :
  let stack := clean (mkControl ClsStack {[ "bullet"%string := VStr "*" ]}
                        true true None None) (1, 12) in
  let flags (st : option (result unit * gmap nat control)) :=
    '(_, tree) ← st; ctl ← tree !! 0%nat;
    Some (ctl_measure_dirty ctl, ctl_paint_dirty ctl,
          ctl_props ctl !! "bullet"%string) in
  flags (setattr utils_len 0%nat "bullet" (VStr "#") {[ 0%nat := stack ]})
  = Some (false, true, Some (VStr "#"))
  /\ flags (setattr utils_len 0%nat "bullet" (VStr "**") {[ 0%nat := stack ]})
     = Some (true, true, Some (VStr "**")).
Proof. split; vm_compute; reflexivity. Qed.
(** ** Further properties of styles *)

(** *** Decimal strings and joined codes *)

Lemma chars_in_mono (cs cs' : list ascii) (s : string) :
  (forall a, In a cs -> In a cs') -> chars_in cs s -> chars_in cs' s.
Proof.
  intros Hsub. induction s as [ | a s IH ]; simpl; [ tauto | ].
  intros [Ha Hs]. split; [ apply Hsub; exact Ha | apply IH; exact Hs ].
Qed.

Lemma chars_in_append (cs : list ascii) (s t : string) :
  chars_in cs (s ++ t)%string <-> chars_in cs s /\ chars_in cs t.
Proof. induction s as [ | a s IH ]; simpl; tauto. Qed.

Lemma chars_in_count (cs : list ascii) (c : ascii) (s : string) :
  ~ In c cs -> chars_in cs s -> count_char c s = 0%nat.
Proof.
  intros Hc. induction s as [ | a s IH ]; simpl; [ reflexivity | ].
  intros [Ha Hs]. rewrite (IH Hs).
  destruct (Ascii.eqb a c) eqn:E; [ | reflexivity ].
  apply Ascii.eqb_eq in E. subst a. contradiction.
Qed.

Lemma count_char_append (c : ascii) (s t : string) :
  count_char c (s ++ t)%string = (count_char c s + count_char c t)%nat.
Proof. induction s as [ | a s IH ]; simpl; [ reflexivity | rewrite IH; lia ]. Qed.

Lemma string_of_uint_digits (d : Decimal.uint) :
  chars_in digit_chars (NilEmpty.string_of_uint d).
Proof.
  induction d; simpl; try exact I; (split; [ | assumption ]);
    unfold digit_chars; simpl; tauto.
Qed.

Lemma str_chars (v : Z) : chars_in ("-"%char :: digit_chars) (str v).
Proof.
  assert (forall d, chars_in ("-"%char :: digit_chars) (NilZero.string_of_uint d))
    as Hu.
  { intros d. apply (chars_in_mono digit_chars); [ intros a; simpl; tauto | ].
    destruct d; try apply string_of_uint_digits.
    simpl. unfold digit_chars. simpl. tauto. }
  unfold str. destruct (Z.to_int v) as [d | d]; simpl.
  - apply Hu.
  - split; [ left; reflexivity | apply Hu ].
Qed.

Lemma str_nonempty (v : Z) : str v <> EmptyString.
Proof.
  unfold str. destruct (Z.to_int v) as [d | d]; simpl; [ | discriminate ].
  destruct d; simpl; discriminate.
Qed.

(** [str] on integers is injective: the decimal string determines the
    integer. *)
Lemma str_inj (a b : Z) : str a = str b -> a = b.
Proof.
  assert (forall v, NilZero.int_of_string (str v) = Some (Z.to_int v)) as Hparse.
  { intros v. unfold str. apply NilZero.isi.
    - rewrite <- (DecimalZ.of_to v) at 1. rewrite DecimalZ.to_of.
      destruct (Z.to_int v) as [d | d]; simpl.
      + intros H. injection H as H. revert H. apply DecimalFacts.unorm_nonnil.
      + destruct (Decimal.nzhead d); discriminate.
    - rewrite <- (DecimalZ.of_to v) at 1. rewrite DecimalZ.to_of.
      destruct (Z.to_int v) as [d | d]; simpl.
      + discriminate.
      + destruct (Decimal.nzhead d) eqn:E; try discriminate. }
  intros H.
  pose proof (Hparse a) as Ha. rewrite H, Hparse in Ha.
  injection Ha as Ha.
  rewrite <- (DecimalZ.of_to a), <- (DecimalZ.of_to b). congruence.
Qed.

Lemma append_nil_l (r : string) : ("" ++ r)%string = r.
Proof. reflexivity. Qed.

Lemma append_cons_l (a : ascii) (x r : string) :
  (String a x ++ r)%string = String a (x ++ r).
Proof. reflexivity. Qed.

Lemma append_split (cs : list ascii) (c : ascii) (x x' r r' : string) :
  ~ In c cs -> chars_in cs x -> chars_in cs x' ->
  starts_with_or_empty c r -> starts_with_or_empty c r' ->
  (x ++ r = x' ++ r')%string -> x = x' /\ r = r'.
Proof.
  intros Hc. revert x'.
  induction x as [ | a x IH ]; intros [ | a' x' ]; simpl;
    intros Hx Hx' Hr Hr' Heq;
    rewrite ?append_nil_l, ?append_cons_l in Heq.
  - auto.
  - subst r. simpl in Hr. subst a'. tauto.
  - subst r'. simpl in Hr'. subst a. tauto.
  - injection Heq as -> Heq.
    destruct (IH x' (proj2 Hx) (proj2 Hx') Hr Hr' Heq) as [-> ->]. auto.
Qed.

Lemma append_empty_r (s : string) : (s ++ "")%string = s.
Proof.
  induction s as [ | a s IH ]; [ reflexivity | ].
  rewrite append_cons_l, IH. reflexivity.
Qed.

Lemma concat_cons (sep x : string) (l : list string) :
  String.concat sep (x :: l)
  = (x ++ match l with
          | [] => ""
          | _ :: _ => sep ++ String.concat sep l
          end)%string.
Proof. destruct l; [ rewrite append_empty_r | ]; reflexivity. Qed.

(** Joining with [;] loses nothing when no element is empty or contains
    the separator. *)
Lemma concat_inj (cs : list ascii) (l1 l2 : list string) :
  ~ In ";"%char cs ->
  Forall (fun s => chars_in cs s /\ s <> EmptyString) l1 ->
  Forall (fun s => chars_in cs s /\ s <> EmptyString) l2 ->
  String.concat ";" l1 = String.concat ";" l2 -> l1 = l2.
Proof.
  intros Hc H1. revert l2.
  induction H1 as [ | x l1 [Hx Hxn] H1 IH ]; intros l2 H2 Heq.
  - destruct H2 as [ | y l2 [Hy Hyn] H2 ]; [ reflexivity | ].
    rewrite concat_cons in Heq. simpl in Heq.
    destruct y; [ contradiction | discriminate ].
  - destruct H2 as [ | y l2 [Hy Hyn] H2 ].
    { rewrite concat_cons in Heq. simpl in Heq.
      destruct x; [ contradiction | discriminate ]. }
    rewrite !concat_cons in Heq.
    apply (append_split cs ";"%char) in Heq; try assumption.
    + destruct Heq as [-> Heq]. f_equal.
      destruct l1 as [ | x1 l1 ], l2 as [ | y1 l2 ];
        try reflexivity; try discriminate.
      simpl in Heq. injection Heq as Heq. apply IH; assumption.
    + destruct l1; simpl; auto.
    + destruct l2; simpl; auto.
Qed.

Lemma concat_chars (cs : list ascii) (l : list string) :
  In ";"%char cs -> Forall (chars_in cs) l ->
  chars_in cs (String.concat ";" l).
Proof.
  intros Hc H. induction H as [ | x l Hx H IH ]; [ exact I | ].
  rewrite concat_cons. apply chars_in_append. split; [ exact Hx | ].
  destruct l; [ exact I | ]. simpl. auto.
Qed.

Lemma codes_chars (l : list Z) :
  chars_in code_chars (String.concat ";" (map str l)).
Proof.
  apply concat_chars; [ left; reflexivity | ].
  apply Forall_forall. intros s Hs. apply list_elem_of_In in Hs.
  apply in_map_iff in Hs as (v & <- & _).
  apply (chars_in_mono ("-"%char :: digit_chars)); [ | apply str_chars ].
  intros a Ha. right. exact Ha.
Qed.

Lemma codes_inj (l1 l2 : list Z) :
  String.concat ";" (map str l1) = String.concat ";" (map str l2) -> l1 = l2.
Proof.
  intros H.
  assert (forall l, Forall (fun s => chars_in ("-"%char :: digit_chars) s
                                     /\ s <> EmptyString) (map str l)) as Hall.
  { intros l. apply Forall_forall. intros s Hs. apply list_elem_of_In in Hs.
    apply in_map_iff in Hs as (v & <- & _).
    split; [ apply str_chars | apply str_nonempty ]. }
  apply (concat_inj ("-"%char :: digit_chars)) in H; try apply Hall.
  - revert l2 H. induction l1 as [ | a l1 IH ]; intros [ | b l2 ] H;
      try discriminate; [ reflexivity | ].
    simpl in H. injection H as Hab H. apply str_inj in Hab. subst b.
    f_equal. apply IH. exact H.
  - unfold digit_chars. simpl. intros H'.
    repeat (destruct H' as [H' | H']; [ discriminate | ]). exact H'.
Qed.

Lemma sorted_elements_inj (X Y : gset Z) :
  sorted (elements X) = sorted (elements Y) -> X = Y.
Proof.
  intros H. apply set_eq. intros v.
  rewrite <- !elem_of_elements.
  rewrite <- (merge_sort_Permutation Z.le (elements X)).
  rewrite <- (merge_sort_Permutation Z.le (elements Y)).
  unfold sorted in H. rewrite H. tauto.
Qed.

Lemma Style_build_inj (x y : Style) : Style_build x = Style_build y -> x = y.
Proof.
  unfold Style_build. intros H. injection H as H.
  rewrite !append_nil_l in H.
  apply (append_split code_chars "m"%char) in H.
  - destruct H as [H _]. apply codes_inj in H.
    apply Style_ext. apply sorted_elements_inj. exact H.
  - unfold code_chars, digit_chars. simpl. intros H'.
    repeat (destruct H' as [H' | H']; [ discriminate | ]). exact H'.
  - apply codes_chars.
  - apply codes_chars.
  - reflexivity.
  - reflexivity.
Qed.

Lemma not_reset_values (s : Style) :
  Style_eq s (OStyle Style_reset) = false <-> values s <> {[0]}.
Proof.
  rewrite <- Style_eq_reset. destruct (Style_eq s (OStyle Style_reset)).
  - split; [ discriminate | intros H; contradiction H; reflexivity ].
  - split; [ discriminate | reflexivity ].
Qed.

(** *** The escape sequence determines the style *)

(** X1.  [build] is canonical: two styles build the same escape sequence
    exactly when they are equal under [==], whatever integers they hold and
    in whatever order they were given. *)
Theorem Style_build_canonical (x y : Style) :
  Style_build x = Style_build y <-> Style_eq x (OStyle y) = true.
Proof.
  rewrite Style_eq_true. split; [ apply Style_build_inj | intros ->; reflexivity ].
Qed.

(** *** Closure and absorption of [|] *)

(** X2.  For styles [x] and [y] other than [reset], [x | y] returns a style
    that is again not [reset], so a chain of [|] never starts to raise; and
    the result equals [y] exactly when every value of [x] is already a value
    of [y]. *)
Theorem Style_or_closed_absorbing (x y : Style)
  (Hx : Style_eq x (OStyle Style_reset) = false)
  (Hy : Style_eq y (OStyle Style_reset) = false) :
  exists z,
    bitor x (OStyle y) = Ok z
    /\ Style_eq z (OStyle Style_reset) = false
    /\ (Style_eq z (OStyle y) = true <-> values x ⊆ values y)
    /\ (Style_eq z (OStyle x) = true <-> values y ⊆ values x).
Proof.
  apply not_reset_values in Hx, Hy.
  exists (mkStyle (values x ∪ values y)).
  split; [ apply bitor_ok; assumption | ].
  split; [ apply not_reset_values; simpl; apply union_not_reset; assumption | ].
  split; simpl; rewrite bool_decide_eq_true.
  - symmetry. apply (subseteq_union_L (C := gset Z)).
  - rewrite (union_comm_L (C := gset Z)). symmetry.
    apply (subseteq_union_L (C := gset Z)).
Qed.

Lemma Style_or_closed_absorbing_witness :
  exists z,
    bitor (Style_init [1]) (OStyle (Style_init [4; 1])) = Ok z
    /\ Style_eq z (OStyle Style_reset) = false
    /\ (Style_eq z (OStyle (Style_init [4; 1])) = true
        <-> values (Style_init [1]) ⊆ values (Style_init [4; 1]))
    /\ (Style_eq z (OStyle (Style_init [1])) = true
        <-> values (Style_init [4; 1]) ⊆ values (Style_init [1])).
Proof.
  apply (Style_or_closed_absorbing (Style_init [1]) (Style_init [4; 1])).
  - vm_compute. reflexivity.
  - vm_compute. reflexivity.
Defined.

(** *** The empty style *)

(** X3.  [Style()], the style of no values, is not [reset]: it builds the
    sequence without codes, ESC[m, and it is neutral for [|] on both sides:
    for every style [x] other than [reset], [Style() | x] and [x | Style()]
    return a style equal to [x]. *)
Theorem Style_empty_neutral (x : Style)
  (Hx : Style_eq x (OStyle Style_reset) = false) :
  Style_eq (Style_init []) (OStyle Style_reset) = false
  /\ Style_build (Style_init []) = String ESC "[m"
  /\ exists l r,
       bitor (Style_init []) (OStyle x) = Ok l
       /\ bitor x (OStyle (Style_init [])) = Ok r
       /\ Style_eq l (OStyle x) = true
       /\ Style_eq r (OStyle x) = true.
Proof.
  assert (values (Style_init []) <> {[0]}) as He.
  { simpl. intros H. apply (not_elem_of_empty (C := gset Z) 0).
    rewrite H. apply elem_of_singleton. reflexivity. }
  apply not_reset_values in Hx.
  split; [ apply not_reset_values; exact He | ].
  split; [ vm_compute; reflexivity | ].
  exists (mkStyle (values (Style_init []) ∪ values x)),
         (mkStyle (values x ∪ values (Style_init []))).
  rewrite !bitor_ok by assumption.
  split; [ reflexivity | ]. split; [ reflexivity | ].
  split; simpl; rewrite bool_decide_eq_true.
  - apply (left_id_L (A := gset Z) ∅ (∪)).
  - apply (right_id_L (A := gset Z) ∅ (∪)).
Qed.

Lemma Style_empty_neutral_witness :
  exists l r,
    bitor (Style_init []) (OStyle Style_reset_color) = Ok l
    /\ bitor Style_reset_color (OStyle (Style_init [])) = Ok r
    /\ Style_eq l (OStyle Style_reset_color) = true
    /\ Style_eq r (OStyle Style_reset_color) = true.
Proof.
  apply (proj2 (proj2 (Style_empty_neutral Style_reset_color eq_refl))).
Defined.

(** *** Printing a style *)

Lemma append_assoc_l (s t u : string) :
  ((s ++ t) ++ u)%string = (s ++ (t ++ u))%string.
Proof.
  induction s as [ | a s IH ]; [ reflexivity | ].
  rewrite !append_cons_l, IH. reflexivity.
Qed.

Lemma build_reset : Style_build Style_reset = String ESC "[0m".
Proof. vm_compute. reflexivity. Qed.

Lemma string_tail_build (s : Style) :
  String ESC (string_tail (Style_build s)) = Style_build s.
Proof. reflexivity. Qed.

(** X4.  [str(s)] is the escape sequence itself.  [repr(s)] spells the
    escape character of that sequence out as the four characters \ESC and
    ends with the sequence of [reset] and a closing bracket: it contains
    exactly one escape character, that of the trailing reset sequence.
    Different styles have different representations. *)
Theorem Style_repr_defused (x y : Style) :
  Style_str x = Style_build x
  /\ (exists codes : list Z,
        Style_build x
          = String ESC ("[" ++ String.concat ";" (map str codes) ++ "m")%string
        /\ Style_repr x
           = ("<Style \ESC[" ++ String.concat ";" (map str codes) ++ "m"
              ++ Style_build Style_reset ++ ">")%string)
  /\ count_char ESC (Style_repr x) = 1%nat
  /\ (Style_repr x = Style_repr y <-> Style_eq x (OStyle y) = true).
Proof.
  assert (forall s, chars_in ("["%char :: "m"%char :: code_chars)
                      (string_tail (Style_build s))) as Htail.
  { intros s. unfold Style_build, string_tail.
    rewrite append_cons_l, append_nil_l.
    split; [ left; reflexivity | ].
    apply chars_in_append. split.
    - apply (chars_in_mono code_chars); [ | apply codes_chars ].
      intros a Ha. right. right. exact Ha.
    - split; [ right; left; reflexivity | exact I ]. }
  assert (~ In ESC ("["%char :: "m"%char :: code_chars)) as Hesc.
  { unfold code_chars, digit_chars. simpl. intros H'.
    repeat (destruct H' as [H' | H']; [ discriminate | ]). exact H'. }
  split; [ reflexivity | ].
  split.
  { exists (sorted (elements (values x))). split; [ reflexivity | ].
    unfold Style_repr. rewrite build_reset.
    unfold Style_build, string_tail.
    rewrite !append_cons_l, !append_nil_l, !append_assoc_l.
    rewrite !append_cons_l, !append_nil_l. reflexivity. }
  split.
  { unfold Style_repr. rewrite !count_char_append.
    rewrite (chars_in_count _ _ _ Hesc (Htail x)). reflexivity. }
  rewrite Style_eq_true. split; [ | intros ->; reflexivity ].
  unfold Style_repr. intros H.
  pose proof (Htail x) as Hx. pose proof (Htail y) as Hy.
  apply Style_build_inj.
  rewrite <- (string_tail_build x), <- (string_tail_build y).
  remember (string_tail (Style_build x)) as tx eqn:Etx.
  remember (string_tail (Style_build y)) as ty eqn:Ety.
  clear Etx Ety.
  rewrite !append_cons_l, !append_nil_l in H.
  repeat (injection H as H).
  apply (append_split _ ESC _ _ _ _ Hesc Hx Hy) in H;
    [ | reflexivity | reflexivity ].
  destruct H as [-> _]. reflexivity.
Qed.

(** *** The named styles *)

Lemma constants_table :
  forallb (fun p => forallb (constants_pair_ok p) Style_constants)
    Style_constants = true.
Proof. vm_compute. reflexivity. Qed.

(** X5.  The named styles of the class are pairwise different: two names
    denote equal styles only if they are the same name.  Combining two of
    them with [|] raises [ArithmeticError] exactly when one of the names is
    [reset], and returns a style otherwise.  [reset_color] is
    [reset_foreground_color | reset_background_color]. *)
Theorem Style_constants_combine (n1 n2 : string) (s1 s2 : Style)
  (H1 : In (n1, s1) Style_constants) (H2 : In (n2, s2) Style_constants) :
  (Style_eq s1 (OStyle s2) = true <-> n1 = n2)
  /\ (bitor s1 (OStyle s2) = Raise ArithmeticError
      <-> n1 = "reset"%string \/ n2 = "reset"%string)
  /\ (n1 <> "reset"%string -> n2 <> "reset"%string ->
      exists z, bitor s1 (OStyle s2) = Ok z)
  /\ bitor Style_reset_foreground_color (OStyle Style_reset_background_color)
     = Ok Style_reset_color.
Proof.
  pose proof (proj1 (List.forallb_forall _ _) constants_table _ H1) as Ht.
  cbv beta in Ht.
  pose proof (proj1 (List.forallb_forall _ _) Ht _ H2) as Hp.
  clear Ht. rename Hp into Ht.
  unfold constants_pair_ok in Ht. simpl fst in Ht. simpl snd in Ht.
  apply andb_true_iff in Ht as [Heq Hor].
  apply bool_decide_eq_true in Heq.
  split.
  { rewrite Heq. apply String.eqb_eq. }
  assert (forall n, String.eqb n "reset" = true <-> n = "reset"%string) as Hr.
  { intros n. apply String.eqb_eq. }
  split; [ | split ].
  - destruct (bitor s1 (OStyle s2)) as [z | e].
    + apply andb_true_iff in Hor as [Ha Hb].
      apply negb_true_iff in Ha, Hb.
      split; [ discriminate | ].
      intros [H | H]; apply Hr in H; congruence.
    + destruct e; try discriminate.
      apply orb_true_iff in Hor. rewrite !Hr in Hor. tauto.
  - intros Hn1 Hn2. destruct (bitor s1 (OStyle s2)) as [z | e].
    + exists z. reflexivity.
    + destruct e; try discriminate.
      apply orb_true_iff in Hor. rewrite !Hr in Hor. tauto.
  - vm_compute. reflexivity.
Qed.

Lemma Style_constants_combine_witness :
  (Style_eq (Style_init [3]) (OStyle (Style_init [39; 49])) = true
   <-> "italic_on"%string = "reset_color"%string)
  /\ (bitor (Style_init [3]) (OStyle (Style_init [39; 49])) = Raise ArithmeticError
      <-> "italic_on"%string = "reset"%string
          \/ "reset_color"%string = "reset"%string)
  /\ ("italic_on"%string <> "reset"%string ->
      "reset_color"%string <> "reset"%string ->
      exists z, bitor (Style_init [3]) (OStyle (Style_init [39; 49])) = Ok z)
  /\ bitor Style_reset_foreground_color (OStyle Style_reset_background_color)
     = Ok Style_reset_color.
Proof.
  apply (Style_constants_combine "italic_on" "reset_color"
           (Style_init [3]) (Style_init [39; 49])).
  - unfold Style_constants, Style_attrs. simpl. tauto.
  - unfold Style_constants, Style_attrs. simpl. tauto.
Defined.

(** ** Scaling a float of the unit interval by an integer constant

    The pattern [int(x * C)] occurs with [C] = 255, 360 and 0xFFFFFFFF.
    [C] enters as its float [mc * 2^ec], with a 53-bit significand. *)

Lemma mul_const_truncated (m mc : positive) (e ec : Z) :
  bounded 53 1024 m e = true -> e < 0 -> Zpos m <= 2 ^ (- e) ->
  2 ^ 52 <= Zpos mc < 2 ^ 53 -> -52 <= ec <= -2 ->
  exists A N E1 h,
    int_of_float (SFmul fprec femax (S754_finite false m e)
                    (S754_finite false mc ec)) = Ok A
    /\ E1 <= ec /\ 0 < h <= 2 ^ 52 /\ 0 <= N <= 2 ^ 53
    /\ 2 ^ (- ec) * 2 ^ (- e) = 2 * h * 2 ^ (- E1)
    /\ A = N / 2 ^ (- E1)
    /\ - h <= N * (2 * h) - Zpos m * Zpos mc <= h
    /\ SFmul fprec femax (S754_finite false m e) (S754_finite false mc ec)
       = (if N =? 0 then S754_zero false
          else if N =? 2 ^ 53
               then S754_finite false (Z.to_pos (2 ^ 52)) (E1 + 1)
          else S754_finite false (Z.to_pos N) E1).
Proof.
  intros Hb He Hle Hmc Hec.
  set (M := Zpos m * Zpos mc).
  set (E := e + ec).
  assert (0 < M) as HM by (unfold M; lia).
  destruct (Zdigits2_bounds M HM) as (HdM & HloM & HhiM).
  destruct (digits2_pos_bounds m) as [Hlom Hhim].
  set (dm := Zpos (digits2_pos m)) in *.
  assert (0 < 2 ^ (- e)) as Hpe by (apply Z.pow_pos_nonneg; lia).
  change (2 ^ 52) with 4503599627370496 in Hmc.
  change (2 ^ 53) with 9007199254740992 in Hmc.
  (* digits of the product *)
  assert (dm + 52 <= Zdigits2 M <= dm + 53) as [Hd1 Hd1'].
  { assert (2 ^ (dm - 1 + 52) <= M) as Hx.
    { rewrite pow2_split by lia. unfold M.
      change (2 ^ 52) with 4503599627370496.
      assert (0 < 2 ^ (dm - 1)) as Hx0 by (apply Z.pow_pos_nonneg; lia).
      set (x := 2 ^ (dm - 1)) in *. clearbody x. clear - Hlom Hx0 Hmc.
      apply Z.mul_le_mono_nonneg; lia. }
    assert (M < 2 ^ (dm + 53)) as Hy.
    { rewrite pow2_split by lia. unfold M.
      change (2 ^ 53) with 9007199254740992.
      set (x := 2 ^ dm) in *. clearbody x. clear - Hhim Hmc.
      apply Z.mul_lt_mono_nonneg; lia. }
    split.
    - destruct (Z.le_gt_cases (dm + 52) (Zdigits2 M)) as [ | Hgt ];
        [ assumption | ].
      assert (2 ^ Zdigits2 M <= 2 ^ (dm - 1 + 52))
        by (apply Z.pow_le_mono_r; lia).
      lia.
    - destruct (Z.le_gt_cases (Zdigits2 M) (dm + 53)) as [ | Hgt ];
        [ assumption | ].
      assert (2 ^ (dm + 53) <= 2 ^ (Zdigits2 M - 1))
        by (apply Z.pow_le_mono_r; lia).
      lia. }
  assert (Zdigits2 M <= 53 - e) as Hd2.
  { assert (M < 2 ^ (53 - e)) as Hx.
    { replace (53 - e) with (- e + 53) by lia. rewrite pow2_split by lia.
      unfold M. change (2 ^ 53) with 9007199254740992.
      set (x := 2 ^ (- e)) in *. clearbody x. clear - Hle Hpe Hmc.
      apply Z.le_lt_trans with (x * Zpos mc).
      - apply Z.mul_le_mono_nonneg_r; lia.
      - apply Z.mul_lt_mono_pos_l; lia. }
    destruct (Z.le_gt_cases (Zdigits2 M) (53 - e)) as [ | Hgt ];
      [ assumption | ].
    assert (2 ^ (53 - e) <= 2 ^ (Zdigits2 M - 1))
      by (apply Z.pow_le_mono_r; lia).
    lia. }
  set (E1 := fexp 53 1024 (Zdigits2 M + E)).
  assert (-1074 <= E1 /\ Zdigits2 M + E - 53 <= E1
          /\ (E1 = -1074 \/ E1 = Zdigits2 M + E - 53)) as (HE1a & HE1b & HE1c).
  { unfold E1. rewrite fexp_eq. lia. }
  destruct (canonical_cases m e Hb) as [[Hdm He'] | [He' Hdm]];
    fold dm in Hdm.
  all: assert (E1 <= ec) as HE1 by (unfold E in *; lia).
  all: assert (1 <= E1 - E <= 53) as Hn by (unfold E in *; lia).
  all: destruct (binary_round_aux_exact M E HM
                   ltac:(fold E1; lia) ltac:(fold E1; lia))
         as (N & HN & Herr & HN53 & Hres).
  all: fold E1 in HN, Herr, Hres.
  all: set (n := E1 - E) in *.
  all: assert (0 < 2 ^ (n - 1)) as Hh by (apply Z.pow_pos_nonneg; lia).
  all: assert (2 ^ (n - 1) <= 2 ^ 52) as Hh52
         by (apply Z.pow_le_mono_r; lia).
  all: assert (2 ^ n = 2 * 2 ^ (n - 1)) as E2n
         by (replace n with (Z.succ (n - 1)) at 1 by lia;
             apply Z.pow_succ_r; lia).
  all: assert (0 <= M / 2 ^ n) as Hq0
         by (apply Z.div_pos; [ lia | apply Z.pow_pos_nonneg; lia ]).
  all: exists (N / 2 ^ (- E1)), N, E1, (2 ^ (n - 1)).
  all: split;
    [ unfold fprec, femax; cbn [SFmul xorb];
      change (Z.pos (m * mc)) with M; fold E; rewrite Hres;
      destruct (N =? 0) eqn:E0;
      [ apply Z.eqb_eq in E0; subst N; rewrite Z.div_0_l by lia; reflexivity | ];
      destruct (N =? 2 ^ 53) eqn:E53;
      [ apply Z.eqb_eq in E53; subst N; cbn [int_of_float cond_Zopp];
        destruct (Z.leb_spec 0 (E1 + 1)); [ lia | ];
        f_equal; change (Zpos (Z.to_pos (2 ^ 52))) with (2 ^ 52);
        replace (- E1) with (Z.succ (- (E1 + 1))) by lia;
        rewrite Z.pow_succ_r by lia;
        change (2 ^ 53) with (2 * 2 ^ 52);
        rewrite Z.div_mul_cancel_l; [ reflexivity | | lia ];
        apply Z.pow_nonzero; lia
      | cbn [int_of_float cond_Zopp];
        destruct (Z.leb_spec 0 E1); [ lia | ];
        rewrite Z2Pos.id; [ reflexivity | ];
        apply Z.eqb_neq in E0; lia ]
    | ].
  all: split; [ exact HE1 | ].
  all: split; [ split; [ exact Hh | exact Hh52 ] | ].
  all: split; [ lia | ].
  all: split;
    [ rewrite <- E2n, <- !Z.pow_add_r by lia; f_equal; unfold n, E; lia | ].
  all: split; [ reflexivity | ].
  all: split; [ rewrite <- E2n; fold M; lia | ].
  all: unfold fprec, femax; cbn [SFmul xorb];
    change (Z.pos (m * mc)) with M; fold E; exact Hres.
Qed.

(** [int(x * C)] stays within [0, C], and below [C] when [x < 1] and [C]
    is not a power of two. *)
Lemma scale_unit_finite (m mc : positive) (e ec C : Z) :
  bounded 53 1024 m e = true -> e < 0 -> Zpos m <= 2 ^ (- e) ->
  2 ^ 52 <= Zpos mc < 2 ^ 53 -> -52 <= ec <= -2 ->
  Zpos mc = C * 2 ^ (- ec) ->
  exists A,
    int_of_float (SFmul fprec femax (S754_finite false m e)
                    (S754_finite false mc ec)) = Ok A
    /\ 0 <= A <= C
    /\ (Zpos m < 2 ^ (- e) -> 2 ^ 52 < Zpos mc -> A < C).
Proof.
  intros Hb He Hle Hmc Hec HC.
  destruct (mul_const_truncated m mc e ec Hb He Hle Hmc Hec)
    as (A & N & E1 & h & Hint & HE1 & Hh & HN & HD & HA & Herr & _).
  assert (0 < 2 ^ (- e)) as HDe by (apply Z.pow_pos_nonneg; lia).
  assert (0 < 2 ^ (- ec)) as HDc by (apply Z.pow_pos_nonneg; lia).
  assert (0 < 2 ^ (- E1)) as HP by (apply Z.pow_pos_nonneg; lia).
  assert (A * 2 ^ (- E1) <= N < (A + 1) * 2 ^ (- E1)) as HAN.
  { pose proof (Z.div_mod N (2 ^ (- E1)) ltac:(lia)) as Hdm.
    pose proof (Z.mod_pos_bound N (2 ^ (- E1)) HP) as Hmb.
    rewrite <- HA in Hdm. lia. }
  assert (0 <= A) as HA0 by (rewrite HA; apply Z.div_pos; lia).
  change (2 ^ 52) with 4503599627370496 in *.
  change (2 ^ 53) with 9007199254740992 in *.
  set (De := 2 ^ (- e)) in *. set (Dc := 2 ^ (- ec)) in *.
  set (P := 2 ^ (- E1)) in *.
  clearbody De Dc P. clear Hb HA.
  assert (0 < C) as HC0.
  { destruct (Z.lt_ge_cases 0 C) as [ | Hneg ]; [ assumption | ].
    assert (C * Dc <= 0 * Dc) by (apply Z.mul_le_mono_nonneg_r; lia). lia. }
  assert (A * P * (2 * h) <= N * (2 * h)) as HlowN
    by (apply Z.mul_le_mono_nonneg_r; lia).
  assert (h <= h * P) as HhP.
  { rewrite <- (Z.mul_1_r h) at 1. apply Z.mul_le_mono_nonneg_l; lia. }
  assert (Zpos m * (C * Dc) <= De * (C * Dc)) as Hprod
    by (apply Z.mul_le_mono_nonneg_r; lia).
  assert (De * (C * Dc) = C * (2 * h * P)) as HD' by (rewrite <- HD; ring).
  exists A. split; [ exact Hint | ]. split; [ split; [ exact HA0 | ] | ].
  - destruct (Z.le_gt_cases A C) as [ | Hgt ]; [ assumption | ].
    assert ((C + 1) * (2 * h * P) <= A * (2 * h * P))
      by (apply Z.mul_le_mono_nonneg_r; lia).
    rewrite HC in Herr. lia.
  - intros Hlt Hodd.
    assert (Zpos m * (C * Dc) <= (De - 1) * (C * Dc)) as Hprod'
      by (apply Z.mul_le_mono_nonneg_r; lia).
    destruct (Z.lt_ge_cases A C) as [ | Hge ]; [ assumption | ].
    assert (C * (2 * h * P) <= A * (2 * h * P))
      by (apply Z.mul_le_mono_nonneg_r; lia).
    rewrite HC in Herr, Hodd. lia.
Qed.

(** The valid floats of the unit interval: a zero, or a positive
    [m * 2^e] with a negative exponent. *)
Lemma unit_float_inv (f : float) (q : Q) :
  valid_binary fprec femax f = true -> float_value f = Some q ->
  (0 <= q)%Q -> (q <= 1)%Q ->
  (exists s, f = S754_zero s /\ q = 0 # 1)
  \/ (exists m e,
        f = S754_finite false m e /\ bounded 53 1024 m e = true
        /\ e < 0 /\ Zpos m <= 2 ^ (- e)
        /\ q = Zpos m # Z.to_pos (2 ^ (- e))
        /\ ((q < 1)%Q <-> Zpos m < 2 ^ (- e))).
Proof.
  intros Hvalid Hq Hq0 Hq1.
  destruct f as [s | s | | s m e]; try discriminate.
  - injection Hq as <-. left. exists s. split; reflexivity.
  - cbn [float_value] in Hq. injection Hq as <-. right.
    destruct s.
    { exfalso. unfold Qle in Hq0.
      destruct (Z.leb_spec 0 e); cbn [Qnum Qden cond_Zopp] in Hq0.
      - assert (0 < 2 ^ e) by (apply Z.pow_pos_nonneg; lia). nia.
      - lia. }
    cbn [valid_binary] in Hvalid. unfold fprec, femax in Hvalid.
    destruct (Z.leb_spec 0 e) as [He | He].
    { exfalso.
      pose proof (Z.pow_pos_nonneg 2 e ltac:(lia) He) as Hpos.
      unfold Qle in Hq1. cbn [Qnum Qden cond_Zopp] in Hq1.
      assert (Zpos m = 1) as Hm1 by nia.
      injection Hm1 as ->.
      destruct (canonical_cases 1 e Hvalid) as [[Hd _] | [He' _]];
        [ discriminate | lia ]. }
    assert (0 < 2 ^ (- e)) as HDe by (apply Z.pow_pos_nonneg; lia).
    exists m, e. cbn [cond_Zopp] in *.
    split; [ reflexivity | ]. split; [ exact Hvalid | ].
    split; [ exact He | ].
    unfold Qle in Hq1. unfold Qlt. cbn [Qnum Qden] in *.
    rewrite Z2Pos.id in * by exact HDe.
    split; [ lia | ]. split; [ reflexivity | ]. lia.
Qed.

(** [int(x * C)] for a float [0 <= x < 1] and an integer constant [C]
    below [2^52] that is not a power of two: an integer in [0, C - 1]. *)
Lemma scale_unit (f : float) (q : Q) (C : Z) (mc : positive) (ec : Z) :
  valid_binary fprec femax f = true -> float_value f = Some q ->
  (0 <= q)%Q -> (q < 1)%Q ->
  float_of_int C = Ok (S754_finite false mc ec) ->
  2 ^ 52 < Zpos mc < 2 ^ 53 -> -52 <= ec <= -2 ->
  Zpos mc = C * 2 ^ (- ec) ->
  exists A,
    (v ← num_mul (NFloat f) (NInt C); int_ v) = Ok A /\ 0 <= A < C.
Proof.
  intros Hvalid Hq Hq0 Hq1 HfC Hmc Hec HC.
  assert (num_mul (NFloat f) (NInt C)
          = Ok (NFloat (SFmul fprec femax f (S754_finite false mc ec)))) as ->.
  { unfold num_mul. cbn [num_float]. rewrite HfC. reflexivity. }
  change (mbind int_ (Ok ?x)) with (int_ x). cbn [int_].
  assert (0 < C) as HC0.
  { assert (0 < 2 ^ (- ec)) by (apply Z.pow_pos_nonneg; lia).
    destruct (Z.lt_ge_cases 0 C) as [ | Hneg ]; [ assumption | ].
    assert (C * 2 ^ (- ec) <= 0 * 2 ^ (- ec))
      by (apply Z.mul_le_mono_nonneg_r; lia).
    lia. }
  destruct (unit_float_inv f q Hvalid Hq Hq0 (Qlt_le_weak _ _ Hq1))
    as [(s & -> & _) | (m & e & -> & Hb & He & Hle & _ & Hlt)].
  - exists 0. split; [ reflexivity | lia ].
  - destruct (scale_unit_finite m mc e ec C Hb He Hle ltac:(lia) Hec HC)
      as (A & Hint & HA & HAC).
    exists A. split; [ exact Hint | ].
    split; [ lia | ]. apply HAC; [ apply Hlt; exact Hq1 | lia ].
Qed.
(** ** Further properties of colours *)

Lemma alpha_decode_table (A : Z) : 0 <= A <= 255 -> alpha_decode_ok A = true.
Proof.
  intros HA.
  assert (forallb alpha_decode_ok (map Z.of_nat (seq 0 256)) = true) as Hall
    by (vm_compute; reflexivity).
  rewrite forallb_forall in Hall. apply Hall.
  apply in_map_iff. exists (Z.to_nat A). split; [ lia | ].
  apply in_seq. lia.
Qed.

Lemma alpha_byte_range (v : Z) : 0 <= Z.land (v ≫ 24) 255 <= 255.
Proof. rewrite land_255. Z.div_mod_to_equations. lia. Qed.

(** Decoding an alpha byte: the float, its value, and its product with 255
    truncated. *)
Lemma alpha_decode (A : Z) :
  0 <= A <= 255 ->
  exists fa qa,
    int_truediv A 255 = Ok fa
    /\ valid_binary fprec femax fa = true
    /\ float_value fa = Some qa
    /\ (0 <= qa)%Q /\ (qa <= 1)%Q
    /\ ((qa == 1)%Q <-> A = 255)
    /\ ((qa == 0)%Q <-> A = 0)
    /\ int_of_float (SFmul fprec femax fa float_255) = Ok A.
Proof.
  intros HA.
  destruct (Z.eq_dec A 0) as [-> | Hnz].
  { exists (S754_zero false), (0 # 1).
    split; [ reflexivity | ]. split; [ reflexivity | ].
    split; [ reflexivity | ].
    split; [ unfold Qle; simpl; lia | ].
    split; [ unfold Qle; simpl; lia | ].
    split; [ unfold Qeq; simpl; lia | ].
    split; [ unfold Qeq; simpl; lia | ].
    reflexivity. }
  pose proof (alpha_decode_table A HA) as Ht.
  unfold alpha_decode_ok in Ht.
  destruct (int_truediv A 255) as [fa | ]; [ | discriminate Ht ].
  destruct fa as [s | s | | s m e]; try discriminate Ht.
  { destruct s; [ discriminate Ht | ]. apply Z.eqb_eq in Ht. contradiction. }
  destruct s; [ discriminate Ht | ].
  apply andb_true_iff in Ht as [Ht Hint].
  apply andb_true_iff in Ht as [Ht Hone].
  apply andb_true_iff in Ht as [Ht Hle].
  apply andb_true_iff in Ht as [Hv He].
  apply Z.ltb_lt in He. apply Z.leb_le in Hle.
  apply Bool.eqb_prop in Hone.
  assert (0 < 2 ^ (- e)) as Hpos by (apply Z.pow_pos_nonneg; lia).
  exists (S754_finite false m e), (Zpos m # Z.to_pos (2 ^ (- e))).
  split; [ reflexivity | ]. split; [ exact Hv | ].
  split.
  { simpl. destruct (0 <=? e) eqn:E; [ apply Z.leb_le in E; lia | ].
    reflexivity. }
  split; [ unfold Qle; simpl; lia | ].
  split; [ unfold Qle; simpl; rewrite Z2Pos.id by exact Hpos; lia | ].
  split; [ | split ].
  - unfold Qeq. simpl. rewrite Z2Pos.id by exact Hpos.
    rewrite Z.mul_1_r, Z.mul_1_l.
    rewrite <- (Z.eqb_eq (Zpos m)), Hone. apply Z.eqb_eq.
  - unfold Qeq. simpl. split; [ lia | contradiction ].
  - destruct (int_of_float (SFmul fprec femax (S754_finite false m e) float_255))
      as [A' | ]; [ | discriminate ].
    apply Z.eqb_eq in Hint. subst A'. reflexivity.
Qed.

Lemma Color_from_argb_float (fa : float) (A r g b : Z) :
  int_of_float (SFmul fprec femax fa float_255) = Ok A ->
  Color_from_argb (NFloat fa) r g b
  = Ok (mkColor ((A ≪ 24) + (r ≪ 16) + (g ≪ 8) + b)).
Proof.
  intros H. unfold Color_from_argb. rewrite num_mul_255.
  change (mbind ?k (Ok ?x)) with (k x). cbn [int_]. rewrite H. reflexivity.
Qed.

(** *** The accessors on any packed value *)

(** X6.  The accessors are total.  Whatever integer a colour holds,
    negative or wider than 32 bits, [r], [g] and [b] lie in [0, 255], and
    [a] does not raise: it is a finite float in [0, 1], equal to 1 exactly
    when the alpha byte is 255 and to 0 exactly when the alpha byte is 0. *)
Theorem Color_accessors_total (c : Color) :
  0 <= Color_r c <= 255 /\ 0 <= Color_g c <= 255 /\ 0 <= Color_b c <= 255
  /\ exists (fa : float) (qa : Q),
       Color_a c = Ok fa
       /\ valid_binary fprec femax fa = true
       /\ float_value fa = Some qa
       /\ (0 <= qa)%Q /\ (qa <= 1)%Q
       /\ ((qa == 1)%Q <-> Z.land (value c ≫ 24) 255 = 255)
       /\ ((qa == 0)%Q <-> Z.land (value c ≫ 24) 255 = 0).
Proof.
  destruct c as [v].
  destruct (channel_range v) as (Hr & Hg & Hb).
  split; [ exact Hr | ]. split; [ exact Hg | ]. split; [ exact Hb | ].
  destruct (alpha_decode _ (alpha_byte_range v))
    as (fa & qa & Hdiv & Hv & Hq & H0 & H1 & Hone & Hzero & _).
  exists fa, qa. unfold Color_a. cbn [value]. tauto.
Qed.

(** *** Decoding and encoding again *)

Lemma decode_encode_mod (c : Color) :
  exists fa : float,
    Color_a c = Ok fa
    /\ Color_from_argb (NFloat fa) (Color_r c) (Color_g c) (Color_b c)
       = Ok (mkColor (value c mod 2 ^ 32)).
Proof.
  destruct c as [v].
  destruct (alpha_decode _ (alpha_byte_range v))
    as (fa & qa & Hdiv & _ & _ & _ & _ & _ & _ & Hint).
  exists fa. split; [ exact Hdiv | ].
  rewrite (Color_from_argb_float fa _ _ _ _ Hint).
  f_equal. f_equal. rewrite pack_sum.
  unfold Color_r, Color_g, Color_b. cbn [value].
  rewrite !land_255, !Z.shiftr_div_pow2 by lia.
  change (2 ^ 16) with 65536. change (2 ^ 8) with 256.
  change (2 ^ 24) with 16777216. change (2 ^ 32) with 4294967296.
  Z.div_mod_to_equations. lia.
Qed.

(** X7.  Taking a colour apart and putting it together again:
    [Color.from_argb(c.a, c.r, c.g, c.b)] returns the colour whose value is
    the low 32 bits of [c.value].  For a colour with
    [0 <= value < 2^32] it is the colour itself. *)
Theorem Color_decode_encode (c : Color) :
  exists fa : float,
    Color_a c = Ok fa
    /\ Color_from_argb (NFloat fa) (Color_r c) (Color_g c) (Color_b c)
       = Ok (mkColor (value c mod 2 ^ 32))
    /\ (0 <= value c < 2 ^ 32 ->
        Color_from_argb (NFloat fa) (Color_r c) (Color_g c) (Color_b c)
        = Ok c).
Proof.
  destruct (decode_encode_mod c) as (fa & Hdiv & Hre).
  exists fa. split; [ exact Hdiv | ]. split; [ exact Hre | ].
  intros Hrange. rewrite Hre. rewrite Z.mod_small by exact Hrange.
  destruct c. reflexivity.
Qed.

(** *** Arguments out of range *)

(** X8.  [from_argb] checks nothing.  For any integers it returns the
    colour of value [255 * a * 2^24 + r * 2^16 + g * 2^8 + b], so a channel
    outside [0, 255] spills into its neighbours: the colour reads back
    [b mod 256] as blue, and the carry [b div 256] is added to green, whose
    carry is added to red.  [from_rgb(0, 0, 256)] and [from_rgb(0, 1, 0)]
    are the same colour. *)
Theorem Color_from_argb_unchecked (a r g b : Z) :
  exists c,
    Color_from_argb (NInt a) r g b = Ok c
    /\ value c = 255 * a * 2 ^ 24 + r * 2 ^ 16 + g * 2 ^ 8 + b
    /\ Color_b c = b mod 256
    /\ Color_g c = (g + b / 256) mod 256
    /\ Color_r c = (r + (g + b / 256) / 256) mod 256
    /\ Z.land (value c ≫ 24) 255
       = (255 * a + (r + (g + b / 256) / 256) / 256) mod 256
    /\ Color_from_rgb 0 0 256 = Color_from_rgb 0 1 0.
Proof.
  exists (mkColor ((a * 255) ≪ 24 + (r ≪ 16) + (g ≪ 8) + b)).
  split; [ reflexivity | ].
  unfold Color_r, Color_g, Color_b. cbn [value].
  rewrite pack_sum, !land_255, !Z.shiftr_div_pow2 by lia.
  change (2 ^ 16) with 65536. change (2 ^ 8) with 256.
  change (2 ^ 24) with 16777216.
  split; [ lia | ].
  split; [ Z.div_mod_to_equations; lia | ].
  split; [ Z.div_mod_to_equations; lia | ].
  split; [ Z.div_mod_to_equations; lia | ].
  split; [ Z.div_mod_to_equations; lia | ].
  reflexivity.
Qed.

(** *** Opaque colours *)

(** X9.  For [r], [g], [b] in [0, 255], [from_rgb(r, g, b)] returns a
    colour with value between [0xFF000000] and [0xFFFFFFFF] whose alpha is
    the float 1.0 exactly and whose accessors give back [r], [g] and [b];
    so two different triples give different colours. *)
Theorem Color_from_rgb_opaque (r g b r' g' b' : Z)
    (Hr : 0 <= r <= 255) (Hg : 0 <= g <= 255) (Hb : 0 <= b <= 255)
    (Hr' : 0 <= r' <= 255) (Hg' : 0 <= g' <= 255) (Hb' : 0 <= b' <= 255) :
  exists c,
    Color_from_rgb r g b = Ok c
    /\ 0xFF000000 <= value c <= 0xFFFFFFFF
    /\ Color_a c = Ok float_one
    /\ Color_r c = r /\ Color_g c = g /\ Color_b c = b
    /\ (Color_from_rgb r' g' b' = Ok c <-> r' = r /\ g' = g /\ b' = b).
Proof.
  exists (mkColor (255 * 16777216 + r * 65536 + g * 256 + b)).
  split; [ apply Color_from_rgb_value | ].
  destruct (channels_of_sum 255 r g b Hr Hg Hb) as (Er & Eg & Eb & Ea).
  split; [ cbn [value]; lia | ].
  split.
  { unfold Color_a. rewrite Ea. vm_compute. reflexivity. }
  split; [ exact Er | ]. split; [ exact Eg | ]. split; [ exact Eb | ].
  rewrite Color_from_rgb_value. split.
  - intros H. injection H as H. lia.
  - intros (-> & -> & ->). reflexivity.
Qed.

Lemma Color_from_rgb_opaque_witness :
  exists c,
    Color_from_rgb 10 20 30 = Ok c
    /\ 0xFF000000 <= value c <= 0xFFFFFFFF
    /\ Color_a c = Ok float_one
    /\ Color_r c = 10 /\ Color_g c = 20 /\ Color_b c = 30
    /\ (Color_from_rgb 30 20 10 = Ok c <-> 30 = 10 /\ 20 = 20 /\ 10 = 30).
Proof.
  apply (Color_from_rgb_opaque 10 20 30 30 20 10); lia.
Defined.

(** *** Equality and the accessors *)

(** X19.  A colour with [0 <= value < 2^32] is determined by its four
    accessors: two such colours are equal under [==] exactly when their
    [a], [r], [g] and [b] agree.  Beyond 32 bits this fails: [Color(0)] and
    [Color(2^32)] agree on all four accessors and are not equal. *)
Theorem Color_eq_accessors (c1 c2 : Color)
    (H1 : 0 <= value c1 < 2 ^ 32) (H2 : 0 <= value c2 < 2 ^ 32) :
  (Color_eq c1 c2 = true
   <-> Color_a c1 = Color_a c2 /\ Color_r c1 = Color_r c2
       /\ Color_g c1 = Color_g c2 /\ Color_b c1 = Color_b c2)
  /\ Color_eq (mkColor 0) (mkColor (2 ^ 32)) = false
  /\ Color_a (mkColor 0) = Color_a (mkColor (2 ^ 32))
  /\ Color_r (mkColor 0) = Color_r (mkColor (2 ^ 32))
  /\ Color_g (mkColor 0) = Color_g (mkColor (2 ^ 32))
  /\ Color_b (mkColor 0) = Color_b (mkColor (2 ^ 32)).
Proof.
  split; [ | repeat split; vm_compute; reflexivity ].
  unfold Color_eq. rewrite bool_decide_eq_true. split.
  - intros H. destruct c1 as [v1], c2 as [v2]. cbn [value] in H. subst v2.
    repeat split; reflexivity.
  - intros (Ha & Hr & Hg & Hb).
    destruct (decode_encode_mod c1) as (fa1 & Hdiv1 & Hre1).
    destruct (decode_encode_mod c2) as (fa2 & Hdiv2 & Hre2).
    rewrite Hdiv1, Hdiv2 in Ha. injection Ha as ->.
    rewrite Hr, Hg, Hb, Hre2 in Hre1. injection Hre1 as Hmod.
    rewrite !Z.mod_small in Hmod by assumption. congruence.
Qed.

Lemma Color_eq_accessors_witness :
  (Color_eq (mkColor 0x7F0A141E) (mkColor 0xFF0A141E) = true
   <-> Color_a (mkColor 0x7F0A141E) = Color_a (mkColor 0xFF0A141E)
       /\ Color_r (mkColor 0x7F0A141E) = Color_r (mkColor 0xFF0A141E)
       /\ Color_g (mkColor 0x7F0A141E) = Color_g (mkColor 0xFF0A141E)
       /\ Color_b (mkColor 0x7F0A141E) = Color_b (mkColor 0xFF0A141E))
  /\ Color_eq (mkColor 0) (mkColor (2 ^ 32)) = false
  /\ Color_a (mkColor 0) = Color_a (mkColor (2 ^ 32))
  /\ Color_r (mkColor 0) = Color_r (mkColor (2 ^ 32))
  /\ Color_g (mkColor 0) = Color_g (mkColor (2 ^ 32))
  /\ Color_b (mkColor 0) = Color_b (mkColor (2 ^ 32)).
Proof.
  apply (Color_eq_accessors (mkColor 0x7F0A141E) (mkColor 0xFF0A141E)).
  - cbn [value]. lia.
  - cbn [value]. lia.
Defined.

(** *** Interpolation never reads the alpha *)

(** X20.  Whatever [utils.interpolate] and [colorsys] are, and for each of
    the three methods and the default, [Color.interpolate(c1, c2, p)]
    depends on [c1] and [c2] only through their red, green and blue
    channels: replacing either colour by one with the same three channels,
    whatever its alpha, gives the same outcome. *)
Theorem Color_interpolate_ignores_alpha
    (interpolate : num -> num -> num -> result num)
    (colorsys : colorsys_module) (c1 c1' c2 c2' : Color) (p : num)
    (method : option ColorInterpolationMethod)
    (H1 : Color_r c1 = Color_r c1' /\ Color_g c1 = Color_g c1'
          /\ Color_b c1 = Color_b c1')
    (H2 : Color_r c2 = Color_r c2' /\ Color_g c2 = Color_g c2'
          /\ Color_b c2 = Color_b c2') :
  Color_interpolate interpolate colorsys c1 c2 p method
  = Color_interpolate interpolate colorsys c1' c2' p method.
Proof.
  destruct H1 as (Hr1 & Hg1 & Hb1). destruct H2 as (Hr2 & Hg2 & Hb2).
  destruct method as [[ | | ] | ];
    cbv beta iota zeta
      delta [Color_interpolate Color__interpolation_method_map default
             from_option id Color__interpolate_hsl Color__interpolate_hsv
             Color__interpolate_rgb];
    rewrite Hr1, Hg1, Hb1, Hr2, Hg2, Hb2; reflexivity.
Qed.

Lemma Color_interpolate_ignores_alpha_witness :
  Color_interpolate utils_interpolate colorsys_example
    (mkColor 0x7F0A141E) (mkColor 0x00FFFFFF) (NFloat one_half) (Some hsl)
  = Color_interpolate utils_interpolate colorsys_example
      (mkColor 0xFF0A141E) (mkColor 0x80FFFFFF) (NFloat one_half) (Some hsl).
Proof.
  apply (Color_interpolate_ignores_alpha utils_interpolate colorsys_example
           (mkColor 0x7F0A141E) (mkColor 0xFF0A141E)
           (mkColor 0x00FFFFFF) (mkColor 0x80FFFFFF)).
  - repeat split; reflexivity.
  - repeat split; reflexivity.
Defined.
(** ** Printing a colour *)

Lemma str_split (c : ascii) (x y : Z) (r r' : string) :
  ~ In c ("-"%char :: digit_chars) ->
  starts_with_or_empty c r -> starts_with_or_empty c r' ->
  (str x ++ r)%string = (str y ++ r')%string -> x = y /\ r = r'.
Proof.
  intros Hc Hr Hr' H.
  apply (append_split _ c _ _ _ _ Hc (str_chars x) (str_chars y) Hr Hr') in H.
  destruct H as [H ->]. split; [ apply str_inj; exact H | reflexivity ].
Qed.

(** X16.  [repr(c)] shows the three channels in decimal and nothing else:
    two colours have the same representation exactly when their red, green
    and blue channels agree, whatever their alpha. *)
Theorem Color_repr_channels (c1 c2 : Color) :
  Color_repr c1 = Color_repr c2
  <-> Color_r c1 = Color_r c2 /\ Color_g c1 = Color_g c2
      /\ Color_b c1 = Color_b c2.
Proof.
  unfold Color_repr. split.
  - intros H.
    rewrite !append_cons_l, !append_nil_l in H.
    repeat (injection H as H).
    assert (forall c : ascii, c = " "%char \/ c = ">"%char ->
              ~ In c ("-"%char :: digit_chars)) as Hc.
    { intros c [-> | ->]; unfold digit_chars; simpl; intros H';
        repeat (destruct H' as [H' | H']; [ discriminate | ]); exact H'. }
    apply (str_split " "%char) in H;
      [ | apply Hc; auto | reflexivity | reflexivity ].
    destruct H as [Hr H].
    repeat (injection H as H).
    apply (str_split " "%char) in H;
      [ | apply Hc; auto | reflexivity | reflexivity ].
    destruct H as [Hg H].
    repeat (injection H as H).
    apply (str_split ">"%char) in H;
      [ | apply Hc; auto | reflexivity | reflexivity ].
    destruct H as [Hb _]. auto.
  - intros (-> & -> & ->). reflexivity.
Qed.
(** ** The random constructors *)

(** Running a bind whose first computation has returned. *)
Ltac bind_ok :=
  repeat (change (mbind ?k (Ok ?x)) with (k x) in *; cbv beta iota in * ).

Section random_facts.
Variable draws : nat -> float.
Hypothesis draws_unit : forall i, unit_draw (draws i).

(** [int(random.random() * C)] lies in [0, C - 1] and takes one draw. *)
Lemma random_scaled_range (C : Z) (mc : positive) (ec : Z) (i : nat) :
  float_of_int C = Ok (S754_finite false mc ec) ->
  2 ^ 52 < Zpos mc < 2 ^ 53 -> -52 <= ec <= -2 ->
  Zpos mc = C * 2 ^ (- ec) ->
  exists n, random_scaled draws C i = Ok (n, S i) /\ 0 <= n < C.
Proof.
  intros HfC Hmc Hec HC.
  destruct (draws_unit i) as (Hv & q & Hq & Hq0 & Hq1).
  destruct (scale_unit (draws i) q C mc ec Hv Hq Hq0 Hq1 HfC Hmc Hec HC)
    as (A & HA & Hrange).
  exists A. split; [ | exact Hrange ].
  unfold random_scaled, random_random.
  destruct (num_mul (NFloat (draws i)) (NInt C)) as [v | e];
    [ | discriminate HA ].
  bind_ok. rewrite HA. reflexivity.
Qed.

Lemma random_scaled_255 (i : nat) :
  exists n, random_scaled draws 255 i = Ok (n, S i) /\ 0 <= n <= 254.
Proof.
  destruct (random_scaled_range 255 8972014882652160 (-45) i)
    as (n & Hn & Hr); try reflexivity; try lia.
  exists n. split; [ exact Hn | lia ].
Qed.

Lemma random_scaled_360 (i : nat) :
  exists n, random_scaled draws 360 i = Ok (n, S i) /\ 0 <= n <= 359.
Proof.
  destruct (random_scaled_range 360 6333186975989760 (-44) i)
    as (n & Hn & Hr); try reflexivity; try lia.
  exists n. split; [ exact Hn | lia ].
Qed.

Lemma random_scaled_0xFFFFFFFF (i : nat) :
  exists n,
    random_scaled draws 0xFFFFFFFF i = Ok (n, S i) /\ 0 <= n <= 0xFFFFFFFE.
Proof.
  destruct (random_scaled_range 0xFFFFFFFF 9007199252643840 (-21) i)
    as (n & Hn & Hr); try reflexivity; try lia.
  exists n. split; [ exact Hn | lia ].
Qed.

(** [r or int(random.random() * 255)] for a channel that, when given, lies
    in [0, 255]. *)
Lemma or_random_scaled_255 (r : option Z) (i : nat) :
  (forall x, r = Some x -> 0 <= x <= 255) ->
  exists n,
    or_random_scaled draws 255 r i
    = Ok (n, if falsy_int r then S i else i)
    /\ 0 <= n <= 255
    /\ (falsy_int r = true -> random_scaled draws 255 i = Ok (n, S i)
                              /\ n <= 254)
    /\ (forall x, r = Some x -> x <> 0 -> n = x).
Proof.
  intros Hr. destruct (random_scaled_255 i) as (n & Hn & Hrange).
  unfold or_random_scaled, falsy_int.
  destruct r as [x | ]; [ destruct (x =? 0) eqn:E | ].
  - exists n. rewrite Hn. apply Z.eqb_eq in E. subst x.
    split; [ reflexivity | ]. split; [ lia | ].
    split; [ intros _; split; [ reflexivity | lia ] | ].
    intros x Hx. injection Hx as <-. contradiction.
  - exists x. split; [ reflexivity | ]. split; [ apply Hr; reflexivity | ].
    split; [ discriminate | ].
    intros y Hy. injection Hy as <-. reflexivity.
  - exists n. rewrite Hn.
    split; [ reflexivity | ]. split; [ lia | ].
    split; [ intros _; split; [ reflexivity | lia ] | ].
    discriminate.
Qed.
End random_facts.

Lemma example_draws_unit (i : nat) : unit_draw (example_draws i).
Proof.
  unfold example_draws. destruct (Nat.even i).
  - split; [ reflexivity | ].
    exists (4503599627370496 # 9007199254740992).
    split; [ reflexivity | ]. split; discriminate || reflexivity.
  - split; [ reflexivity | ].
    exists (6755399441055744 # 9007199254740992).
    split; [ reflexivity | ]. split; discriminate || reflexivity.
Qed.

Lemma random_scaled_inv (draws : nat -> float) (C : Z) (i j : nat) (n : Z) :
  random_scaled draws C i = Ok (n, j) ->
  (v ← num_mul (NFloat (draws i)) (NInt C); int_ v) = Ok n /\ j = S i.
Proof.
  unfold random_scaled, random_random. intros H.
  destruct (num_mul (NFloat (draws i)) (NInt C)) as [v | e];
    [ | discriminate H ].
  bind_ok.
  destruct (int_ v) as [n' | e]; [ | discriminate H ].
  bind_ok. injection H as -> ->. split; reflexivity.
Qed.

Lemma Color_from_argb_of_alpha (a : num) (A r g b : Z) :
  (v ← num_mul a (NInt 255); int_ v) = Ok A ->
  Color_from_argb a r g b
  = Ok (mkColor ((A ≪ 24) + (r ≪ 16) + (g ≪ 8) + b)).
Proof.
  unfold Color_from_argb. intros H.
  destruct (num_mul a (NInt 255)) as [v | e]; [ | discriminate H ].
  bind_ok. rewrite H. reflexivity.
Qed.

Lemma or_random_falsy (draws : nat -> float) (a : option num) (i : nat) :
  falsy_num a = true -> or_random draws a i = (NFloat (draws i), S i).
Proof.
  unfold or_random, falsy_num, random_random.
  destruct a as [x | ]; [ | reflexivity ].
  destruct (truthy x); [ discriminate | reflexivity ].
Qed.

(** *** [from_random] *)

(** X10.  With a generator whose draws are floats in [0, 1),
    [Color.from_random()] takes exactly one draw and returns a colour whose
    value lies in [0, 0xFFFFFFFE]: the value [0xFFFFFFFF], opaque white, is
    never produced. *)
Theorem Color_from_random_range (draws : nat -> float) (i : nat)
    (Hdraws : forall k, unit_draw (draws k)) :
  exists c,
    Color_from_random draws i = Ok (c, S i)
    /\ 0 <= value c <= 0xFFFFFFFE
    /\ (n ← num_mul (NFloat (draws i)) (NInt 0xFFFFFFFF); int_ n)
       = Ok (value c).
Proof.
  destruct (random_scaled_0xFFFFFFFF draws Hdraws i) as (n & Hn & Hrange).
  exists (mkColor n). unfold Color_from_random. rewrite Hn.
  split; [ reflexivity | ]. split; [ exact Hrange | ].
  cbn [value]. unfold random_scaled, random_random in Hn.
  destruct (num_mul (NFloat (draws i)) (NInt 4294967295)) as [v | e];
    [ | discriminate Hn ].
  bind_ok.
  destruct (int_ v) as [n' | e]; [ | discriminate Hn ].
  bind_ok. injection Hn as ->. reflexivity.
Qed.

Lemma Color_from_random_range_witness :
  exists c,
    Color_from_random example_draws 0 = Ok (c, 1%nat)
    /\ 0 <= value c <= 0xFFFFFFFE
    /\ (n ← num_mul (NFloat (example_draws 0)) (NInt 0xFFFFFFFF); int_ n)
       = Ok (value c).
Proof.
  apply (Color_from_random_range example_draws 0 example_draws_unit).
Defined.

(** *** [from_random_argb] *)

(** X11.  With a generator whose draws are floats in [0, 1), when the alpha
    is left out or is zero ([0] or [0.0]: a fully transparent colour cannot
    be asked for) and the three channels are left out,
    [Color.from_random_argb] takes four draws, in the order alpha, red,
    green, blue.  The alpha byte and each channel are [int(x * 255)] of
    their draw and lie in [0, 254]: the colour is never fully opaque and no
    channel is ever 255. *)
Theorem Color_from_random_argb_all_random
    (draws : nat -> float) (a : option num) (i : nat)
    (Hdraws : forall k, unit_draw (draws k))
    (Ha : falsy_num a = true) :
  exists A R G B c,
    Color_from_random_argb draws a None None None i = Ok (c, (i + 4)%nat)
    /\ random_scaled draws 255 i = Ok (A, (i + 1)%nat)
    /\ random_scaled draws 255 (i + 1) = Ok (R, (i + 2)%nat)
    /\ random_scaled draws 255 (i + 2) = Ok (G, (i + 3)%nat)
    /\ random_scaled draws 255 (i + 3) = Ok (B, (i + 4)%nat)
    /\ 0 <= A <= 254 /\ 0 <= R <= 254 /\ 0 <= G <= 254 /\ 0 <= B <= 254
    /\ value c = A * 2 ^ 24 + R * 2 ^ 16 + G * 2 ^ 8 + B
    /\ Z.land (value c ≫ 24) 255 = A
    /\ Color_r c = R /\ Color_g c = G /\ Color_b c = B.
Proof.
  replace (i + 1)%nat with (S i) by lia.
  replace (i + 2)%nat with (S (S i)) by lia.
  replace (i + 3)%nat with (S (S (S i))) by lia.
  replace (i + 4)%nat with (S (S (S (S i)))) by lia.
  destruct (random_scaled_255 draws Hdraws i) as (A & HA & HAr).
  destruct (random_scaled_255 draws Hdraws (S i)) as (R & HR & HRr).
  destruct (random_scaled_255 draws Hdraws (S (S i))) as (G & HG & HGr).
  destruct (random_scaled_255 draws Hdraws (S (S (S i)))) as (B & HB & HBr).
  exists A, R, G, B, (mkColor ((A ≪ 24) + (R ≪ 16) + (G ≪ 8) + B)).
  split.
  { unfold Color_from_random_argb. rewrite (or_random_falsy draws a i Ha).
    unfold or_random_scaled. rewrite HR. bind_ok. rewrite HG. bind_ok.
    rewrite HB. bind_ok.
    rewrite (Color_from_argb_of_alpha _ A);
      [ reflexivity | apply (random_scaled_inv draws 255 i (S i)); exact HA ]. }
  split; [ exact HA | ]. split; [ exact HR | ]. split; [ exact HG | ].
  split; [ exact HB | ].
  split; [ exact HAr | ]. split; [ exact HRr | ]. split; [ exact HGr | ].
  split; [ exact HBr | ].
  rewrite pack_sum.
  destruct (channels_of_sum A R G B ltac:(lia) ltac:(lia) ltac:(lia))
    as (Er & Eg & Eb & Ea).
  split; [ cbn [value]; lia | ].
  split; [ rewrite Ea; apply Z.mod_small; lia | ].
  split; [ exact Er | ]. split; [ exact Eg | exact Eb ].
Qed.

Lemma Color_from_random_argb_all_random_witness :
  exists A R G B c,
    Color_from_random_argb example_draws (Some (NInt 0)) None None None 0
    = Ok (c, (0 + 4)%nat)
    /\ random_scaled example_draws 255 0 = Ok (A, (0 + 1)%nat)
    /\ random_scaled example_draws 255 (0 + 1) = Ok (R, (0 + 2)%nat)
    /\ random_scaled example_draws 255 (0 + 2) = Ok (G, (0 + 3)%nat)
    /\ random_scaled example_draws 255 (0 + 3) = Ok (B, (0 + 4)%nat)
    /\ 0 <= A <= 254 /\ 0 <= R <= 254 /\ 0 <= G <= 254 /\ 0 <= B <= 254
    /\ value c = A * 2 ^ 24 + R * 2 ^ 16 + G * 2 ^ 8 + B
    /\ Z.land (value c ≫ 24) 255 = A
    /\ Color_r c = R /\ Color_g c = G /\ Color_b c = B.
Proof.
  apply (Color_from_random_argb_all_random example_draws (Some (NInt 0)) 0
           example_draws_unit).
  reflexivity.
Defined.

(** *** [from_random_rgb] *)

(** X12.  With a generator whose draws are floats in [0, 1) and every
    given channel in [0, 255], [Color.from_random_rgb(r, g, b)] returns an
    opaque colour, its alpha the float 1.0.  A channel given and not zero
    is kept.  A channel left out, or given as 0, is drawn: it takes one
    draw, red before green before blue, and lies in [0, 254]. *)
Theorem Color_from_random_rgb_channels
    (draws : nat -> float) (r g b : option Z) (i : nat)
    (Hdraws : forall k, unit_draw (draws k))
    (Hr : forall x, r = Some x -> 0 <= x <= 255)
    (Hg : forall x, g = Some x -> 0 <= x <= 255)
    (Hb : forall x, b = Some x -> 0 <= x <= 255) :
  exists c,
    Color_from_random_rgb draws r g b i
    = Ok (c, (i + Nat.b2n (falsy_int r) + Nat.b2n (falsy_int g)
              + Nat.b2n (falsy_int b))%nat)
    /\ value c ≫ 24 = 255
    /\ Color_a c = Ok float_one
    /\ (forall x, r = Some x -> x <> 0 -> Color_r c = x)
    /\ (forall x, g = Some x -> x <> 0 -> Color_g c = x)
    /\ (forall x, b = Some x -> x <> 0 -> Color_b c = x)
    /\ (falsy_int r = true ->
        random_scaled draws 255 i = Ok (Color_r c, S i) /\ Color_r c <= 254)
    /\ (falsy_int g = true ->
        random_scaled draws 255 (i + Nat.b2n (falsy_int r))
        = Ok (Color_g c, S (i + Nat.b2n (falsy_int r)))
        /\ Color_g c <= 254)
    /\ (falsy_int b = true ->
        random_scaled draws 255
          (i + Nat.b2n (falsy_int r) + Nat.b2n (falsy_int g))
        = Ok (Color_b c,
              S (i + Nat.b2n (falsy_int r) + Nat.b2n (falsy_int g)))
        /\ Color_b c <= 254).
Proof.
  set (i1 := (i + Nat.b2n (falsy_int r))%nat).
  set (i2 := (i1 + Nat.b2n (falsy_int g))%nat).
  destruct (or_random_scaled_255 draws Hdraws r i Hr)
    as (R & HR & HRr & HRd & HRk).
  destruct (or_random_scaled_255 draws Hdraws g i1 Hg)
    as (G & HG & HGr & HGd & HGk).
  destruct (or_random_scaled_255 draws Hdraws b i2 Hb)
    as (B & HB & HBr & HBd & HBk).
  assert (forall (x : option Z) (k : nat),
             (if falsy_int x then S k else k) = (k + Nat.b2n (falsy_int x))%nat)
    as Hstep.
  { intros x k. destruct (falsy_int x); simpl; lia. }
  rewrite Hstep in HR, HG, HB. fold i1 in HR. fold i2 in HG.
  exists (mkColor (255 * 16777216 + R * 65536 + G * 256 + B)).
  destruct (channels_of_sum 255 R G B HRr HGr HBr) as (Er & Eg & Eb & Ea).
  cbv zeta in Er, Eg, Eb, Ea.
  split.
  { unfold Color_from_random_rgb, Color_from_random_argb.
    cbn [or_random truthy]. rewrite HR. bind_ok. rewrite HG. bind_ok.
    rewrite HB. bind_ok.
    fold (Color_from_rgb R G B). rewrite Color_from_rgb_value. reflexivity. }
  split; [ cbn [value]; apply repack_alpha; assumption | ].
  split.
  { unfold Color_a. rewrite Ea. vm_compute. reflexivity. }
  rewrite Er, Eg, Eb.
  split; [ exact HRk | ]. split; [ exact HGk | ]. split; [ exact HBk | ].
  split; [ exact HRd | ]. split; [ exact HGd | exact HBd ].
Qed.

Lemma Color_from_random_rgb_channels_witness :
  exists c,
    Color_from_random_rgb example_draws (Some 0) None (Some 7) 0
    = Ok (c, (0 + Nat.b2n (falsy_int (Some 0%Z)) + Nat.b2n (falsy_int None)
              + Nat.b2n (falsy_int (Some 7%Z)))%nat)
    /\ value c ≫ 24 = 255
    /\ Color_a c = Ok float_one
    /\ (forall x, Some 0 = Some x -> x <> 0 -> Color_r c = x)
    /\ (forall x, @None Z = Some x -> x <> 0 -> Color_g c = x)
    /\ (forall x, Some 7 = Some x -> x <> 0 -> Color_b c = x)
    /\ (falsy_int (Some 0%Z) = true ->
        random_scaled example_draws 255 0 = Ok (Color_r c, 1%nat)
        /\ Color_r c <= 254)
    /\ (falsy_int None = true ->
        random_scaled example_draws 255 (0 + Nat.b2n (falsy_int (Some 0%Z)))%nat
        = Ok (Color_g c, S (0 + Nat.b2n (falsy_int (Some 0%Z)))%nat)
        /\ Color_g c <= 254)
    /\ (falsy_int (Some 7%Z) = true ->
        random_scaled example_draws 255
          (0 + Nat.b2n (falsy_int (Some 0%Z)) + Nat.b2n (falsy_int None))%nat
        = Ok (Color_b c,
              S (0 + Nat.b2n (falsy_int (Some 0%Z))
                 + Nat.b2n (falsy_int None))%nat)
        /\ Color_b c <= 254).
Proof.
  apply (Color_from_random_rgb_channels example_draws
           (Some 0) None (Some 7) 0 example_draws_unit).
  - intros x H. injection H as <-. lia.
  - discriminate.
  - intros x H. injection H as <-. lia.
Defined.

(** *** [from_random_ahsl], [from_random_ahsv] and their opaque variants *)

(** X13.  With a generator whose draws are floats in [0, 1) and no
    argument given, [Color.from_random_ahsl] and [Color.from_random_ahsv]
    take four draws, in the order alpha, hue, saturation and lightness (or
    brightness), and call [from_ahsl] (or [from_ahsv]) on them, the hue
    being the integer [int(x * 360)], which lies in [0, 359].
    [from_random_hsl] and [from_random_hsv] take three draws, the first for
    the hue, and pass the alpha [1]. *)
Theorem Color_from_random_hue
    (draws : nat -> float) (colorsys : colorsys_module) (i : nat)
    (Hdraws : forall k, unit_draw (draws k)) :
  exists hue hue1 : Z,
    random_scaled draws 360 i = Ok (hue, (i + 1)%nat)
    /\ random_scaled draws 360 (i + 1) = Ok (hue1, (i + 2)%nat)
    /\ 0 <= hue <= 359 /\ 0 <= hue1 <= 359
    /\ Color_from_random_ahsl draws colorsys None None None None i
       = (c ← Color_from_ahsl colorsys (NFloat (draws i)) (NInt hue1)
                (NFloat (draws (i + 2)%nat)) (NFloat (draws (i + 3)%nat));
          Ok (c, (i + 4)%nat))
    /\ Color_from_random_ahsv draws colorsys None None None None i
       = (c ← Color_from_ahsv colorsys (NFloat (draws i)) (NInt hue1)
                (NFloat (draws (i + 2)%nat)) (NFloat (draws (i + 3)%nat));
          Ok (c, (i + 4)%nat))
    /\ Color_from_random_hsl draws colorsys None None None i
       = (c ← Color_from_hsl colorsys (NInt hue)
                (NFloat (draws (i + 1)%nat)) (NFloat (draws (i + 2)%nat));
          Ok (c, (i + 3)%nat))
    /\ Color_from_random_hsv draws colorsys None None None i
       = (c ← Color_from_hsv colorsys (NInt hue)
                (NFloat (draws (i + 1)%nat)) (NFloat (draws (i + 2)%nat));
          Ok (c, (i + 3)%nat)).
Proof.
  replace (i + 1)%nat with (S i) by lia.
  replace (i + 2)%nat with (S (S i)) by lia.
  replace (i + 3)%nat with (S (S (S i))) by lia.
  replace (i + 4)%nat with (S (S (S (S i)))) by lia.
  destruct (random_scaled_360 draws Hdraws i) as (hue & Hh & Hr).
  destruct (random_scaled_360 draws Hdraws (S i)) as (hue1 & Hh1 & Hr1).
  exists hue, hue1.
  split; [ exact Hh | ]. split; [ exact Hh1 | ].
  split; [ exact Hr | ]. split; [ exact Hr1 | ].
  unfold Color_from_random_hsl, Color_from_random_hsv,
    Color_from_random_ahsl, Color_from_random_ahsv.
  cbn [or_random truthy random_random or_random_scaled].
  rewrite Hh, Hh1. bind_ok.
  repeat split; reflexivity.
Qed.

Lemma Color_from_random_hue_witness :
  exists hue hue1 : Z,
    random_scaled example_draws 360 0 = Ok (hue, (0 + 1)%nat)
    /\ random_scaled example_draws 360 (0 + 1) = Ok (hue1, (0 + 2)%nat)
    /\ 0 <= hue <= 359 /\ 0 <= hue1 <= 359
    /\ Color_from_random_ahsl example_draws colorsys_unused
         None None None None 0
       = (c ← Color_from_ahsl colorsys_unused (NFloat (example_draws 0))
                (NInt hue1) (NFloat (example_draws (0 + 2)%nat))
                (NFloat (example_draws (0 + 3)%nat));
          Ok (c, (0 + 4)%nat))
    /\ Color_from_random_ahsv example_draws colorsys_unused
         None None None None 0
       = (c ← Color_from_ahsv colorsys_unused (NFloat (example_draws 0))
                (NInt hue1) (NFloat (example_draws (0 + 2)%nat))
                (NFloat (example_draws (0 + 3)%nat));
          Ok (c, (0 + 4)%nat))
    /\ Color_from_random_hsl example_draws colorsys_unused None None None 0
       = (c ← Color_from_hsl colorsys_unused (NInt hue)
                (NFloat (example_draws (0 + 1)%nat))
                (NFloat (example_draws (0 + 2)%nat));
          Ok (c, (0 + 3)%nat))
    /\ Color_from_random_hsv example_draws colorsys_unused None None None 0
       = (c ← Color_from_hsv colorsys_unused (NInt hue)
                (NFloat (example_draws (0 + 1)%nat))
                (NFloat (example_draws (0 + 2)%nat));
          Ok (c, (0 + 3)%nat)).
Proof.
  apply (Color_from_random_hue example_draws colorsys_unused 0
           example_draws_unit).
Defined.
(** ** From channels to hue *)

Lemma channel_truediv (r : Z) :
  0 <= r <= 255 ->
  exists fr, num_truediv (NInt r) (NInt 255) = Ok (NFloat fr) /\ unit_float fr.
Proof.
  intros Hr.
  destruct (alpha_decode r Hr) as (fr & q & Hdiv & Hv & Hq & H0 & H1 & _).
  exists fr. split.
  - unfold num_truediv. rewrite Hdiv. reflexivity.
  - split; [ exact Hv | ]. exists q. auto.
Qed.

Lemma scale_360_closed (f : float) :
  unit_float f ->
  exists H,
    (v ← num_mul (NFloat f) (NInt 360); int_ v) = Ok H
    /\ 0 <= H <= 360
    /\ (unit_draw f -> H <= 359).
Proof.
  intros (Hv & q & Hq & Hq0 & Hq1).
  assert (num_mul (NFloat f) (NInt 360)
          = Ok (NFloat (SFmul fprec femax f float_360))) as ->
    by reflexivity.
  bind_ok. cbn [int_].
  destruct (unit_float_inv f q Hv Hq Hq0 Hq1)
    as [(s & -> & _) | (m & e & -> & Hb & He & Hle & Eq & Hlt)].
  - exists 0. split; [ reflexivity | ]. split; lia.
  - destruct (scale_unit_finite m 6333186975989760 e (-44) 360 Hb He Hle
                ltac:(lia) ltac:(lia) ltac:(reflexivity))
      as (H & HH & Hr & Hstrict).
    exists H. split; [ exact HH | ]. split; [ exact Hr | ].
    intros (_ & q' & Hq' & _ & Hq1').
    assert (q' = q) as -> by congruence.
    assert (H < 360); [ | lia ].
    apply Hstrict; [ apply Hlt; exact Hq1' | lia ].
Qed.

(** X14.  For channels in [0, 255], [Color._rgb_to_hsl] and
    [Color._rgb_to_hsv] never raise in the divisions: they hand [colorsys]
    the three floats [r / 255], [g / 255], [b / 255], which lie in
    [0, 1].  When [colorsys] answers these three floats with a hue that is
    a float in [0, 1], the hue they return, [int(h * 360)], is an integer
    in [0, 360]; it is at most 359 when the hue of [colorsys] is below
    [1.0].  Saturation and the third component are those of [colorsys],
    with [_rgb_to_hsl] putting the saturation before the lightness. *)
Theorem Color__rgb_to_hue (colorsys : colorsys_module) (r g b : Z)
    (Hr : 0 <= r <= 255) (Hg : 0 <= g <= 255) (Hb : 0 <= b <= 255)
    (Hhls : forall fr fg fb,
       num_truediv (NInt r) (NInt 255) = Ok (NFloat fr) ->
       num_truediv (NInt g) (NInt 255) = Ok (NFloat fg) ->
       num_truediv (NInt b) (NInt 255) = Ok (NFloat fb) ->
       exists h l s,
         rgb_to_hls colorsys (NFloat fr) (NFloat fg) (NFloat fb)
         = Ok (NFloat h, l, s) /\ unit_float h)
    (Hhsv : forall fr fg fb,
       num_truediv (NInt r) (NInt 255) = Ok (NFloat fr) ->
       num_truediv (NInt g) (NInt 255) = Ok (NFloat fg) ->
       num_truediv (NInt b) (NInt 255) = Ok (NFloat fb) ->
       exists h s v,
         rgb_to_hsv colorsys (NFloat fr) (NFloat fg) (NFloat fb)
         = Ok (NFloat h, s, v) /\ unit_float h) :
  exists fr fg fb,
    num_truediv (NInt r) (NInt 255) = Ok (NFloat fr)
    /\ num_truediv (NInt g) (NInt 255) = Ok (NFloat fg)
    /\ num_truediv (NInt b) (NInt 255) = Ok (NFloat fb)
    /\ unit_float fr /\ unit_float fg /\ unit_float fb
    /\ (exists h l s H,
          rgb_to_hls colorsys (NFloat fr) (NFloat fg) (NFloat fb)
          = Ok (NFloat h, l, s)
          /\ Color__rgb_to_hsl colorsys r g b = Ok (H, s, l)
          /\ (v ← num_mul (NFloat h) (NInt 360); int_ v) = Ok H
          /\ 0 <= H <= 360
          /\ (unit_draw h -> H <= 359))
    /\ (exists h s v H,
          rgb_to_hsv colorsys (NFloat fr) (NFloat fg) (NFloat fb)
          = Ok (NFloat h, s, v)
          /\ Color__rgb_to_hsv colorsys r g b = Ok (H, s, v)
          /\ (v ← num_mul (NFloat h) (NInt 360); int_ v) = Ok H
          /\ 0 <= H <= 360
          /\ (unit_draw h -> H <= 359)).
Proof.
  destruct (channel_truediv r Hr) as (fr & Er & Ur).
  destruct (channel_truediv g Hg) as (fg & Eg & Ug).
  destruct (channel_truediv b Hb) as (fb & Eb & Ub).
  exists fr, fg, fb.
  split; [ exact Er | ]. split; [ exact Eg | ]. split; [ exact Eb | ].
  split; [ exact Ur | ]. split; [ exact Ug | ]. split; [ exact Ub | ].
  split.
  - destruct (Hhls fr fg fb Er Eg Eb) as (h & l & s & Hcs & Uh).
    destruct (scale_360_closed h Uh) as (H & HH & Hrange & Hstrict).
    exists h, l, s, H. split; [ exact Hcs | ].
    split; [ | split; [ exact HH | split; [ exact Hrange | exact Hstrict ] ] ].
    unfold Color__rgb_to_hsl. rewrite Er, Eg, Eb. bind_ok.
    rewrite Hcs. bind_ok.
    destruct (num_mul (NFloat h) (NInt 360)) as [v | e]; [ | discriminate HH ].
    bind_ok. rewrite HH. reflexivity.
  - destruct (Hhsv fr fg fb Er Eg Eb) as (h & s & v & Hcs & Uh).
    destruct (scale_360_closed h Uh) as (H & HH & Hrange & Hstrict).
    exists h, s, v, H. split; [ exact Hcs | ].
    split; [ | split; [ exact HH | split; [ exact Hrange | exact Hstrict ] ] ].
    unfold Color__rgb_to_hsv. rewrite Er, Eg, Eb. bind_ok.
    rewrite Hcs. bind_ok.
    destruct (num_mul (NFloat h) (NInt 360)) as [w | e]; [ | discriminate HH ].
    bind_ok. rewrite HH. reflexivity.
Qed.

(** With the standard [colorsys], on the channels (200, 255, 0). *)
Lemma Color__rgb_to_hue_witness :
  exists fr fg fb,
    num_truediv (NInt 200) (NInt 255) = Ok (NFloat fr)
    /\ num_truediv (NInt 255) (NInt 255) = Ok (NFloat fg)
    /\ num_truediv (NInt 0) (NInt 255) = Ok (NFloat fb)
    /\ unit_float fr /\ unit_float fg /\ unit_float fb
    /\ (exists h l s H,
          rgb_to_hls colorsys_stdlib (NFloat fr) (NFloat fg) (NFloat fb)
          = Ok (NFloat h, l, s)
          /\ Color__rgb_to_hsl colorsys_stdlib 200 255 0 = Ok (H, s, l)
          /\ (v ← num_mul (NFloat h) (NInt 360); int_ v) = Ok H
          /\ 0 <= H <= 360
          /\ (unit_draw h -> H <= 359))
    /\ (exists h s v H,
          rgb_to_hsv colorsys_stdlib (NFloat fr) (NFloat fg) (NFloat fb)
          = Ok (NFloat h, s, v)
          /\ Color__rgb_to_hsv colorsys_stdlib 200 255 0 = Ok (H, s, v)
          /\ (v ← num_mul (NFloat h) (NInt 360); int_ v) = Ok H
          /\ 0 <= H <= 360
          /\ (unit_draw h -> H <= 359)).
Proof.
  apply (Color__rgb_to_hue colorsys_stdlib 200 255 0).
  - lia.
  - lia.
  - lia.
  - intros fr fg fb Er Eg Eb.
    vm_compute in Er, Eg, Eb.
    injection Er as <-. injection Eg as <-. injection Eb as <-.
    eexists _, _, _. split; [ vm_compute; reflexivity | ].
    split; [ vm_compute; reflexivity | ].
    eexists. split; [ vm_compute; reflexivity | ].
    split; vm_compute; discriminate.
  - intros fr fg fb Er Eg Eb.
    vm_compute in Er, Eg, Eb.
    injection Er as <-. injection Eg as <-. injection Eb as <-.
    eexists _, _, _. split; [ vm_compute; reflexivity | ].
    split; [ vm_compute; reflexivity | ].
    eexists. split; [ vm_compute; reflexivity | ].
    split; vm_compute; discriminate.
Defined.

(** The hue of [colorsys] can be exactly [1.0], and then the hue returned
    is 360: with the standard library this happens on the floats
    [(1.0, 0.0, 2^-53)], which are not quotients of channels. *)
Example colorsys_hue_one :
  rgb_to_hls colorsys_stdlib (NFloat float_one) (NFloat (S754_zero false))
    (NFloat (S754_finite false 4503599627370496 (-105)))
  = Ok (NFloat float_one, NFloat one_half, NFloat float_one)
  /\ (v ← num_mul (NFloat float_one) (NInt 360); int_ v) = Ok 360.
Proof. split; vm_compute; reflexivity. Qed.
(** ** Rounding a float channel *)

Lemma normalize_table (K : Z) :
  0 <= K <= 255 ->
  int_of_float (binary_normalize fprec femax K 0 false) = Ok K.
Proof.
  intros HK.
  assert (forallb normalize_row_ok (map Z.of_nat (seq 0 256)) = true) as Hall
    by (vm_compute; reflexivity).
  rewrite forallb_forall in Hall.
  assert (normalize_row_ok K = true) as Hrow.
  { apply Hall. apply in_map_iff. exists (Z.to_nat K). split; [ lia | ].
    apply in_seq. lia. }
  unfold normalize_row_ok in Hrow.
  destruct (int_of_float (binary_normalize fprec femax K 0 false))
    as [K' | ]; [ | discriminate ].
  apply Z.eqb_eq in Hrow. subst K'. reflexivity.
Qed.

(** [nearest_even] is within one half of the quotient. *)
Lemma nearest_even_bounds (M k : Z) :
  0 <= M -> 0 < k ->
  M / 2 ^ k <= nearest_even M k <= M / 2 ^ k + 1
  /\ - 2 ^ k <= 2 * (nearest_even M k * 2 ^ k - M) <= 2 ^ k.
Proof.
  intros HM Hk. unfold nearest_even.
  assert (0 < 2 ^ k) as Hw by (apply Z.pow_pos_nonneg; lia).
  set (w := 2 ^ k) in *. clearbody w.
  pose proof (Z.div_mod M w ltac:(lia)) as Hdm.
  pose proof (Z.mod_pos_bound M w Hw) as Hb.
  set (q := M / w) in *. set (r := M mod w) in *. clearbody q r.
  assert ((q + 1) * w = q * w + w) as Hq1 by ring.
  assert (w * q = q * w) as Hc by ring.
  destruct (Z.compare_spec (2 * r) w) as [He | Hlt | Hgt].
  - destruct (Z.even q); lia.
  - lia.
  - lia.
Qed.

Lemma Qabs_int_half (K N D : Z) :
  0 < D -> - D <= 2 * (K * D - N) <= D ->
  (Qabs (inject_Z K - (N # Z.to_pos D)) <= 1 # 2)%Q.
Proof.
  intros HD H. unfold Qle, Qabs, Qminus, Qplus, Qopp, inject_Z. simpl.
  rewrite Z2Pos.id by exact HD.
  rewrite Pos2Z.inj_mul, Z2Pos.id by exact HD.
  destruct (Z.abs_spec (K * D + - N * 1)) as [[_ ->] | [_ ->]]; lia.
Qed.

(** [int(round(x * 255, 0))] on a positive float of the unit interval. *)
Lemma scale_channel_finite (m : positive) (e : Z) :
  bounded 53 1024 m e = true -> e < 0 -> Zpos m <= 2 ^ (- e) ->
  exists (n : Z) (qp : Q),
    int_ (round0 (NFloat (SFmul fprec femax (S754_finite false m e) float_255)))
    = Ok n
    /\ 0 <= n <= 255
    /\ float_value (SFmul fprec femax (S754_finite false m e) float_255)
       = Some qp
    /\ (Qabs (inject_Z n - qp) <= 1 # 2)%Q.
Proof.
  intros Hb He Hle.
  destruct (mul_const_truncated m 8972014882652160 e (-45) Hb He Hle
              ltac:(lia) ltac:(lia))
    as (A & N & E1 & h & _ & HE1 & Hh & HN & HD & _ & Herr & Hp).
  unfold float_255. rewrite Hp. clear Hp.
  assert (0 < 2 ^ (- e)) as HDe by (apply Z.pow_pos_nonneg; lia).
  assert (0 < 2 ^ (- E1)) as HP by (apply Z.pow_pos_nonneg; lia).
  change (2 ^ (- -45)) with 35184372088832 in HD.
  change (2 ^ 52) with 4503599627370496 in *.
  change (2 ^ 53) with 9007199254740992 in *.
  (* the product is at most 255 *)
  assert (N <= 255 * 2 ^ (- E1)) as HNC.
  { set (De := 2 ^ (- e)) in *. set (P := 2 ^ (- E1)) in *.
    clearbody De P.
    assert (Zpos m * 8972014882652160 <= De * 8972014882652160) as Hprod
      by (apply Z.mul_le_mono_nonneg_r; lia).
    assert (De * 8972014882652160 = 255 * P * (2 * h)) as HD' by lia.
    destruct (Z.le_gt_cases N (255 * P)) as [ | Hgt ]; [ assumption | ].
    assert ((255 * P + 1) * (2 * h) <= N * (2 * h))
      by (apply Z.mul_le_mono_nonneg_r; lia).
    lia. }
  destruct (N =? 0) eqn:E0.
  { exists 0, (0 # 1). split; [ reflexivity | ]. split; [ lia | ].
    split; [ reflexivity | ]. discriminate. }
  apply Z.eqb_neq in E0.
  assert (forall (Np : positive) (Ep : Z),
             Ep < 0 -> Zpos Np <= 255 * 2 ^ (- Ep) ->
             exists (n : Z) (qp : Q),
               int_ (round0 (NFloat (S754_finite false Np Ep))) = Ok n
               /\ 0 <= n <= 255
               /\ float_value (S754_finite false Np Ep) = Some qp
               /\ (Qabs (inject_Z n - qp) <= 1 # 2)%Q) as Hround.
  { intros Np Ep HEp HNp.
    assert (0 < 2 ^ (- Ep)) as Hw by (apply Z.pow_pos_nonneg; lia).
    destruct (nearest_even_bounds (Zpos Np) (- Ep) ltac:(lia) ltac:(lia))
      as [HK Herr'].
    set (K := nearest_even (Zpos Np) (- Ep)) in *.
    assert (0 <= Zpos Np / 2 ^ (- Ep)) as Hq0 by (apply Z.div_pos; lia).
    assert (0 <= K <= 255) as HKr.
    { split; [ lia | ].
      destruct (Z.le_gt_cases K 255) as [ | Hgt ]; [ assumption | ].
      assert (256 * 2 ^ (- Ep) <= K * 2 ^ (- Ep))
        by (apply Z.mul_le_mono_nonneg_r; lia).
      lia. }
    exists K, (Zpos Np # Z.to_pos (2 ^ (- Ep))).
    split.
    { cbn [round0]. destruct (Z.leb_spec 0 Ep); [ lia | ].
      cbn [cond_Zopp int_]. fold K. apply normalize_table. exact HKr. }
    split; [ exact HKr | ].
    split.
    { cbn [float_value]. destruct (Z.leb_spec 0 Ep); [ lia | ]. reflexivity. }
    apply Qabs_int_half; [ exact Hw | exact Herr' ]. }
  destruct (N =? 9007199254740992) eqn:E53.
  - apply Z.eqb_eq in E53. apply Hround; [ lia | ].
    change (Zpos (Z.to_pos 4503599627370496)) with 4503599627370496.
    replace (- E1) with (Z.succ (- (E1 + 1))) in HNC by lia.
    rewrite Z.pow_succ_r in HNC by lia. lia.
  - apply Hround; [ lia | ]. rewrite Z2Pos.id by lia. exact HNC.
Qed.

Lemma scale_channel_unit (x : float) :
  unit_float x ->
  exists (n : Z) (p : float) (qp : Q),
    num_mul (NFloat x) (NInt 255) = Ok (NFloat p)
    /\ float_value p = Some qp
    /\ scale_channel (NFloat x) = Ok n
    /\ 0 <= n <= 255
    /\ (Qabs (inject_Z n - qp) <= 1 # 2)%Q.
Proof.
  intros (Hv & q & Hq & Hq0 & Hq1).
  unfold scale_channel. rewrite num_mul_255. bind_ok.
  destruct (unit_float_inv x q Hv Hq Hq0 Hq1)
    as [(s & -> & _) | (m & e & -> & Hb & He & Hle & _)].
  - exists 0, (SFmul fprec femax (S754_zero s) float_255), (0 # 1).
    split; [ reflexivity | ]. destruct s.
    + repeat split; try reflexivity; try lia; discriminate.
    + repeat split; try reflexivity; try lia; discriminate.
  - destruct (scale_channel_finite m e Hb He Hle)
      as (n & qp & Hn & Hr & Hqp & Hnear).
    exists n, (SFmul fprec femax (S754_finite false m e) float_255), qp.
    auto.
Qed.

(** X17.  [int(round(x * 255, 0))], the conversion of a float channel used
    by [_hsl_to_rgb] and [_hsv_to_rgb]: for every float [x] with
    [0 <= x <= 1] it returns an integer in [0, 255], the integer nearest to
    the float product [x * 255], so within one half of it; 0.0 gives 0, 1.0
    gives 255, and 0.5, whose product 127.5 is a tie, gives the even
    neighbour 128. *)
Theorem scale_channel_nearest (x : float) (q : Q)
    (Hvalid : valid_binary fprec femax x = true)
    (Hq : float_value x = Some q)
    (Hrange : (0 <= q)%Q /\ (q <= 1)%Q) :
  (exists (n : Z) (p : float) (qp : Q),
      num_mul (NFloat x) (NInt 255) = Ok (NFloat p)
      /\ float_value p = Some qp
      /\ scale_channel (NFloat x) = Ok n
      /\ 0 <= n <= 255
      /\ (Qabs (inject_Z n - qp) <= 1 # 2)%Q)
  /\ scale_channel (NFloat (S754_zero false)) = Ok 0
  /\ scale_channel (NFloat float_one) = Ok 255
  /\ scale_channel (NFloat one_half) = Ok 128.
Proof.
  split.
  - apply scale_channel_unit. split; [ exact Hvalid | ].
    exists q. tauto.
  - repeat split; vm_compute; reflexivity.
Qed.

Lemma scale_channel_nearest_witness :
  (exists (n : Z) (p : float) (qp : Q),
      num_mul (NFloat three_quarters) (NInt 255) = Ok (NFloat p)
      /\ float_value p = Some qp
      /\ scale_channel (NFloat three_quarters) = Ok n
      /\ 0 <= n <= 255
      /\ (Qabs (inject_Z n - qp) <= 1 # 2)%Q)
  /\ scale_channel (NFloat (S754_zero false)) = Ok 0
  /\ scale_channel (NFloat float_one) = Ok 255
  /\ scale_channel (NFloat one_half) = Ok 128.
Proof.
  apply (scale_channel_nearest three_quarters
           (6755399441055744 # 9007199254740992)).
  - reflexivity.
  - reflexivity.
  - split; discriminate.
Defined.

(** *** From hue to channels *)

Lemma hue_truediv (h : Z) :
  0 <= h <= 360 ->
  exists fh, num_truediv (NInt h) (NInt 360) = Ok (NFloat fh) /\ unit_float fh.
Proof.
  intros Hh.
  assert (forallb hue_row_ok (map Z.of_nat (seq 0 361)) = true) as Hall
    by (vm_compute; reflexivity).
  rewrite forallb_forall in Hall.
  assert (hue_row_ok h = true) as Hrow.
  { apply Hall. apply in_map_iff. exists (Z.to_nat h). split; [ lia | ].
    apply in_seq. lia. }
  unfold hue_row_ok in Hrow. unfold num_truediv.
  destruct (int_truediv h 360) as [fh | ]; [ | discriminate Hrow ].
  exists fh. split; [ reflexivity | ].
  destruct fh as [s | s | | s m e]; try discriminate Hrow.
  - destruct s; [ discriminate Hrow | ].
    split; [ reflexivity | ]. exists (0 # 1).
    split; [ reflexivity | ]. split; discriminate.
  - destruct s; [ discriminate Hrow | ].
    apply andb_true_iff in Hrow as [Hrow Hle].
    apply andb_true_iff in Hrow as [Hv He].
    apply Z.ltb_lt in He. apply Z.leb_le in Hle.
    assert (0 < 2 ^ (- e)) as Hpos by (apply Z.pow_pos_nonneg; lia).
    split; [ exact Hv | ].
    exists (Zpos m # Z.to_pos (2 ^ (- e))). split.
    { cbn [float_value]. destruct (Z.leb_spec 0 e); [ lia | ]. reflexivity. }
    split; unfold Qle; simpl; rewrite ?Z2Pos.id by exact Hpos; lia.
Qed.

Lemma pack_opaque (R G B : Z) :
  0 <= R <= 255 -> 0 <= G <= 255 -> 0 <= B <= 255 ->
  exists c,
    Color_from_argb (NInt 1) R G B = Ok c
    /\ value c ≫ 24 = 255
    /\ Color_r c = R /\ Color_g c = G /\ Color_b c = B.
Proof.
  intros HR HG HB.
  exists (mkColor (255 * 16777216 + R * 65536 + G * 256 + B)).
  destruct (channels_of_sum 255 R G B HR HG HB) as (Er & Eg & Eb & _).
  split; [ apply Color_from_rgb_value | ].
  split; [ cbn [value]; apply repack_alpha; assumption | ].
  auto.
Qed.

(** X18.  For a hue in [0, 360], when [colorsys] answers a hue fraction
    in [0, 1] with three floats in [0, 1], [Color._hsl_to_rgb] and
    [Color._hsv_to_rgb] do not raise and return three integers in
    [0, 255]; [Color.from_hsl] and [Color.from_hsv] then return an opaque
    colour whose accessors give exactly these three channels: nothing
    spills from one channel into the next. *)
Theorem Color_from_hue_channels (colorsys : colorsys_module) (h : Z)
    (s l : num)
    (Hh : 0 <= h <= 360)
    (Hhls : forall x, unit_float x ->
       exists r g b,
         hls_to_rgb colorsys (NFloat x) l s
         = Ok (NFloat r, NFloat g, NFloat b)
         /\ unit_float r /\ unit_float g /\ unit_float b)
    (Hhsv : forall x, unit_float x ->
       exists r g b,
         hsv_to_rgb colorsys (NFloat x) s l
         = Ok (NFloat r, NFloat g, NFloat b)
         /\ unit_float r /\ unit_float g /\ unit_float b) :
  (exists R G B c,
      Color__hsl_to_rgb colorsys (NInt h) s l = Ok (R, G, B)
      /\ 0 <= R <= 255 /\ 0 <= G <= 255 /\ 0 <= B <= 255
      /\ Color_from_hsl colorsys (NInt h) s l = Ok c
      /\ value c ≫ 24 = 255
      /\ Color_r c = R /\ Color_g c = G /\ Color_b c = B)
  /\ (exists R G B c,
      Color__hsv_to_rgb colorsys (NInt h) s l = Ok (R, G, B)
      /\ 0 <= R <= 255 /\ 0 <= G <= 255 /\ 0 <= B <= 255
      /\ Color_from_hsv colorsys (NInt h) s l = Ok c
      /\ value c ≫ 24 = 255
      /\ Color_r c = R /\ Color_g c = G /\ Color_b c = B).
Proof.
  destruct (hue_truediv h Hh) as (fh & Hdiv & Ufh).
  split.
  - destruct (Hhls fh Ufh) as (r & g & b & Hcs & Ur & Ug & Ub).
    destruct (scale_channel_unit r Ur) as (R & _ & _ & _ & _ & HR & HRr & _).
    destruct (scale_channel_unit g Ug) as (G & _ & _ & _ & _ & HG & HGr & _).
    destruct (scale_channel_unit b Ub) as (B & _ & _ & _ & _ & HB & HBr & _).
    destruct (pack_opaque R G B HRr HGr HBr) as (c & Hc & Ha & Hch).
    assert (Color__hsl_to_rgb colorsys (NInt h) s l = Ok (R, G, B)) as Hrgb.
    { unfold Color__hsl_to_rgb. rewrite Hdiv. bind_ok. rewrite Hcs. bind_ok.
      rewrite HR. bind_ok. rewrite HG. bind_ok. rewrite HB. reflexivity. }
    exists R, G, B, c. split; [ exact Hrgb | ].
    split; [ exact HRr | ]. split; [ exact HGr | ]. split; [ exact HBr | ].
    split; [ | split; [ exact Ha | exact Hch ] ].
    unfold Color_from_hsl, Color_from_ahsl. rewrite Hrgb. bind_ok. exact Hc.
  - destruct (Hhsv fh Ufh) as (r & g & b & Hcs & Ur & Ug & Ub).
    destruct (scale_channel_unit r Ur) as (R & _ & _ & _ & _ & HR & HRr & _).
    destruct (scale_channel_unit g Ug) as (G & _ & _ & _ & _ & HG & HGr & _).
    destruct (scale_channel_unit b Ub) as (B & _ & _ & _ & _ & HB & HBr & _).
    destruct (pack_opaque R G B HRr HGr HBr) as (c & Hc & Ha & Hch).
    assert (Color__hsv_to_rgb colorsys (NInt h) s l = Ok (R, G, B)) as Hrgb.
    { unfold Color__hsv_to_rgb. rewrite Hdiv. bind_ok. rewrite Hcs. bind_ok.
      rewrite HR. bind_ok. rewrite HG. bind_ok. rewrite HB. reflexivity. }
    exists R, G, B, c. split; [ exact Hrgb | ].
    split; [ exact HRr | ]. split; [ exact HGr | ]. split; [ exact HBr | ].
    split; [ | split; [ exact Ha | exact Hch ] ].
    unfold Color_from_hsv, Color_from_ahsv. rewrite Hrgb. bind_ok. exact Hc.
Qed.

Lemma one_half_unit : unit_float one_half.
Proof.
  split; [ reflexivity | ].
  exists (4503599627370496 # 9007199254740992).
  split; [ reflexivity | ]. split; discriminate.
Qed.

Lemma Color_from_hue_channels_witness :
  (exists R G B c,
      Color__hsl_to_rgb colorsys_example (NInt 120) (NFloat one_half)
        (NFloat one_half) = Ok (R, G, B)
      /\ 0 <= R <= 255 /\ 0 <= G <= 255 /\ 0 <= B <= 255
      /\ Color_from_hsl colorsys_example (NInt 120) (NFloat one_half)
           (NFloat one_half) = Ok c
      /\ value c ≫ 24 = 255
      /\ Color_r c = R /\ Color_g c = G /\ Color_b c = B)
  /\ (exists R G B c,
      Color__hsv_to_rgb colorsys_example (NInt 120) (NFloat one_half)
        (NFloat one_half) = Ok (R, G, B)
      /\ 0 <= R <= 255 /\ 0 <= G <= 255 /\ 0 <= B <= 255
      /\ Color_from_hsv colorsys_example (NInt 120) (NFloat one_half)
           (NFloat one_half) = Ok c
      /\ value c ≫ 24 = 255
      /\ Color_r c = R /\ Color_g c = G /\ Color_b c = B).
Proof.
  apply (Color_from_hue_channels colorsys_example 120
           (NFloat one_half) (NFloat one_half)).
  - lia.
  - intros x _. exists one_half, one_half, one_half.
    split; [ reflexivity | ].
    split; [ | split ]; exact one_half_unit.
  - intros x _. exists one_half, one_half, one_half.
    split; [ reflexivity | ].
    split; [ | split ]; exact one_half_unit.
Defined.
(** ** The bullet predicate as a relation *)

(** X15.  For every [len], the bullet measure predicate gives the same
    answer in both directions.  Assigning a value over itself leaves the
    measure clean exactly when the value is a string: re-assigning a
    non-string bullet, such as the default [Bullet.none], invalidates the
    measure.  And when going from [a] to [b] leaves the measure clean,
    going from [a] to [c] invalidates it exactly when going from [b] to [c]
    does; in particular two clean steps compose to a clean step. *)
Theorem bullet_invalidate_measure_relation (len : string -> Z)
    (a b c : pyvalue) :
  _bullet_invalidate_measure len a b = _bullet_invalidate_measure len b a
  /\ (_bullet_invalidate_measure len a a = false <-> exists s, a = VStr s)
  /\ (_bullet_invalidate_measure len a b = false ->
      _bullet_invalidate_measure len a c = _bullet_invalidate_measure len b c)
  /\ (_bullet_invalidate_measure len a b = false ->
      _bullet_invalidate_measure len b c = false ->
      _bullet_invalidate_measure len a c = false).
Proof.
  assert (forall x y, _bullet_invalidate_measure len x y = false ->
            forall z, _bullet_invalidate_measure len x z
                      = _bullet_invalidate_measure len y z) as Hcongr.
  { intros x y Hxy z.
    apply bullet_invalidate_measure_false in Hxy
      as (sx & sy & -> & -> & Hlen).
    unfold _bullet_invalidate_measure. destruct z; simpl; try reflexivity.
    rewrite Hlen. reflexivity. }
  split; [ | split; [ | split ] ].
  - unfold _bullet_invalidate_measure.
    destruct a, b; simpl; try reflexivity.
    rewrite Z.eqb_sym. reflexivity.
  - rewrite bullet_invalidate_measure_false. split.
    + intros (s & _ & -> & _). exists s. reflexivity.
    + intros (s & ->). exists s, s. auto.
  - intros Hab. apply Hcongr. exact Hab.
  - intros Hab Hbc. rewrite (Hcongr a b Hab c). exact Hbc.
Qed.

(** ** Interpolation *)

Section interpolate_facts.
Variable interpolate : num -> num -> num -> result num.
Variable colorsys : colorsys_module.

(** What the HSL method evaluates to, once the conversions and the three
    interpolations have returned. *)
Lemma Color_interpolate_hsl_value (c1 c2 : Color) (p : num)
    (h1 h2 h : Z) (s1 l1 s2 l2 vs vl : num) :
  Color__rgb_to_hsl colorsys (Color_r c1) (Color_g c1) (Color_b c1)
  = Ok (h1, s1, l1) ->
  Color__rgb_to_hsl colorsys (Color_r c2) (Color_g c2) (Color_b c2)
  = Ok (h2, s2, l2) ->
  interpolate_int interpolate (NInt h1) (NInt h2) p = Ok h ->
  interpolate s1 s2 p = Ok vs -> interpolate l1 l2 p = Ok vl ->
  Color_interpolate interpolate colorsys c1 c2 p (Some hsl)
  = Color_from_hsl colorsys (NInt h) vs vl.
Proof.
  intros E1 E2 Eh Es El.
  cbv beta iota zeta
    delta [Color_interpolate Color__interpolation_method_map default
           from_option id Color__interpolate_hsl].
  rewrite E1. bind_ok. rewrite E2. bind_ok. rewrite Eh. bind_ok.
  rewrite Es. bind_ok. rewrite El. bind_ok. reflexivity.
Qed.

Lemma Color_interpolate_hsv_value (c1 c2 : Color) (p : num)
    (h1 h2 h : Z) (s1 v1 s2 v2 vs vv : num) :
  Color__rgb_to_hsv colorsys (Color_r c1) (Color_g c1) (Color_b c1)
  = Ok (h1, s1, v1) ->
  Color__rgb_to_hsv colorsys (Color_r c2) (Color_g c2) (Color_b c2)
  = Ok (h2, s2, v2) ->
  interpolate_int interpolate (NInt h1) (NInt h2) p = Ok h ->
  interpolate s1 s2 p = Ok vs -> interpolate v1 v2 p = Ok vv ->
  Color_interpolate interpolate colorsys c1 c2 p (Some hsv)
  = Color_from_hsv colorsys (NInt h) vs vv.
Proof.
  intros E1 E2 Eh Es Ev.
  cbv beta iota zeta
    delta [Color_interpolate Color__interpolation_method_map default
           from_option id Color__interpolate_hsv].
  rewrite E1. bind_ok. rewrite E2. bind_ok. rewrite Eh. bind_ok.
  rewrite Es. bind_ok. rewrite Ev. bind_ok. reflexivity.
Qed.

Lemma interpolate_int_truncates (x y p v : num) (q : Q) :
  interpolate x y p = Ok v -> num_value v = Some q ->
  interpolate_int interpolate x y p = Ok (truncate q).
Proof.
  intros Hv Hq. unfold interpolate_int. rewrite Hv. bind_ok.
  apply int_truncates. exact Hq.
Qed.

Lemma rounded_channels (x y z : float) :
  unit_float x -> unit_float y -> unit_float z ->
  exists R G B c,
    scale_channel (NFloat x) = Ok R /\ scale_channel (NFloat y) = Ok G
    /\ scale_channel (NFloat z) = Ok B
    /\ Color_from_argb (NInt 1) R G B = Ok c
    /\ value c ≫ 24 = 255
    /\ rounded_channel x (Color_r c) /\ rounded_channel y (Color_g c)
    /\ rounded_channel z (Color_b c).
Proof.
  intros Ux Uy Uz.
  destruct (scale_channel_unit x Ux) as (R & px & qx & Mx & Qx & HR & HRr & Nx).
  destruct (scale_channel_unit y Uy) as (G & py & qy & My & Qy & HG & HGr & Ny).
  destruct (scale_channel_unit z Uz) as (B & pz & qz & Mz & Qz & HB & HBr & Nz).
  destruct (pack_opaque R G B HRr HGr HBr) as (c & Hc & Ha & Er & Eg & Eb).
  exists R, G, B, c.
  split; [ exact HR | ]. split; [ exact HG | ]. split; [ exact HB | ].
  split; [ exact Hc | ]. split; [ exact Ha | ].
  rewrite Er, Eg, Eb. unfold rounded_channel.
  split; [ | split ].
  - split; [ exact HR | ]. split; [ exact HRr | ]. exists px, qx. auto.
  - split; [ exact HG | ]. split; [ exact HGr | ]. exists py, qy. auto.
  - split; [ exact HB | ]. split; [ exact HBr | ]. exists pz, qz. auto.
Qed.

(** [from_hsl] on a triple that [colorsys] answers with floats of the unit
    interval. *)
Lemma Color_from_hsl_rounded (h : Z) (s l hf : num) (x y z : float) :
  num_truediv (NInt h) (NInt 360) = Ok hf ->
  hls_to_rgb colorsys hf l s = Ok (NFloat x, NFloat y, NFloat z) ->
  unit_float x -> unit_float y -> unit_float z ->
  exists c,
    Color_from_hsl colorsys (NInt h) s l = Ok c
    /\ value c ≫ 24 = 255
    /\ rounded_channel x (Color_r c) /\ rounded_channel y (Color_g c)
    /\ rounded_channel z (Color_b c).
Proof.
  intros Hdiv Hcs Ux Uy Uz.
  destruct (rounded_channels x y z Ux Uy Uz)
    as (R & G & B & c & HR & HG & HB & Hc & Hrest).
  exists c. split; [ | exact Hrest ].
  unfold Color_from_hsl, Color_from_ahsl, Color__hsl_to_rgb.
  rewrite Hdiv. bind_ok. rewrite Hcs. bind_ok.
  rewrite HR. bind_ok. rewrite HG. bind_ok. rewrite HB. bind_ok.
  exact Hc.
Qed.

Lemma Color_from_hsv_rounded (h : Z) (s v hf : num) (x y z : float) :
  num_truediv (NInt h) (NInt 360) = Ok hf ->
  hsv_to_rgb colorsys hf s v = Ok (NFloat x, NFloat y, NFloat z) ->
  unit_float x -> unit_float y -> unit_float z ->
  exists c,
    Color_from_hsv colorsys (NInt h) s v = Ok c
    /\ value c ≫ 24 = 255
    /\ rounded_channel x (Color_r c) /\ rounded_channel y (Color_g c)
    /\ rounded_channel z (Color_b c).
Proof.
  intros Hdiv Hcs Ux Uy Uz.
  destruct (rounded_channels x y z Ux Uy Uz)
    as (R & G & B & c & HR & HG & HB & Hc & Hrest).
  exists c. split; [ | exact Hrest ].
  unfold Color_from_hsv, Color_from_ahsv, Color__hsv_to_rgb.
  rewrite Hdiv. bind_ok. rewrite Hcs. bind_ok.
  rewrite HR. bind_ok. rewrite HG. bind_ok. rewrite HB. bind_ok.
  exact Hc.
Qed.
End interpolate_facts.

Lemma utils_interpolate_int_0 (x y : Z) :
  interpolate_int utils_interpolate (NInt x) (NInt y) (NInt 0) = Ok x.
Proof.
  unfold interpolate_int, utils_interpolate. simpl. f_equal. lia.
Qed.

Lemma utils_interpolate_int_1 (x y : Z) :
  interpolate_int utils_interpolate (NInt x) (NInt y) (NInt 1) = Ok y.
Proof.
  unfold interpolate_int, utils_interpolate. simpl. f_equal. lia.
Qed.

(** *** Interpolation at the end points *)

(** C6, as the code has it.  Take any [utils.interpolate] that, on
    integers, returns its first argument at [p = 0] and its second at
    [p = 1], and any [colorsys].

    RGB method, given or by default: [Color.interpolate(c1, c2, 0)]
    returns a colour with alpha byte 255 ([value >> 24 == 255]) and the
    red, green and blue of [c1]; it equals [c1] exactly when
    [c1.value >> 24 == 255].  Likewise [Color.interpolate(c1, c2, 1)] and
    [c2].

    HSL method: when [_rgb_to_hsl] returns [(h1, s1, l1)] for the channels
    of [c1] and [(h2, s2, l2)] for those of [c2], and [utils.interpolate]
    returns [s1] and [l1] at [p = 0], then [Color.interpolate(c1, c2, 0)]
    is [Color.from_hsl(h1, s1, l1)]: the channels of [c1] taken through
    [colorsys] and back, with the hue cut to whole degrees by
    [int(h * 360)].  Likewise at [p = 1] with [(h2, s2, l2)], and likewise
    the HSV method with [_rgb_to_hsv] and [from_hsv]. *)
Theorem Color_interpolate_endpoints
    (interpolate : num -> num -> num -> result num)
    (colorsys : colorsys_module) (c1 c2 : Color)
    (H0 : forall x y,
        interpolate_int interpolate (NInt x) (NInt y) (NInt 0) = Ok x)
    (H1 : forall x y,
        interpolate_int interpolate (NInt x) (NInt y) (NInt 1) = Ok y) :
  (forall method : option ColorInterpolationMethod,
      method = None \/ method = Some rgb ->
      (exists c,
          Color_interpolate interpolate colorsys c1 c2 (NInt 0) method = Ok c
          /\ value c ≫ 24 = 255
          /\ Color_r c = Color_r c1 /\ Color_g c = Color_g c1
          /\ Color_b c = Color_b c1
          /\ (Color_eq c c1 = true <-> value c1 ≫ 24 = 255))
      /\ (exists c,
          Color_interpolate interpolate colorsys c1 c2 (NInt 1) method = Ok c
          /\ value c ≫ 24 = 255
          /\ Color_r c = Color_r c2 /\ Color_g c = Color_g c2
          /\ Color_b c = Color_b c2
          /\ (Color_eq c c2 = true <-> value c2 ≫ 24 = 255)))
  /\ (forall (h1 h2 : Z) (s1 l1 s2 l2 : num),
        Color__rgb_to_hsl colorsys (Color_r c1) (Color_g c1) (Color_b c1)
        = Ok (h1, s1, l1) ->
        Color__rgb_to_hsl colorsys (Color_r c2) (Color_g c2) (Color_b c2)
        = Ok (h2, s2, l2) ->
        (interpolate s1 s2 (NInt 0) = Ok s1 ->
         interpolate l1 l2 (NInt 0) = Ok l1 ->
         Color_interpolate interpolate colorsys c1 c2 (NInt 0) (Some hsl)
         = Color_from_hsl colorsys (NInt h1) s1 l1)
        /\ (interpolate s1 s2 (NInt 1) = Ok s2 ->
            interpolate l1 l2 (NInt 1) = Ok l2 ->
            Color_interpolate interpolate colorsys c1 c2 (NInt 1) (Some hsl)
            = Color_from_hsl colorsys (NInt h2) s2 l2))
  /\ (forall (h1 h2 : Z) (s1 v1 s2 v2 : num),
        Color__rgb_to_hsv colorsys (Color_r c1) (Color_g c1) (Color_b c1)
        = Ok (h1, s1, v1) ->
        Color__rgb_to_hsv colorsys (Color_r c2) (Color_g c2) (Color_b c2)
        = Ok (h2, s2, v2) ->
        (interpolate s1 s2 (NInt 0) = Ok s1 ->
         interpolate v1 v2 (NInt 0) = Ok v1 ->
         Color_interpolate interpolate colorsys c1 c2 (NInt 0) (Some hsv)
         = Color_from_hsv colorsys (NInt h1) s1 v1)
        /\ (interpolate s1 s2 (NInt 1) = Ok s2 ->
            interpolate v1 v2 (NInt 1) = Ok v2 ->
            Color_interpolate interpolate colorsys c1 c2 (NInt 1) (Some hsv)
            = Color_from_hsv colorsys (NInt h2) s2 v2)).
Proof.
  split; [ | split ].
  - intros method Hmethod.
    assert (forall p,
               Color_interpolate interpolate colorsys c1 c2 p method
               = Color_interpolate interpolate colorsys c1 c2 p (Some rgb))
      as Hm.
    { destruct Hmethod as [-> | ->]; reflexivity. }
    assert (forall c : Color,
               let c' := mkColor (255 * 16777216 + Color_r c * 65536
                                  + Color_g c * 256 + Color_b c) in
               value c' ≫ 24 = 255
               /\ Color_r c' = Color_r c /\ Color_g c' = Color_g c
               /\ Color_b c' = Color_b c
               /\ (Color_eq c' c = true <-> value c ≫ 24 = 255)) as Hre.
    { intros c. destruct c as [v]. cbv zeta.
      destruct (channel_range v) as (Hr & Hg & Hb).
      destruct (channels_of_sum 255 _ _ _ Hr Hg Hb) as (Er & Eg & Eb & _).
      split; [ apply repack_alpha; assumption | ].
      split; [ exact Er | ]. split; [ exact Eg | ]. split; [ exact Eb | ].
      unfold Color_eq. rewrite bool_decide_eq_true. cbn [value]. split.
      - intros <-. apply repack_alpha; assumption.
      - apply (opaque_repack (mkColor v)). }
    split.
    + eexists. rewrite Hm. split.
      * apply Color_interpolate_rgb_value; apply H0.
      * apply Hre.
    + eexists. rewrite Hm. split.
      * apply Color_interpolate_rgb_value; apply H1.
      * apply Hre.
  - intros h1 h2 s1 l1 s2 l2 E1 E2. split; intros Es El.
    + apply (Color_interpolate_hsl_value interpolate colorsys c1 c2 (NInt 0)
               h1 h2 h1 s1 l1 s2 l2 s1 l1); auto.
    + apply (Color_interpolate_hsl_value interpolate colorsys c1 c2 (NInt 1)
               h1 h2 h2 s1 l1 s2 l2 s2 l2); auto.
  - intros h1 h2 s1 v1 s2 v2 E1 E2. split; intros Es Ev.
    + apply (Color_interpolate_hsv_value interpolate colorsys c1 c2 (NInt 0)
               h1 h2 h1 s1 v1 s2 v2 s1 v1); auto.
    + apply (Color_interpolate_hsv_value interpolate colorsys c1 c2 (NInt 1)
               h1 h2 h2 s1 v1 s2 v2 s2 v2); auto.
Qed.

Lemma Color_interpolate_endpoints_witness :
  ((exists c,
       Color_interpolate utils_interpolate colorsys_stdlib
         (mkColor 0xFFC8FF00) (mkColor 0xFF0A141E) (NInt 0) None = Ok c
       /\ value c ≫ 24 = 255
       /\ Color_r c = 200 /\ Color_g c = 255 /\ Color_b c = 0
       /\ (Color_eq c (mkColor 0xFFC8FF00) = true <-> 0xFFC8FF00 ≫ 24 = 255))
   /\ (exists c,
       Color_interpolate utils_interpolate colorsys_stdlib
         (mkColor 0xFFC8FF00) (mkColor 0xFF0A141E) (NInt 1) None = Ok c
       /\ value c ≫ 24 = 255
       /\ Color_r c = 10 /\ Color_g c = 20 /\ Color_b c = 30
       /\ (Color_eq c (mkColor 0xFF0A141E) = true <-> 0xFF0A141E ≫ 24 = 255)))
  /\ (Color_interpolate utils_interpolate colorsys_stdlib
        (mkColor 0xFFC8FF00) (mkColor 0xFF0A141E) (NInt 0) (Some hsl)
      = Color_from_hsl colorsys_stdlib (NInt 72) (NFloat float_one)
          (NFloat one_half)
      /\ Color_interpolate utils_interpolate colorsys_stdlib
           (mkColor 0xFFC8FF00) (mkColor 0xFF0A141E) (NInt 0) (Some hsv)
         = Color_from_hsv colorsys_stdlib (NInt 72) (NFloat float_one)
             (NFloat float_one)).
Proof.
  pose proof (Color_interpolate_endpoints utils_interpolate colorsys_stdlib
                (mkColor 0xFFC8FF00) (mkColor 0xFF0A141E)
                utils_interpolate_int_0 utils_interpolate_int_1)
    as (Hrgb & Hhsl & Hhsv).
  split; [ | split ].
  - apply (Hrgb None). left. reflexivity.
  - apply (proj1 (Hhsl 72 210 (NFloat float_one) (NFloat one_half)
                   (NFloat one_half)
                   (NFloat (S754_finite false 5651576002974740 (-56)))
                   ltac:(vm_compute; reflexivity)
                   ltac:(vm_compute; reflexivity))).
    + vm_compute. reflexivity.
    + vm_compute. reflexivity.
  - apply (proj1 (Hhsv 72 210 (NFloat float_one) (NFloat float_one)
                   (NFloat (S754_finite false 6004799503160661 (-53)))
                   (NFloat (S754_finite false 8477364004462110 (-56)))
                   ltac:(vm_compute; reflexivity)
                   ltac:(vm_compute; reflexivity))).
    + vm_compute. reflexivity.
    + vm_compute. reflexivity.
Defined.

(** C6 as stated fails, in two ways.  A half-transparent colour does not
    come back at [p = 0]: the RGB method returns the opaque colour with the
    same channels.  And with the HSL and HSV methods an opaque colour does
    not come back either: through the standard [colorsys], with the hue
    cut to whole degrees, the opaque colour (200, 255, 0) comes back as
    (204, 255, 0), at [p = 0] as first operand and at [p = 1] as
    second. *)
Lemma Color_interpolate_endpoint_counterexample :
  ((forall colorsys : colorsys_module,
       Color_interpolate utils_interpolate colorsys
         (mkColor 0x7F0A141E) (mkColor 0xFFC8FF00) (NInt 0) (Some rgb)
       = Ok (mkColor 0xFF0A141E))
   /\ Color_eq (mkColor 0xFF0A141E) (mkColor 0x7F0A141E) = false)
  /\ Color_interpolate utils_interpolate colorsys_stdlib
       (mkColor 0xFFC8FF00) (mkColor 0xFF0A141E) (NInt 0) (Some hsl)
     = Ok (mkColor 0xFFCCFF00)
  /\ Color_interpolate utils_interpolate colorsys_stdlib
       (mkColor 0xFFC8FF00) (mkColor 0xFF0A141E) (NInt 0) (Some hsv)
     = Ok (mkColor 0xFFCCFF00)
  /\ Color_interpolate utils_interpolate colorsys_stdlib
       (mkColor 0xFF0A141E) (mkColor 0xFFC8FF00) (NInt 1) (Some hsl)
     = Ok (mkColor 0xFFCCFF00)
  /\ Color_interpolate utils_interpolate colorsys_stdlib
       (mkColor 0xFF0A141E) (mkColor 0xFFC8FF00) (NInt 1) (Some hsv)
     = Ok (mkColor 0xFFCCFF00)
  /\ Color_eq (mkColor 0xFFCCFF00) (mkColor 0xFFC8FF00) = false
  /\ value (mkColor 0xFFC8FF00) ≫ 24 = 255
  /\ Color_r (mkColor 0xFFC8FF00) = 200 /\ Color_r (mkColor 0xFFCCFF00) = 204.
Proof.
  split.
  { split.
    - intros colorsys. vm_compute. reflexivity.
    - vm_compute. reflexivity. }
  repeat split; vm_compute; reflexivity.
Qed.

(** *** Interpolation between the end points *)

(** A concrete float lies in the unit interval, by evaluation. *)
Ltac unit_float_by_evaluation :=
  split; [ vm_compute; reflexivity | ];
  eexists; split; [ vm_compute; reflexivity | ];
  split; vm_compute; discriminate.

(** C7, as the code has it.  The interpolated channels and the
    interpolated hue go through [int], which truncates; [round] is applied
    only to the floats that [colorsys] returns.

    RGB method, given or by default: when [utils.interpolate] returns the
    finite numbers [vr], [vg], [vb] for the three channels, the result is
    the colour of value
    [255 * 2^24 + int(vr) * 2^16 + int(vg) * 2^8 + int(vb)], [int]
    truncating toward zero; and when all three of them lie in [0, 256),
    each stored channel is its interpolant truncated: the integer [t] with
    [t <= v < t + 1].

    HSL method: when [_rgb_to_hsl] returns [(h1, s1, l1)] and
    [(h2, s2, l2)] for the two colours and [utils.interpolate] returns
    [vh], [vs], [vl] for hue, saturation and lightness, the result is
    [Color.from_hsl(int(vh), vs, vl)]: the hue truncated, saturation and
    lightness as interpolated.  When further [colorsys.hls_to_rgb] answers
    [int(vh) / 360], [vl], [vs] with three floats [x], [y], [z] of the unit
    interval, the result is an opaque colour whose channels are
    [int(round(x * 255, 0))] and so on: the float products rounded to the
    nearest integer.  Likewise the HSV method with [_rgb_to_hsv],
    [from_hsv] and [colorsys.hsv_to_rgb]. *)
Theorem Color_interpolate_channel_rounding
    (interpolate : num -> num -> num -> result num)
    (colorsys : colorsys_module) (c1 c2 : Color) (p : num) :
  (forall (method : option ColorInterpolationMethod) (vr vg vb : num)
          (qr qg qb : Q),
      method = None \/ method = Some rgb ->
      interpolate (NInt (Color_r c1)) (NInt (Color_r c2)) p = Ok vr ->
      interpolate (NInt (Color_g c1)) (NInt (Color_g c2)) p = Ok vg ->
      interpolate (NInt (Color_b c1)) (NInt (Color_b c2)) p = Ok vb ->
      num_value vr = Some qr -> num_value vg = Some qg ->
      num_value vb = Some qb ->
      exists c,
        Color_interpolate interpolate colorsys c1 c2 p method = Ok c
        /\ value c = 255 * 2 ^ 24 + truncate qr * 2 ^ 16
                     + truncate qg * 2 ^ 8 + truncate qb
        /\ (((0 <= qr)%Q /\ (qr < 256)%Q) /\ ((0 <= qg)%Q /\ (qg < 256)%Q)
            /\ ((0 <= qb)%Q /\ (qb < 256)%Q) ->
            Color_r c = truncate qr /\ Color_g c = truncate qg
            /\ Color_b c = truncate qb
            /\ (inject_Z (Color_r c) <= qr)%Q
            /\ (qr < inject_Z (Color_r c) + 1)%Q
            /\ (inject_Z (Color_g c) <= qg)%Q
            /\ (qg < inject_Z (Color_g c) + 1)%Q
            /\ (inject_Z (Color_b c) <= qb)%Q
            /\ (qb < inject_Z (Color_b c) + 1)%Q))
  /\ (forall (h1 h2 : Z) (s1 l1 s2 l2 vh vs vl : num) (qh : Q),
        Color__rgb_to_hsl colorsys (Color_r c1) (Color_g c1) (Color_b c1)
        = Ok (h1, s1, l1) ->
        Color__rgb_to_hsl colorsys (Color_r c2) (Color_g c2) (Color_b c2)
        = Ok (h2, s2, l2) ->
        interpolate (NInt h1) (NInt h2) p = Ok vh ->
        num_value vh = Some qh ->
        interpolate s1 s2 p = Ok vs -> interpolate l1 l2 p = Ok vl ->
        Color_interpolate interpolate colorsys c1 c2 p (Some hsl)
        = Color_from_hsl colorsys (NInt (truncate qh)) vs vl
        /\ forall (hf : num) (x y z : float),
             num_truediv (NInt (truncate qh)) (NInt 360) = Ok hf ->
             hls_to_rgb colorsys hf vl vs
             = Ok (NFloat x, NFloat y, NFloat z) ->
             unit_float x -> unit_float y -> unit_float z ->
             exists c,
               Color_interpolate interpolate colorsys c1 c2 p (Some hsl)
               = Ok c
               /\ value c ≫ 24 = 255
               /\ rounded_channel x (Color_r c)
               /\ rounded_channel y (Color_g c)
               /\ rounded_channel z (Color_b c))
  /\ (forall (h1 h2 : Z) (s1 v1 s2 v2 vh vs vv : num) (qh : Q),
        Color__rgb_to_hsv colorsys (Color_r c1) (Color_g c1) (Color_b c1)
        = Ok (h1, s1, v1) ->
        Color__rgb_to_hsv colorsys (Color_r c2) (Color_g c2) (Color_b c2)
        = Ok (h2, s2, v2) ->
        interpolate (NInt h1) (NInt h2) p = Ok vh ->
        num_value vh = Some qh ->
        interpolate s1 s2 p = Ok vs -> interpolate v1 v2 p = Ok vv ->
        Color_interpolate interpolate colorsys c1 c2 p (Some hsv)
        = Color_from_hsv colorsys (NInt (truncate qh)) vs vv
        /\ forall (hf : num) (x y z : float),
             num_truediv (NInt (truncate qh)) (NInt 360) = Ok hf ->
             hsv_to_rgb colorsys hf vs vv
             = Ok (NFloat x, NFloat y, NFloat z) ->
             unit_float x -> unit_float y -> unit_float z ->
             exists c,
               Color_interpolate interpolate colorsys c1 c2 p (Some hsv)
               = Ok c
               /\ value c ≫ 24 = 255
               /\ rounded_channel x (Color_r c)
               /\ rounded_channel y (Color_g c)
               /\ rounded_channel z (Color_b c)).
Proof.
  split; [ | split ].
  - intros method vr vg vb qr qg qb Hmethod Hr Hg Hb Hqr Hqg Hqb.
    exists (mkColor (255 * 16777216 + truncate qr * 65536
                     + truncate qg * 256 + truncate qb)).
    split.
    { assert (Color_interpolate interpolate colorsys c1 c2 p method
              = Color_interpolate interpolate colorsys c1 c2 p (Some rgb))
        as -> by (destruct Hmethod as [-> | ->]; reflexivity).
      apply (Color_interpolate_rgb_value interpolate colorsys);
        eapply interpolate_int_truncates; eassumption. }
    split.
    { cbn [value]. change (2 ^ 24) with 16777216.
      change (2 ^ 16) with 65536. change (2 ^ 8) with 256. reflexivity. }
    intros ((Hr0 & Hr1) & (Hg0 & Hg1) & (Hb0 & Hb1)).
    destruct (channels_of_sum 255 (truncate qr) (truncate qg) (truncate qb))
      as (Er & Eg & Eb & _); try (apply truncate_byte; assumption).
    rewrite Er, Eg, Eb.
    repeat split; try reflexivity; apply truncate_nonneg; assumption.
  - intros h1 h2 s1 l1 s2 l2 vh vs vl qh E1 E2 Hh Hqh Hs Hl.
    assert (Color_interpolate interpolate colorsys c1 c2 p (Some hsl)
            = Color_from_hsl colorsys (NInt (truncate qh)) vs vl) as Hval.
    { apply (Color_interpolate_hsl_value interpolate colorsys c1 c2 p
               h1 h2 (truncate qh) s1 l1 s2 l2 vs vl); try assumption.
      eapply interpolate_int_truncates; eassumption. }
    split; [ exact Hval | ].
    intros hf x y z Hdiv Hcs Ux Uy Uz. rewrite Hval.
    apply (Color_from_hsl_rounded colorsys _ _ _ hf x y z); assumption.
  - intros h1 h2 s1 v1 s2 v2 vh vs vv qh E1 E2 Hh Hqh Hs Hv.
    assert (Color_interpolate interpolate colorsys c1 c2 p (Some hsv)
            = Color_from_hsv colorsys (NInt (truncate qh)) vs vv) as Hval.
    { apply (Color_interpolate_hsv_value interpolate colorsys c1 c2 p
               h1 h2 (truncate qh) s1 v1 s2 v2 vs vv); try assumption.
      eapply interpolate_int_truncates; eassumption. }
    split; [ exact Hval | ].
    intros hf x y z Hdiv Hcs Ux Uy Uz. rewrite Hval.
    apply (Color_from_hsv_rounded colorsys _ _ _ hf x y z); assumption.
Qed.

Lemma Color_interpolate_channel_rounding_witness :
  (exists c,
      Color_interpolate utils_interpolate colorsys_stdlib
        (mkColor 0xFF0A141E) (mkColor 0xFFC8FF00) (NFloat three_quarters) None
      = Ok c
      /\ value c
         = 255 * 2 ^ 24
           + truncate (5365616743546880 # 35184372088832) * 2 ^ 16
           + truncate (6904933022433280 # 35184372088832) * 2 ^ 8
           + truncate (8444249301319680 # 1125899906842624)
      /\ Color_r c = 152 /\ Color_g c = 196 /\ Color_b c = 7)
  /\ (exists (x y z : float) (c : Color),
        Color_interpolate utils_interpolate colorsys_stdlib
          (mkColor 0xFF0A141E) (mkColor 0xFFC8FF00) (NFloat three_quarters)
          (Some hsl) = Ok c
        /\ value c ≫ 24 = 255
        /\ rounded_channel x (Color_r c) /\ rounded_channel y (Color_g c)
        /\ rounded_channel z (Color_b c))
  /\ (exists (x y z : float) (c : Color),
        Color_interpolate utils_interpolate colorsys_stdlib
          (mkColor 0xFF0A141E) (mkColor 0xFFC8FF00) (NFloat three_quarters)
          (Some hsv) = Ok c
        /\ value c ≫ 24 = 255
        /\ rounded_channel x (Color_r c) /\ rounded_channel y (Color_g c)
        /\ rounded_channel z (Color_b c)).
Proof.
  pose proof (Color_interpolate_channel_rounding utils_interpolate
                colorsys_stdlib (mkColor 0xFF0A141E) (mkColor 0xFFC8FF00)
                (NFloat three_quarters)) as (Hrgb & Hhsl & Hhsv).
  split; [ | split ].
  - destruct (Hrgb None
                (NFloat (S754_finite false 5365616743546880 (-45)))
                (NFloat (S754_finite false 6904933022433280 (-45)))
                (NFloat (S754_finite false 8444249301319680 (-50)))
                (5365616743546880 # 35184372088832)
                (6904933022433280 # 35184372088832)
                (8444249301319680 # 1125899906842624)
                (or_introl eq_refl)
                ltac:(vm_compute; reflexivity) ltac:(vm_compute; reflexivity)
                ltac:(vm_compute; reflexivity)
                eq_refl eq_refl eq_refl)
      as (c & Hc & Hv & Hch).
    exists c. split; [ exact Hc | ]. split; [ exact Hv | ].
    destruct Hch as (Er & Eg & Eb & _).
    { repeat split; discriminate. }
    rewrite Er, Eg, Eb. repeat split; reflexivity.
  - eexists _, _, _.
    eapply (proj2 (Hhsl 210 72 _ _ _ _ _ _ _ _
                     ltac:(vm_compute; reflexivity)
                     ltac:(vm_compute; reflexivity)
                     ltac:(vm_compute; reflexivity)
                     ltac:(vm_compute; reflexivity)
                     ltac:(vm_compute; reflexivity)
                     ltac:(vm_compute; reflexivity))).
    + vm_compute. reflexivity.
    + vm_compute. reflexivity.
    + unit_float_by_evaluation.
    + unit_float_by_evaluation.
    + unit_float_by_evaluation.
  - eexists _, _, _.
    eapply (proj2 (Hhsv 210 72 _ _ _ _ _ _ _ _
                     ltac:(vm_compute; reflexivity)
                     ltac:(vm_compute; reflexivity)
                     ltac:(vm_compute; reflexivity)
                     ltac:(vm_compute; reflexivity)
                     ltac:(vm_compute; reflexivity)
                     ltac:(vm_compute; reflexivity))).
    + vm_compute. reflexivity.
    + vm_compute. reflexivity.
    + unit_float_by_evaluation.
    + unit_float_by_evaluation.
    + unit_float_by_evaluation.
Defined.

(** C7 as stated fails.  Between channel values 0 and 1 at [p = 0.75] the
    interpolant is exactly 0.75; rounding to nearest gives 1, the stored
    channel is 0. *)
Lemma Color_interpolate_rounding_counterexample :
  (forall colorsys : colorsys_module,
      Color_interpolate utils_interpolate colorsys
        (mkColor 0xFF000000) (mkColor 0xFF010101) (NFloat three_quarters) None
      = Ok (mkColor 0xFF000000))
  /\ Color_r (mkColor 0xFF000000) = 0
  /\ utils_interpolate (NInt 0) (NInt 1) (NFloat three_quarters)
     = Ok (NFloat three_quarters)
  /\ (exists q, float_value three_quarters = Some q /\ (q == 3 # 4)%Q)
  /\ int_ (round0 (NFloat three_quarters)) = Ok 1.
Proof.
  split; [ intros colorsys; vm_compute; reflexivity | ].
  split; [ vm_compute; reflexivity | ].
  split; [ vm_compute; reflexivity | ].
  split; [ | vm_compute; reflexivity ].
  eexists. split; [ reflexivity | ]. vm_compute. reflexivity.
Qed.
